(** * go-print: discovery of SMB-shared printers

    A shallow embedding of the scan pipeline of [main.go] and of its
    bounded-range sibling ([getNetworkRange] with [minHost]/[maxHost]):
    the share extractor [getShares], the range deriver [getNetworkRange],
    the address enumerator [getLocalInterfaces] and the goroutine fan-out
    of [main] with its buffered channel.

    Go strings are byte sequences; they are modelled by [string], whose
    characters are the bytes.  Operating-system answers (interfaces,
    TCP dials, [net view] output, installer exit codes) are inputs of the
    model. *)

From Stdlib Require Import ZArith List Bool Ascii String Lia Arith.
From Stdlib Require Import DecimalString Decimal.
Import ListNotations.

Local Open Scope string_scope.
Local Open Scope Z_scope.

(** ** Errors and results *)

(** The [error] values the program builds with [fmt.Errorf], one
    constructor per message. *)
Inductive error : Type :=
| ErrInterfaces        (* net.Interfaces failed *)
| ErrNoIPv4            (* no usable IPv4 address: NoInterfacesFound *)
| ErrNoInterface       (* selectInterface on an empty slice *)
| ErrParseCIDR         (* net.ParseCIDR failed: InvalidAddressBlock *)
| ErrNotIPv4           (* masked base address has no 4-byte form *)
| ErrEmptyRange        (* no candidate in minHost..maxHost *)
| ErrNetView           (* the net view command failed *)
| ErrNoShares          (* no printer share in the output *)
| ErrAddPrinter        (* rundll32 /in failed *)
| ErrSetDefault        (* rundll32 /y failed *)
| ErrVerifyDefault.    (* the default printer check failed *)

Inductive result (A : Type) : Type :=
| Ok (a : A)
| Err (e : error).
Arguments Ok {A} a.
Arguments Err {A} e.

(** ** Package [strings] and [bufio] *)

Module GoStrings.

Definition byteval (c : ascii) : Z := Z.of_N (N_of_ascii c).

(** [utf8.RuneSelf]: bytes below it are single-byte runes. *)
Definition RuneSelf : Z := 128.

(** The table [asciiSpace] of package strings. *)
Definition asciiSpace (c : ascii) : bool :=
  let v := byteval c in
  (v =? 9) || (v =? 10) || (v =? 11) || (v =? 12) || (v =? 13) || (v =? 32).

Fixpoint isASCII (s : string) : bool :=
  match s with
  | EmptyString => true
  | String c s' => (byteval c <? RuneSelf) && isASCII s'
  end.

Fixpoint rev (s : string) : string :=
  match s with
  | EmptyString => EmptyString
  | String c s' => rev s' ++ String c EmptyString
  end.

(** [strings.HasPrefix s p]. *)
Definition HasPrefix (s p : string) : bool := String.prefix p s.

(** First occurrence of [sep] in [s], counted in bytes. *)
Fixpoint indexNat (s sep : string) : option nat :=
  if String.prefix sep s then Some O
  else match s with
       | EmptyString => None
       | String _ s' => option_map S (indexNat s' sep)
       end.

(** [strings.Index]: the byte offset of the first occurrence, or -1. *)
Definition Index (s sep : string) : Z :=
  match indexNat s sep with
  | Some n => Z.of_nat n
  | None => -1
  end.

(** [strings.Contains s substr] is [Index(s, substr) >= 0]. *)
Definition Contains (s substr : string) : bool := 0 <=? Index s substr.

(** The slice expression [s[:n]]. *)
Fixpoint take (n : nat) (s : string) : string :=
  match n, s with
  | O, _ => EmptyString
  | S n', String c s' => String c (take n' s')
  | S _, EmptyString => EmptyString
  end.

Definition sliceTo (s : string) (n : Z) : string := take (Z.to_nat n) s.

(** Lower-casing of one ASCII byte: ['A'..'Z'] are shifted by
    ['a' - 'A'], every other byte is kept. *)
Definition lowerByte (c : ascii) : ascii :=
  let v := byteval c in
  if (65 <=? v) && (v <=? 90) then ascii_of_N (Z.to_N (v + 32)) else c.

Fixpoint mapBytes (f : ascii -> ascii) (s : string) : string :=
  match s with
  | EmptyString => EmptyString
  | String c s' => String (f c) (mapBytes f s')
  end.

(** One trailing carriage return is dropped from a scanned line
    ([dropCR] of package bufio). *)
Definition dropCR (data : string) : string :=
  match rev data with
  | String c r => if (byteval c =? 13) then rev r else data
  | EmptyString => data
  end.

(** [bufio.MaxScanTokenSize]: a line whose content reaches this many
    bytes does not fit the scanner's buffer. *)
Definition MaxScanTokenSize : Z := 64 * 1024.

(** The lines a [bufio.Scanner] with the default split function
    [ScanLines] hands to the loop [for scanner.Scan()].  [cur] holds the
    bytes of the current line in reverse, [n] their number.  A line is
    ended by a line feed; a last line without line feed is produced when
    it is not empty; when a line does not fit the buffer [Scan] reports
    false and the loop is over. *)
Fixpoint scanFrom (s : string) (cur : string) (n : Z) : list string :=
  match s with
  | EmptyString => if n =? 0 then [] else [dropCR (rev cur)]
  | String c s' =>
      if byteval c =? 10 then dropCR (rev cur) :: scanFrom s' EmptyString 0
      else if MaxScanTokenSize <=? n + 1 then []
      else scanFrom s' (String c cur) (n + 1)
  end.

Definition scanLines (s : string) : list string := scanFrom s EmptyString 0.

Section Unicode.

(** The code paths of package strings that decode UTF-8 and consult the
    Unicode tables are parameters: [strings.TrimFunc(s, unicode.IsSpace)],
    [strings.TrimRightFunc(s, unicode.IsSpace)],
    [strings.Map(unicode.ToLower, s)] and
    [strings.FieldsFunc(s, unicode.IsSpace)].  They are reached only from
    a byte of value [RuneSelf] or more. *)
Variable unicodeTrim : string -> string.
Variable unicodeTrimRight : string -> string.
Variable unicodeToLower : string -> string.
Variable unicodeFields : string -> list string.

(** Second loop of [strings.TrimSpace], on the reversed remainder. *)
Fixpoint trimRightRev (r : string) : string :=
  match r with
  | EmptyString => EmptyString
  | String c r' =>
      if RuneSelf <=? byteval c then unicodeTrimRight (rev r)
      else if asciiSpace c then trimRightRev r'
      else rev r
  end.

(** [strings.TrimSpace]: the first loop skips leading ASCII white space,
    the second trailing ASCII white space; either falls back to the
    Unicode-aware function at the first byte that is not ASCII. *)
Fixpoint TrimSpace (s : string) : string :=
  match s with
  | EmptyString => EmptyString
  | String c s' =>
      if RuneSelf <=? byteval c then unicodeTrim s
      else if asciiSpace c then TrimSpace s'
      else trimRightRev (rev s)
  end.

(** [strings.ToLower]: byte-wise on ASCII-only strings, [strings.Map]
    with [unicode.ToLower] otherwise. *)
Definition ToLower (s : string) : string :=
  if isASCII s then mapBytes lowerByte s else unicodeToLower s.

(** ASCII path of [strings.Fields]: maximal runs of bytes outside
    [asciiSpace].  [cur] is the field being read, in reverse. *)
Fixpoint fieldsFrom (s : string) (cur : string) : list string :=
  match s with
  | EmptyString =>
      match cur with EmptyString => [] | _ => [rev cur] end
  | String c s' =>
      if asciiSpace c
      then match cur with
           | EmptyString => fieldsFrom s' EmptyString
           | _ => rev cur :: fieldsFrom s' EmptyString
           end
      else fieldsFrom s' (String c cur)
  end.

Definition Fields (s : string) : list string :=
  if isASCII s then fieldsFrom s EmptyString else unicodeFields s.

End Unicode.

End GoStrings.

(** ** The share extractor *)

(** What [cmd.CombinedOutput()] returns for [net view \\ip]: the
    captured text, and whether [err] is non-nil. *)
Record CombinedOutput : Type := mkOutput {
  output : string;
  failed : bool
}.

Module Shares.
Import GoStrings.

Section Extractor.

Variable unicodeTrim : string -> string.
Variable unicodeTrimRight : string -> string.
Variable unicodeToLower : string -> string.
Variable unicodeFields : string -> list string.

Local Abbreviation TrimSpace := (GoStrings.TrimSpace unicodeTrim unicodeTrimRight).
Local Abbreviation ToLower := (GoStrings.ToLower unicodeToLower).
Local Abbreviation Fields := (GoStrings.Fields unicodeFields).

(** Body of the loop [for scanner.Scan()] of [getShares] in [main.go]
    for one [line]: the share this line appends to [shares], if any. *)
Definition shareOfLine (line : string) : option string :=
  if Contains line "Print" then
    let printIndex := Index line "Print" in
    if 0 <? printIndex then
      let shareName := TrimSpace (sliceTo line printIndex) in
      if negb (String.eqb shareName EmptyString)
         && negb (Contains (ToLower shareName) "ipc$")
      then Some shareName
      else None
    else None
  else None.

Definition appendShare (shares : list string) (line : string) : list string :=
  match shareOfLine line with
  | Some shareName => shares ++ [shareName]
  | None => shares
  end.

(** The scan of the command output: [shares] after the loop. *)
Definition parseShares (out : string) : list string :=
  fold_left appendShare (scanLines out) [].

(** [getShares] of [main.go], given the outcome of the command. *)
Definition getShares (cmd : CombinedOutput) : result (list string) :=
  if failed cmd then Err ErrNetView
  else
    let shares := parseShares (output cmd) in
    match shares with
    | [] => Err ErrNoShares
    | _ => Ok shares
    end.

(** The loop body of the earlier [getShares] that takes the first
    white-space separated field of a marked line as the share name. *)
Definition shareOfLineFields (line : string) : option string :=
  if Contains line "Print" then
    match Fields line with
    | shareName :: _ =>
        if negb (String.eqb shareName EmptyString)
           && negb (Contains (ToLower shareName) "ipc$")
        then Some shareName
        else None
    | [] => None
    end
  else None.

End Extractor.

End Shares.


(** ** Package [net] *)

Module GoNet.
Import GoStrings.

(** [net.IP] and [net.IPMask] are byte slices; a byte is a [Z] in the
    range 0..255.  A nil slice is [None] where the program tests for
    it. *)
Definition IP : Type := list Z.
Definition IPMask : Type := list Z.

Record IPNet : Type := mkIPNet {
  netIP : IP;
  netMask : IPMask
}.

Definition IPv4len : nat := 4.
Definition IPv6len : nat := 16.

Definition v4InV6Prefix : list Z := [0; 0; 0; 0; 0; 0; 0; 0; 0; 0; 255; 255].

(** [net.IPv4(a, b, c, d)]: the 16-byte form of an IPv4 address. *)
Definition IPv4 (a b c d : Z) : IP := (v4InV6Prefix ++ [a; b; c; d])%list.

Definition isZeros (p : list Z) : bool := forallb (Z.eqb 0) p.
Definition allFF (p : list Z) : bool := forallb (Z.eqb 255) p.

Definition bytesEqual (p q : list Z) : bool :=
  (List.length p =? List.length q)%nat && forallb (fun '(x, y) => x =? y) (combine p q).

(** [ip.To4()]. *)
Definition To4 (ip : IP) : option IP :=
  if (List.length ip =? IPv4len)%nat then Some ip
  else if (List.length ip =? IPv6len)%nat
          && isZeros (firstn 10 ip)
          && (nth 10 ip 0 =? 255) && (nth 11 ip 0 =? 255)
       then Some (skipn 12 ip)
       else None.

(** [ip.Mask(mask)]; [None] is the nil result for unequal lengths. *)
Definition Mask (ip : IP) (mask : IPMask) : option IP :=
  let mask :=
    if (List.length mask =? IPv6len)%nat && (List.length ip =? IPv4len)%nat
       && allFF (firstn 12 mask)
    then skipn 12 mask else mask in
  let ip :=
    if (List.length mask =? IPv4len)%nat && (List.length ip =? IPv6len)%nat
       && bytesEqual (firstn 12 ip) v4InV6Prefix
    then skipn 12 ip else ip in
  if (List.length ip =? List.length mask)%nat
  then Some (map (fun '(x, m) => Z.land x m) (combine ip mask))
  else None.

(** [networkNumberAndMask]. *)
Definition networkNumberAndMask (n : IPNet) : option (IP * IPMask) :=
  let ip := match To4 (netIP n) with Some p4 => Some p4
            | None => if (List.length (netIP n) =? IPv6len)%nat
                      then Some (netIP n) else None
            end in
  match ip with
  | None => None
  | Some ip =>
      let m := netMask n in
      if (List.length m =? IPv4len)%nat then
        if (List.length ip =? IPv4len)%nat then Some (ip, m) else None
      else if (List.length m =? IPv6len)%nat then
        if (List.length ip =? IPv4len)%nat then Some (ip, skipn 12 m)
        else Some (ip, m)
      else None
  end.

(** [n.Contains(ip)]; when [networkNumberAndMask] gives nil, the
    network number has length 0. *)
Definition Contains (n : IPNet) (ip : IP) : bool :=
  let '(nn, m) := match networkNumberAndMask n with
                  | Some r => r
                  | None => ([], [])
                  end in
  let ip := match To4 ip with Some x => x | None => ip end in
  (List.length ip =? List.length nn)%nat
  && forallb (fun '(a, (b, k)) => Z.land a k =? Z.land b k)
             (combine nn (combine ip m)).

(** [net.CIDRMask(ones, bits)] for [0 <= ones <= bits], [bits] 32 or
    128. *)
Fixpoint maskBytes (l : nat) (n : Z) : IPMask :=
  match l with
  | O => []
  | S l' =>
      if 8 <=? n then 255 :: maskBytes l' (n - 8)
      else Z.lxor 255 (Z.shiftr 255 n) :: maskBytes l' 0
  end.

Definition CIDRMask (ones bits : Z) : IPMask :=
  maskBytes (Z.to_nat (bits / 8)) ones.

(** Decimal text of a non-negative number ([uitoa], and the octets
    printed by [netip.Addr.String]). *)
Definition uitoa (v : Z) : string :=
  NilZero.string_of_uint (N.to_uint (Z.to_N v)).

Definition hexDigit (v : Z) : ascii :=
  if v <? 10 then ascii_of_N (Z.to_N (48 + v))
  else ascii_of_N (Z.to_N (97 + (v - 10))).

(** [hex.EncodeToString] / [hexString]: two lower-case digits a byte. *)
Fixpoint hexString (p : list Z) : string :=
  match p with
  | [] => EmptyString
  | b :: p' =>
      String (hexDigit (Z.shiftr b 4)) (String (hexDigit (Z.land b 15))
        (hexString p'))
  end.

(** Dotted-decimal text of a 4-byte address. *)
Definition dotted (p4 : list Z) : string :=
  uitoa (nth 0 p4 0) ++ "." ++ uitoa (nth 1 p4 0) ++ "."
  ++ uitoa (nth 2 p4 0) ++ "." ++ uitoa (nth 3 p4 0).

(** [simpleMaskLength]: the number of leading ones of a mask made of
    ones followed by zeros, -1 for any other mask. *)
Fixpoint onesOfByte (fuel : nat) (v n : Z) : Z * Z :=
  match fuel with
  | O => (v, n)
  | S f =>
      if Z.land v 128 =? 0 then (v, n)
      else onesOfByte f (Z.land (Z.shiftl v 1) 255) (n + 1)
  end.

Fixpoint simpleMaskLengthFrom (mask : IPMask) (n : Z) : Z :=
  match mask with
  | [] => n
  | v :: rest =>
      if v =? 255 then simpleMaskLengthFrom rest (n + 8)
      else
        let '(v', n') := onesOfByte 8 v n in
        if negb (v' =? 0) then -1
        else if isZeros rest then n' else -1
  end.

Definition simpleMaskLength (mask : IPMask) : Z := simpleMaskLengthFrom mask 0.

Section Text.

(** Parameters: the text [netip.Addr.String] gives a 16-byte address
    that is not IPv4-mapped, and [netip]'s parser of IPv6 literals,
    which yields the 16 bytes and the zone. *)
Variable ipv6String : IP -> string.
Variable parseIPv6 : string -> option (list Z * string).

(** [ip.String()]. *)
Definition IP_String (ip : IP) : string :=
  match ip with
  | [] => "<nil>"
  | _ =>
      if negb (List.length ip =? IPv4len)%nat && negb (List.length ip =? IPv6len)%nat
      then "?" ++ hexString ip
      else match To4 ip with
           | Some p4 => dotted p4
           | None => ipv6String ip
           end
  end.

(** [m.String()] of an [IPMask]. *)
Definition IPMask_String (m : IPMask) : string :=
  match m with
  | [] => "<nil>"
  | _ => hexString m
  end.

(** [n.String()] of an [*IPNet]. *)
Definition IPNet_String (n : IPNet) : string :=
  match networkNumberAndMask n with
  | None => "<nil>"
  | Some (nn, m) =>
      let l := simpleMaskLength m in
      if l =? -1 then IP_String nn ++ "/" ++ IPMask_String m
      else IP_String nn ++ "/" ++ uitoa l
  end.

Definition isDigit (c : ascii) : bool :=
  (48 <=? byteval c) && (byteval c <=? 57).

(** [parseIPv4Fields] of package netip on [s[i:]]: [first] says [i = 0],
    [prevDot] that [s[i-1]] is a dot; [fields] holds the octets read so
    far, so [pos] is its length. *)
Fixpoint parseIPv4Fields (s : string) (first prevDot : bool)
    (val digLen : Z) (fields : list Z) : option (list Z) :=
  match s with
  | EmptyString =>
      if (List.length fields <? 3)%nat then None else Some (fields ++ [val])%list
  | String c rest =>
      if isDigit c then
        if (digLen =? 1) && (val =? 0) then None
        else
          let val := val * 10 + (byteval c - 48) in
          if 255 <? val then None
          else parseIPv4Fields rest false false val (digLen + 1) fields
      else if byteval c =? 46 then
        if first || (match rest with EmptyString => true | _ => false end)
           || prevDot
        then None
        else if (List.length fields =? 3)%nat then None
        else parseIPv4Fields rest false true 0 0 (fields ++ [val])%list
      else None
  end.

(** The address family [netip.ParseAddr] decides on at the first of
    ['.'], [':'] and ['%']. *)
Inductive family : Type := FamV4 | FamV6 | FamNone.

Fixpoint addrFamily (s : string) : family :=
  match s with
  | EmptyString => FamNone
  | String c rest =>
      if byteval c =? 46 then FamV4
      else if byteval c =? 58 then FamV6
      else if byteval c =? 37 then FamNone
      else addrFamily rest
  end.

(** [netip.ParseAddr]: the 16-byte form [As16], the bit List.length and the
    zone. *)
Definition ParseAddr (s : string) : option (list Z * Z * string) :=
  match addrFamily s with
  | FamV4 =>
      match parseIPv4Fields s true false 0 0 [] with
      | Some f => Some ((v4InV6Prefix ++ f)%list, 32, EmptyString)
      | None => None
      end
  | FamV6 =>
      match parseIPv6 s with
      | Some (a16, zone) => Some (a16, 128, zone)
      | None => None
      end
  | FamNone => None
  end.

(** [dtoi]: the decimal number at the start of [s], the number of bytes
    it takes, and whether there is one below [big]. *)
Definition big : Z := 16777215.

Fixpoint dtoiFrom (s : string) (n i : Z) : Z * Z * bool :=
  match s with
  | EmptyString => (n, i, negb (i =? 0))
  | String c rest =>
      if isDigit c then
        let n := n * 10 + (byteval c - 48) in
        if big <=? n then (big, i, false)
        else dtoiFrom rest n (i + 1)
      else (n, i, negb (i =? 0))
  end.

Definition dtoi (s : string) : Z * Z * bool := dtoiFrom s 0 0.

(** [strings.Cut(s, "/")]. *)
Fixpoint cutSlash (s : string) : option (string * string) :=
  match s with
  | EmptyString => None
  | String c rest =>
      if byteval c =? 47 then Some (EmptyString, rest)
      else match cutSlash rest with
           | Some (a, b) => Some (String c a, b)
           | None => None
           end
  end.

(** [net.ParseCIDR]. *)
Definition ParseCIDR (s : string) : option (IP * IPNet) :=
  match cutSlash s with
  | None => None
  | Some (addr, mask) =>
      match ParseAddr addr with
      | None => None
      | Some (addr16, bitLen, zone) =>
          if negb (String.eqb zone EmptyString) then None
          else
            let '(n, i, ok) := dtoi mask in
            if negb ok || negb (i =? Z.of_nat (String.length mask))
               || (n <? 0) || (bitLen <? n)
            then None
            else
              let m := CIDRMask n bitLen in
              match Mask addr16 m with
              | Some nip => Some (addr16, mkIPNet nip m)
              | None => None
              end
      end
  end.

End Text.

End GoNet.

(** ** The range deriver (bounded-range policy) *)

Module Range.
Import GoNet.

Definition minHost : Z := 100.
Definition maxHost : Z := 110.

(** The values [i] takes in [for i := minHost; i <= maxHost; i++]. *)
Definition hostNumbers : list Z :=
  map (fun k => minHost + Z.of_nat k)
      (seq 0 (Z.to_nat (maxHost + 1 - minHost))).

(** The conversion [byte(i)]. *)
Definition toByte (i : Z) : Z := i mod 256.

Section Deriver.

Variable ipv6String : IP -> string.
Variable parseIPv6 : string -> option (list Z * string).

(** [net.IPv4(baseIP[0], baseIP[1], baseIP[2], byte(i))]. *)
Definition candidate (baseIP : IP) (i : Z) : IP :=
  IPv4 (nth 0 baseIP 0) (nth 1 baseIP 0) (nth 2 baseIP 0) (toByte i).

(** One iteration of the loop over the host numbers. *)
Definition appendCandidate (ipnet : IPNet) (baseIP : IP)
    (ips : list string) (i : Z) : list string :=
  if Contains ipnet (candidate baseIP i)
  then ips ++ [IP_String ipv6String (candidate baseIP i)]
  else ips.

(** [ip.Mask(ipnet.Mask).To4()]; [To4] of a nil slice is nil. *)
Definition baseOf (ip : IP) (ipnet : IPNet) : option IP :=
  match Mask ip (netMask ipnet) with
  | Some masked => To4 masked
  | None => None
  end.

(** [getNetworkRange] after [net.ParseCIDR] has returned [ip] and
    [ipnet]. *)
Definition rangeOf (ip : IP) (ipnet : IPNet) : result (list string) :=
  match baseOf ip ipnet with
  | None => Err ErrNotIPv4
  | Some baseIP =>
      let ips := fold_left (appendCandidate ipnet baseIP) hostNumbers [] in
      match ips with
      | [] => Err ErrEmptyRange
      | _ => Ok ips
      end
  end.

(** [getNetworkRange] with the constants [minHost] and [maxHost]. *)
Definition getNetworkRange (cidr : string) : result (list string) :=
  match ParseCIDR parseIPv6 cidr with
  | None => Err ErrParseCIDR
  | Some (ip, ipnet) => rangeOf ip ipnet
  end.

End Deriver.

End Range.

(** ** The address enumerator *)

Module Enumerator.
Import GoStrings GoNet.

Record InterfaceInfo : Type := mkInterfaceInfo {
  Name : string;
  IP : string;
  CIDR : string
}.

(** A [net.Addr] value: an [*net.IPNet], or a value of another dynamic
    type (such as [*net.IPAddr]) for which the type assertion fails. *)
Inductive Addr : Type :=
| AddrIPNet (ipNet : IPNet)
| AddrOther.

(** A [net.Interface] with what [iface.Addrs()] answers; [None] is an
    error of that call. *)
Record Interface : Type := mkInterface {
  ifName : string;
  ifFlags : Z;
  ifAddrs : option (list Addr)
}.

Definition FlagUp : Z := 1.
Definition FlagLoopback : Z := 4.

Section Enumerate.

Variable ipv6String : GoNet.IP -> string.

Local Abbreviation IP_String := (GoNet.IP_String ipv6String).
Local Abbreviation IPNet_String := (GoNet.IPNet_String ipv6String).

(** The body of the loop over [addrs]: the entry appended for [addr],
    if any. *)
Definition entryOfAddr (name : string) (addr : Addr) : option InterfaceInfo :=
  match addr with
  | AddrIPNet ipNet =>
      match To4 (netIP ipNet) with
      | Some _ =>
          if HasPrefix (IP_String (netIP ipNet)) "169.254." then None
          else Some {| Name := name;
                       IP := IP_String (netIP ipNet);
                       CIDR := IPNet_String ipNet |}
      | None => None
      end
  | AddrOther => None
  end.

Definition appendAddr (name : string) (result : list InterfaceInfo)
    (addr : Addr) : list InterfaceInfo :=
  match entryOfAddr name addr with
  | Some e => result ++ [e]
  | None => result
  end.

(** The body of the loop over [interfaces]. *)
Definition appendInterface (result : list InterfaceInfo) (iface : Interface)
    : list InterfaceInfo :=
  if (Z.land (ifFlags iface) FlagUp =? 0)
     || negb (Z.land (ifFlags iface) FlagLoopback =? 0)
  then result
  else match ifAddrs iface with
       | None => result
       | Some addrs => fold_left (appendAddr (ifName iface)) addrs result
       end.

(** [getLocalInterfaces], given what [net.Interfaces()] answers
    ([None] for its error). *)
Definition getLocalInterfaces (sys : option (list Interface))
    : result (list InterfaceInfo) :=
  match sys with
  | None => Err ErrInterfaces
  | Some interfaces =>
      let result := fold_left appendInterface interfaces [] in
      match result with
      | [] => Err ErrNoIPv4
      | _ => Ok result
      end
  end.

(** The entries as the specification words them: for every interface
    that is up and not a loopback device, one entry for each reported
    IPv4 address outside 169.254.0.0/16. *)
Definition isUp (iface : Interface) : bool := Z.testbit (ifFlags iface) 0.
Definition isLoopback (iface : Interface) : bool := Z.testbit (ifFlags iface) 2.

Definition linkLocal (p4 : list Z) : bool :=
  (nth 0 p4 0 =? 169) && (nth 1 p4 0 =? 254).

Definition qualifying (addr : Addr) : bool :=
  match addr with
  | AddrIPNet ipNet =>
      match To4 (netIP ipNet) with
      | Some p4 => negb (linkLocal p4)
      | None => false
      end
  | AddrOther => false
  end.

Definition entryFor (name : string) (addr : Addr) : list InterfaceInfo :=
  match addr with
  | AddrIPNet ipNet =>
      [ {| Name := name;
           IP := IP_String (netIP ipNet);
           CIDR := IPNet_String ipNet |} ]
  | AddrOther => []
  end.

Definition reportedAddrs (iface : Interface) : list Addr :=
  match ifAddrs iface with
  | Some addrs => addrs
  | None => []
  end.

Definition specEntries (interfaces : list Interface) : list InterfaceInfo :=
  flat_map
    (fun iface =>
       if isUp iface && negb (isLoopback iface)
       then flat_map (entryFor (ifName iface))
                     (filter qualifying (reportedAddrs iface))
       else [])
    interfaces.

End Enumerate.

(** [selectInterface] of [main.go]: the first entry. *)
Definition selectInterface (interfaces : list InterfaceInfo)
    : result InterfaceInfo :=
  match interfaces with
  | first :: _ => Ok first
  | [] => Err ErrNoInterface
  end.

End Enumerator.

(** ** The discovery aggregator: [main] *)

Module Scan.
Import GoStrings.

Record Printer : Type := mkPrinter {
  IP : string;
  Name : string;
  ShareName : string;
  FullPath : string
}.

Definition backslash : string := String (ascii_of_nat 92) EmptyString.

(** [fmt.Sprintf] with the format of two backslashes, [ip], one
    backslash, [shareName]. *)
Definition fullPathOf (ip shareName : string) : string :=
  backslash ++ backslash ++ ip ++ backslash ++ shareName.

(** The value sent for one share name of host [ip]. *)
Definition printerOf (ip shareName : string) : Printer :=
  {| IP := ip;
     Name := shareName;
     ShareName := shareName;
     FullPath := fullPathOf ip shareName |}.

(** What one candidate host answers during a run: whether
    [net.DialTimeout] to port 445 succeeds, and the outcome of
    [net view]. *)
Record HostAnswer : Type := mkAnswer {
  dialOk : bool;
  view : CombinedOutput
}.

(** How the variable of a [for ... range] loop is allocated: one
    variable for each iteration (the language since Go 1.22), or one
    variable for the whole loop (before). *)
Inductive LoopVar : Type := PerIteration | PerLoop.

(** A goroutine started by [go func(ip string)]: before its probe,
    with the values it still has to send, or returned (its deferred
    [wg.Done()] has run). *)
Inductive Worker : Type :=
| Probing (ip : string) (ans : HostAnswer)
| Sending (items : list Printer)
| Returned.

(** The state of [main] while it drains the channel.  [chanBuf] is the
    buffer of [printers], oldest first, [chanCap] its capacity;
    [cells] are the variables the loop has declared for [printer],
    [target] is [targetPrinter] as an index into [cells] ([None] for
    nil); [arrived] lists the values received so far, in order (one
    line is printed for each); [drained] says the range loop is over. *)
Record State : Type := mkState {
  workers : list Worker;
  chanBuf : list Printer;
  chanCap : nat;
  chanClosed : bool;
  cells : list Printer;
  target : option nat;
  arrived : list Printer;
  drained : bool
}.

(** The external installer: what each command answers for a printer
    path. *)
Record Installer : Type := mkInstaller {
  getPrinterCount : string -> CombinedOutput;
  addPrinterFails : string -> bool;
  setDefaultFails : string -> bool;
  isDefaultCheck : string -> CombinedOutput
}.

(** The commands [main] runs after the scan. *)
Inductive Action : Type :=
| RunGetPrinter (path : string)
| RunAddPrinter (path : string)
| RunSetDefault (path : string)
| RunCheckDefault (path : string).

(** How [main] ends after the scan. *)
Inductive Outcome : Type :=
| NoPrintersFound
| ConnectFailed (e : error)
| SetDefaultFailed (e : error)
| DefaultSet (p : Printer).

Section Main.

Variable unicodeTrim : string -> string.
Variable unicodeTrimRight : string -> string.
Variable unicodeToLower : string -> string.

Local Abbreviation TrimSpace := (GoStrings.TrimSpace unicodeTrim unicodeTrimRight).
Local Abbreviation getShares :=
  (Shares.getShares unicodeTrim unicodeTrimRight unicodeToLower).

(** The body of the goroutine for [ip]: the values it sends, in
    order.  A failed dial or an error of [getShares] is an early
    return. *)
Definition hostItems (ip : string) (ans : HostAnswer) : list Printer :=
  if negb (dialOk ans) then []
  else match getShares (view ans) with
       | Err _ => []
       | Ok shareNames => map (printerOf ip) shareNames
       end.

(** The state after the loop [for _, ip := range ips] has started the
    goroutines: [make(chan Printer, len(ips))] is empty and
    [targetPrinter] is nil. *)
Definition initState (hosts : list (string * HostAnswer)) : State :=
  {| workers := map (fun '(ip, ans) => Probing ip ans) hosts;
     chanBuf := [];
     chanCap := List.length hosts;
     chanClosed := false;
     cells := [];
     target := None;
     arrived := [];
     drained := false |}.

Definition allReturned (ws : list Worker) : bool :=
  forallb (fun w => match w with Returned => true | _ => false end) ws.

(** The variable [printer] of an iteration that receives [p]: a new
    variable after those of the earlier iterations, or the one variable
    of the loop, overwritten. *)
Definition loopCells (sem : LoopVar) (p : Printer) (s : State) : list Printer :=
  match sem with
  | PerIteration => (cells s ++ [p])%list
  | PerLoop => [p]
  end.

(** The address [&printer] in that iteration. *)
Definition loopAddr (sem : LoopVar) (s : State) : nat :=
  match sem with
  | PerIteration => List.length (cells s)
  | PerLoop => O
  end.

(** One iteration of [for printer := range printers] on the received
    value [p]: the loop variable is set, and [targetPrinter] takes its
    address when it is nil. *)
Definition receive (sem : LoopVar) (p : Printer) (s : State) : State :=
  {| workers := workers s;
     chanBuf := tl (chanBuf s);
     chanCap := chanCap s;
     chanClosed := chanClosed s;
     cells := loopCells sem p s;
     target := match target s with
               | None => Some (loopAddr sem s)
               | Some a => Some a
               end;
     arrived := (arrived s ++ [p])%list;
     drained := drained s |}.

Definition withWorkers (s : State) (ws : list Worker) : State :=
  {| workers := ws;
     chanBuf := chanBuf s;
     chanCap := chanCap s;
     chanClosed := chanClosed s;
     cells := cells s;
     target := target s;
     arrived := arrived s;
     drained := drained s |}.

Definition withSend (s : State) (ws : list Worker) (p : Printer) : State :=
  {| workers := ws;
     chanBuf := (chanBuf s ++ [p])%list;
     chanCap := chanCap s;
     chanClosed := chanClosed s;
     cells := cells s;
     target := target s;
     arrived := arrived s;
     drained := drained s |}.

Definition withClosed (s : State) : State :=
  {| workers := workers s;
     chanBuf := chanBuf s;
     chanCap := chanCap s;
     chanClosed := true;
     cells := cells s;
     target := target s;
     arrived := arrived s;
     drained := drained s |}.

Definition withDrained (s : State) : State :=
  {| workers := workers s;
     chanBuf := chanBuf s;
     chanCap := chanCap s;
     chanClosed := chanClosed s;
     cells := cells s;
     target := target s;
     arrived := arrived s;
     drained := true |}.

(** One scheduling step of the goroutines of [main]:
    - a worker probes its host and learns what it will send;
    - a worker sends its next value when the buffer has room;
    - a worker with nothing left returns;
    - the goroutine of [wg.Wait(); close(printers)] closes the channel
      once every worker has returned;
    - [main] receives the oldest buffered value;
    - [main] leaves the loop when the channel is closed and empty. *)
Inductive step (sem : LoopVar) : State -> State -> Prop :=
| step_probe s w1 ip ans w2 :
    workers s = (w1 ++ Probing ip ans :: w2)%list ->
    step sem s (withWorkers s (w1 ++ Sending (hostItems ip ans) :: w2)%list)
| step_send s w1 p items w2 :
    workers s = (w1 ++ Sending (p :: items) :: w2)%list ->
    (List.length (chanBuf s) < chanCap s)%nat ->
    step sem s (withSend s (w1 ++ Sending items :: w2)%list p)
| step_return s w1 w2 :
    workers s = (w1 ++ Sending [] :: w2)%list ->
    step sem s (withWorkers s (w1 ++ Returned :: w2)%list)
| step_close s :
    allReturned (workers s) = true ->
    chanClosed s = false ->
    step sem s (withClosed s)
| step_receive s p rest :
    chanBuf s = p :: rest ->
    drained s = false ->
    step sem s (receive sem p s)
| step_leave s :
    chanBuf s = [] ->
    chanClosed s = true ->
    drained s = false ->
    step sem s (withDrained s).

(** Executions: any number of steps. *)
Inductive steps (sem : LoopVar) : State -> State -> Prop :=
| steps_refl s : steps sem s s
| steps_next s1 s2 s3 : steps sem s1 s2 -> step sem s2 s3 -> steps sem s1 s3.

(** A complete scan of [hosts]: an execution from the initial state to
    a state in which [main] has left the loop. *)
Definition scanned (sem : LoopVar) (hosts : list (string * HostAnswer))
    (s : State) : Prop :=
  steps sem (initState hosts) s /\ drained s = true.

(** [*targetPrinter] after the loop; [None] when the pointer is nil. *)
Definition targetPrinter (s : State) : option Printer :=
  match target s with
  | Some addr => nth_error (cells s) addr
  | None => None
  end.

(** [isPrinterConnected]. *)
Definition isPrinterConnected (inst : Installer) (printerName : string) : bool :=
  let r := getPrinterCount inst printerName in
  if failed r then false
  else String.eqb (TrimSpace (output r)) "1".

(** [connectPrinter]: the commands run and the error, if any. *)
Definition connectPrinter (inst : Installer) (printer : Printer)
    : list Action * option error :=
  if isPrinterConnected inst (FullPath printer)
  then ([RunGetPrinter (FullPath printer)], None)
  else if addPrinterFails inst (FullPath printer)
       then ([RunGetPrinter (FullPath printer);
              RunAddPrinter (FullPath printer)], Some ErrAddPrinter)
       else ([RunGetPrinter (FullPath printer);
              RunAddPrinter (FullPath printer)], None).

(** [setDefaultPrinter]. *)
Definition setDefaultPrinter (inst : Installer) (printer : Printer)
    : list Action * option error :=
  if setDefaultFails inst (FullPath printer)
  then ([RunSetDefault (FullPath printer)], Some ErrSetDefault)
  else
    let r := isDefaultCheck inst (FullPath printer) in
    if failed r || negb (Contains (output r) "True")
    then ([RunSetDefault (FullPath printer);
           RunCheckDefault (FullPath printer)], Some ErrVerifyDefault)
    else ([RunSetDefault (FullPath printer);
           RunCheckDefault (FullPath printer)], None).

(** The end of [main], from the test [targetPrinter == nil] on. *)
Definition finish (inst : Installer) (s : State) : list Action * Outcome :=
  match targetPrinter s with
  | None => ([], NoPrintersFound)
  | Some printer =>
      match connectPrinter inst printer with
      | (acts, Some e) => (acts, ConnectFailed e)
      | (acts, None) =>
          match setDefaultPrinter inst printer with
          | (acts', Some e) => ((acts ++ acts')%list, SetDefaultFailed e)
          | (acts', None) => ((acts ++ acts')%list, DefaultSet printer)
          end
      end
  end.

End Main.

(** Interleavings: [Merge ls m] says that [m] is made of the elements of
    the lists [ls], each list keeping its order. *)
Inductive Merge {A : Type} : list (list A) -> list A -> Prop :=
| Merge_done ls : Forall (fun l => l = []) ls -> Merge ls []
| Merge_pick l1 x xs l2 m :
    Merge (l1 ++ xs :: l2)%list m ->
    Merge (l1 ++ (x :: xs) :: l2)%list (x :: m).

(** Equality of two names up to the case of ASCII letters. *)
Fixpoint equalFoldASCII (s t : string) : bool :=
  match s, t with
  | EmptyString, EmptyString => true
  | String a s', String b t' =>
      Ascii.eqb (lowerByte a) (lowerByte b) && equalFoldASCII s' t'
  | _, _ => false
  end.

End Scan.

(** * Properties *)

(** ** Strings *)

Module StringFacts.
Import GoStrings.

Lemma byteval_range (c : ascii) : 0 <= byteval c < 256.
Proof.
  unfold byteval. pose proof (N_ascii_bounded c) as H. lia.
Qed.

Lemma Index_lower_bound (s sep : string) : -1 <= Index s sep.
Proof.
  unfold Index. destruct (indexNat s sep); lia.
Qed.

Lemma indexNat_at_prefix (s sep : string) :
  String.prefix sep s = true -> indexNat s sep = Some O.
Proof.
  intros H. destruct s; cbn [indexNat]; rewrite H; reflexivity.
Qed.

Lemma indexNat_zero (s sep : string) :
  indexNat s sep = Some O -> String.prefix sep s = true.
Proof.
  destruct s as [|c s]; cbn [indexNat].
  - destruct (String.prefix sep EmptyString); [reflexivity | discriminate].
  - destruct (String.prefix sep (String c s)); [reflexivity |].
    destruct (indexNat s sep); simpl; discriminate.
Qed.

(** The marker is found at offset 0 exactly when the string starts with
    it. *)
Lemma Index_zero_iff (s sep : string) :
  Index s sep = 0 <-> HasPrefix s sep = true.
Proof.
  unfold Index, HasPrefix. split.
  - intros H. destruct (indexNat s sep) as [n|] eqn:E; [| lia].
    destruct n; [| lia]. apply indexNat_zero. exact E.
  - intros H. rewrite (indexNat_at_prefix _ _ H). reflexivity.
Qed.

Lemma take_append (pre post : string) :
  take (String.length pre) (pre ++ post) = pre.
Proof.
  induction pre as [|c pre IH]; simpl.
  - destruct post; reflexivity.
  - rewrite IH. reflexivity.
Qed.

Lemma prefix_split (sep s : string) :
  String.prefix sep s = true -> exists post, s = sep ++ post.
Proof.
  revert s. induction sep as [|a sep IH]; intros s H.
  - exists s. reflexivity.
  - destruct s as [|b s]; simpl in H; [discriminate |].
    destruct (ascii_dec a b) as [->|]; [| discriminate].
    destruct (IH s H) as [post ->]. exists post. reflexivity.
Qed.

(** [strings.Index] finds an occurrence: the line is the text before
    it, the separator, and the rest. *)
Lemma indexNat_split (s sep : string) (n : nat) :
  indexNat s sep = Some n ->
  exists pre post, s = pre ++ sep ++ post
                   /\ String.length pre = n /\ take n s = pre.
Proof.
  revert n. induction s as [|c s IH]; intros n H; cbn [indexNat] in H.
  - destruct (String.prefix sep EmptyString) eqn:E; [| discriminate].
    inversion H; subst. destruct (prefix_split _ _ E) as [post Hp].
    exists EmptyString, post. simpl. auto.
  - destruct (String.prefix sep (String c s)) eqn:E.
    + inversion H; subst. destruct (prefix_split _ _ E) as [post Hp].
      exists EmptyString, post. simpl. auto.
    + destruct (indexNat s sep) as [k|] eqn:Ek; simpl in H; [| discriminate].
      inversion H; subst.
      destruct (IH k eq_refl) as (pre & post & Hs & Hl & Ht).
      exists (String c pre), post. simpl. rewrite Ht, Hl.
      split; [rewrite Hs; reflexivity | auto].
Qed.

(** No occurrence starts before the one [strings.Index] reports. *)
Lemma indexNat_first (s sep : string) (n : nat) :
  indexNat s sep = Some n ->
  forall pre post, s = pre ++ sep ++ post -> (n <= String.length pre)%nat.
Proof.
  revert n. induction s as [|c s IH]; intros n H pre post Hs; cbn [indexNat] in H.
  - destruct (String.prefix sep EmptyString); [| discriminate].
    inversion H. lia.
  - destruct (String.prefix sep (String c s)) eqn:E.
    + inversion H. lia.
    + destruct (indexNat s sep) as [k|] eqn:Ek; simpl in H; [| discriminate].
      inversion H; subst.
      destruct pre as [|a pre].
      * simpl in Hs. exfalso.
        assert (String.prefix sep (sep ++ post) = true) as Hp.
        { clear. induction sep as [|a sep IH]; simpl.
          - destruct post; reflexivity.
          - destruct (ascii_dec a a); [exact IH | congruence]. }
        rewrite <- Hs in Hp. congruence.
      * simpl in Hs. inversion Hs; subst.
        specialize (IH k eq_refl pre post eq_refl). simpl. lia.
Qed.

Lemma lowerByte_ascii (c : ascii) :
  (byteval (lowerByte c) <? RuneSelf) = true -> (byteval c <? RuneSelf) = true.
Proof.
  destruct c as [[] [] [] [] [] [] [] []]; vm_compute; congruence.
Qed.

End StringFacts.

(** ** The share extractor *)

Module ShareFacts.
Import GoStrings Shares StringFacts.

(** A line of [net view] output for a share named HPPrinter. *)
Definition hpLine : string :=
  "HPPrinter            Print      Shared printer".

(** A line for a share whose name has the administrative token inside
    a longer name. *)
Definition ipcInsideLine : string :=
  "MyIPC$Queue          Print      Shared printer".

Definition identity (s : string) : string := s.

Section Facts.

Variable unicodeTrim : string -> string.
Variable unicodeTrimRight : string -> string.
Variable unicodeToLower : string -> string.
Variable unicodeFields : string -> list string.

Local Abbreviation TrimSpace := (GoStrings.TrimSpace unicodeTrim unicodeTrimRight).
Local Abbreviation ToLower := (GoStrings.ToLower unicodeToLower).
Local Abbreviation shareOfLine :=
  (Shares.shareOfLine unicodeTrim unicodeTrimRight unicodeToLower).
Local Abbreviation appendShare :=
  (Shares.appendShare unicodeTrim unicodeTrimRight unicodeToLower).
Local Abbreviation parseShares :=
  (Shares.parseShares unicodeTrim unicodeTrimRight unicodeToLower).
Local Abbreviation getShares :=
  (Shares.getShares unicodeTrim unicodeTrimRight unicodeToLower).
Local Abbreviation shareOfLineFields :=
  (Shares.shareOfLineFields unicodeToLower unicodeFields).

(** The name a line yields is the trimmed text before the first
    occurrence of the marker, which is not at the start of the line. *)
Lemma shareOfLine_name (line shareName : string) :
  shareOfLine line = Some shareName ->
  0 < Index line "Print"
  /\ shareName = TrimSpace (sliceTo line (Index line "Print"))
  /\ shareName <> EmptyString
  /\ Contains (ToLower shareName) "ipc$" = false.
Proof.
  unfold Shares.shareOfLine. intros H.
  destruct (Contains line "Print"); [| discriminate].
  destruct (0 <? Index line "Print") eqn:E; [| discriminate].
  apply Z.ltb_lt in E.
  destruct (String.eqb _ EmptyString) eqn:Ee; simpl in H; [discriminate |].
  destruct (Contains (ToLower _) "ipc$") eqn:Ec; simpl in H; [discriminate |].
  inversion H; subst. repeat split; auto.
  intros Hn. rewrite Hn in Ee. rewrite String.eqb_refl in Ee. discriminate.
Qed.

(** The text before the marker: the line is that text, the marker and a
    remainder, and the marker does not occur earlier. *)
Lemma text_before_marker (line : string) :
  0 <= Index line "Print" ->
  exists post,
    line = sliceTo line (Index line "Print") ++ "Print" ++ post
    /\ forall pre' post', line = pre' ++ "Print" ++ post' ->
         Index line "Print" <= Z.of_nat (String.length pre').
Proof.
  unfold Index, sliceTo. intros H.
  destruct (indexNat line "Print") as [n|] eqn:E; [| lia].
  destruct (indexNat_split _ _ _ E) as (pre & post & Hs & Hl & Ht).
  exists post. rewrite Nat2Z.id, Ht. split; [exact Hs |].
  intros pre' post' Hs'. pose proof (indexNat_first _ _ _ E _ _ Hs'). lia.
Qed.

Lemma fold_appendShare_app (lines : list string) (acc : list string) :
  fold_left appendShare lines acc = (acc ++ fold_left appendShare lines [])%list.
Proof.
  revert acc. induction lines as [|l lines IH]; intros acc; simpl.
  - rewrite app_nil_r. reflexivity.
  - rewrite IH. rewrite (IH (Shares.appendShare _ _ _ [] l)).
    unfold Shares.appendShare. destruct (shareOfLine l); simpl.
    + rewrite <- app_assoc. reflexivity.
    + reflexivity.
Qed.

(** Every name in the result of the scan was yielded by a line. *)
Lemma fold_appendShare_In (lines : list string) (name : string) :
  In name (fold_left appendShare lines []) ->
  exists line, In line lines /\ shareOfLine line = Some name.
Proof.
  induction lines as [|l lines IH]; simpl; intros H; [contradiction |].
  rewrite fold_appendShare_app in H. apply in_app_or in H.
  destruct H as [H | H].
  - unfold Shares.appendShare in H.
    destruct (shareOfLine l) as [n|] eqn:E; simpl in H; [| contradiction].
    destruct H as [-> | []]. exists l. auto.
  - destruct (IH H) as (line & Hin & Hl). exists line. auto.
Qed.

Lemma parseShares_In (out name : string) :
  In name (parseShares out) ->
  exists line, In line (scanLines out) /\ shareOfLine line = Some name.
Proof.
  apply fold_appendShare_In.
Qed.

Lemma getShares_In (cmd : CombinedOutput) (names : list string) (name : string) :
  getShares cmd = Ok names -> In name names ->
  exists line, shareOfLine line = Some name.
Proof.
  unfold Shares.getShares. intros H Hin.
  destruct (failed cmd); [discriminate |].
  destruct (parseShares (output cmd)) as [|n ns] eqn:E; [discriminate |].
  inversion H; subst. rewrite <- E in Hin.
  destruct (parseShares_In _ _ Hin) as (line & _ & Hl). exists line. exact Hl.
Qed.

(** [getShares] fails exactly when the command fails or the scan finds
    no share; otherwise it returns what the scan found. *)
Lemma getShares_cases (cmd : CombinedOutput) :
  (getShares cmd = Err ErrNetView /\ failed cmd = true)
  \/ (getShares cmd = Err ErrNoShares /\ failed cmd = false
      /\ parseShares (output cmd) = [])
  \/ (getShares cmd = Ok (parseShares (output cmd)) /\ failed cmd = false
      /\ parseShares (output cmd) <> []).
Proof.
  unfold Shares.getShares. destruct (failed cmd); [left; auto |].
  destruct (parseShares (output cmd)) eqn:E.
  - right; left; auto.
  - right; right. repeat split; auto. discriminate.
Qed.

(** A name equal to ipc$ up to the case of its letters is made of ASCII
    bytes, and its lower-case form is ipc$. *)
Lemma equalFold_ipc_ToLower (name : string) :
  Scan.equalFoldASCII name "ipc$" = true -> ToLower name = "ipc$".
Proof.
  intros H.
  destruct name as [|a [|b [|c [|d [|e name]]]]]; simpl in H;
    rewrite ?andb_false_r in H; try discriminate.
  repeat (apply andb_prop in H; destruct H as [?H H]).
  repeat match goal with
         | Hx : Ascii.eqb _ _ = true |- _ => apply Ascii.eqb_eq in Hx
         end.
  assert (forall x y, lowerByte x = lowerByte y ->
                      (byteval (lowerByte y) <? RuneSelf) = true ->
                      (byteval x <? RuneSelf) = true) as Hl.
  { intros x y Hxy Hy. apply lowerByte_ascii. rewrite Hxy. exact Hy. }
  unfold GoStrings.ToLower. cbn [isASCII].
  rewrite (Hl a _ H0 eq_refl), (Hl b _ H1 eq_refl),
          (Hl c _ H2 eq_refl), (Hl d _ H3 eq_refl).
  cbn [andb mapBytes]. rewrite H0, H1, H2, H3. reflexivity.
Qed.

Lemma kept_not_ipc (line name : string) :
  shareOfLine line = Some name -> Scan.equalFoldASCII name "ipc$" = false.
Proof.
  intros H. destruct (shareOfLine_name _ _ H) as (_ & _ & _ & Hc).
  destruct (Scan.equalFoldASCII name "ipc$") eqn:E; [| reflexivity].
  rewrite (equalFold_ipc_ToLower _ E) in Hc. vm_compute in Hc. discriminate.
Qed.

(** C2 (evaluation of the code).  On the line for the share HPPrinter
    the first occurrence of the marker "Print" is inside the name, at
    offset 2: [getShares] of [main.go] yields the single name HP, not
    HPPrinter.  The loop body that takes the first field of the line
    yields HPPrinter. *)
Theorem hp_line_yields_HP :
  Index hpLine "Print" = 2
  /\ shareOfLine hpLine = Some "HP"
  /\ getShares (mkOutput hpLine false) = Ok ["HP"]
  /\ shareOfLineFields hpLine = Some "HPPrinter".
Proof.
  repeat split; reflexivity.
Qed.

(** C3 (amended).  For a line whose first marker is not at its start,
    with [name] the trimmed text before the marker: the line yields no
    share exactly when [name] is empty or the lower-case form of [name]
    contains ipc$; otherwise it yields [name]; and a name that equals
    ipc$ up to letter case is among the excluded ones. *)
Theorem share_excluded_iff (line : string) :
  0 < Index line "Print" ->
  let name := TrimSpace (sliceTo line (Index line "Print")) in
  (shareOfLine line = None <->
     name = EmptyString \/ Contains (ToLower name) "ipc$" = true)
  /\ (shareOfLine line = None \/ shareOfLine line = Some name)
  /\ (Scan.equalFoldASCII name "ipc$" = true -> shareOfLine line = None).
Proof.
  intros Hpos name.
  assert (shareOfLine line =
          if negb (String.eqb name EmptyString)
             && negb (Contains (ToLower name) "ipc$")
          then Some name else None) as Hdef.
  { unfold Shares.shareOfLine, Contains.
    assert ((0 <=? Index line "Print") = true) as -> by (apply Z.leb_le; lia).
    assert ((0 <? Index line "Print") = true) as -> by (apply Z.ltb_lt; lia).
    reflexivity. }
  assert (shareOfLine line = None <->
          name = EmptyString \/ Contains (ToLower name) "ipc$" = true) as Hiff.
  { rewrite Hdef.
    destruct (String.eqb name EmptyString) eqn:Ee;
      destruct (Contains (ToLower name) "ipc$") eqn:Ec; simpl.
    - split; auto.
    - apply String.eqb_eq in Ee. split; auto.
    - split; auto.
    - apply String.eqb_neq in Ee.
      split; [discriminate | intros [H | H]; [contradiction | discriminate]]. }
  split; [exact Hiff |]. split.
  - rewrite Hdef. destruct (negb _ && negb _); auto.
  - intros Heq. apply Hiff. right.
    rewrite (equalFold_ipc_ToLower _ Heq). reflexivity.
Qed.

(** C9.  A line whose first marker is at offset 0 contains the marker
    and yields no share: the scan leaves [shares] as it was. *)
Theorem marker_at_start_yields_nothing (line : string) (shares : list string) :
  Index line "Print" = 0 ->
  Contains line "Print" = true
  /\ shareOfLine line = None
  /\ appendShare shares line = shares.
Proof.
  intros H.
  assert (shareOfLine line = None) as Hn.
  { unfold Shares.shareOfLine. rewrite H.
    destruct (Contains line "Print"); reflexivity. }
  split; [unfold Contains; rewrite H; reflexivity |].
  split; [exact Hn |].
  unfold Shares.appendShare. rewrite Hn. reflexivity.
Qed.

End Facts.

(** C3 (the claim as stated fails).  The name MyIPC$Queue is not empty
    and is not ipc$ in any letter case, yet its line yields no share. *)
Lemma ipc_inside_name_is_excluded :
  exists line name,
    0 < Index line "Print"
    /\ name <> EmptyString
    /\ Scan.equalFoldASCII name "ipc$" = false
    /\ forall t r l,
         GoStrings.TrimSpace t r (sliceTo line (Index line "Print")) = name
         /\ Shares.shareOfLine t r l line = None.
Proof.
  exists ipcInsideLine, "MyIPC$Queue".
  repeat split; try reflexivity. discriminate.
Qed.

Lemma share_excluded_iff_witness :
  0 < Index ipcInsideLine "Print"
  /\ (Shares.shareOfLine identity identity identity ipcInsideLine = None
      \/ Shares.shareOfLine identity identity identity ipcInsideLine
         = Some "MyIPC$Queue").
Proof.
  split; [reflexivity |].
  exact (proj1 (proj2
    (share_excluded_iff identity identity identity ipcInsideLine eq_refl))).
Defined.

Lemma marker_at_start_witness :
  Index "Print      Shared printer" "Print" = 0
  /\ Shares.shareOfLine identity identity identity
       "Print      Shared printer" = None.
Proof.
  split; [reflexivity |].
  exact (proj1 (proj2 (marker_at_start_yields_nothing identity identity
                         identity "Print      Shared printer" [] eq_refl))).
Defined.

End ShareFacts.

(** ** The range deriver *)

Module RangeFacts.
Import GoNet Range.

Definition noIPv6Text (ip : GoNet.IP) : string := EmptyString.
Definition noIPv6Parser (s : string) : option (list Z * string) := None.

Lemma hostNumbers_eq :
  hostNumbers = [100; 101; 102; 103; 104; 105; 106; 107; 108; 109; 110].
Proof. reflexivity. Qed.

Lemma In_hostNumbers (i : Z) : In i hostNumbers <-> minHost <= i <= maxHost.
Proof.
  rewrite hostNumbers_eq. unfold minHost, maxHost. simpl. split.
  - intros H. repeat (destruct H as [<- | H]; [lia |]). contradiction.
  - intros H.
    assert (i = 100 \/ i = 101 \/ i = 102 \/ i = 103 \/ i = 104 \/ i = 105
            \/ i = 106 \/ i = 107 \/ i = 108 \/ i = 109 \/ i = 110) as Hc by lia.
    intuition auto.
Qed.

Lemma toByte_hostNumber (i : Z) : minHost <= i <= maxHost -> toByte i = i.
Proof.
  unfold minHost, maxHost, toByte. intros H. apply Z.mod_small. lia.
Qed.

Lemma To4_IPv4 (a b c d : Z) : To4 (IPv4 a b c d) = Some [a; b; c; d].
Proof. reflexivity. Qed.

Section Facts.

Variable ipv6String : GoNet.IP -> string.
Variable parseIPv6 : string -> option (list Z * string).

Local Abbreviation IP_String := (GoNet.IP_String ipv6String).
Local Abbreviation appendCandidate := (Range.appendCandidate ipv6String).
Local Abbreviation rangeOf := (Range.rangeOf ipv6String).
Local Abbreviation getNetworkRange := (Range.getNetworkRange ipv6String parseIPv6).
Local Abbreviation ParseCIDR := (GoNet.ParseCIDR parseIPv6).

(** The text of a candidate is the dotted form of the first three
    octets of the base address and the host number. *)
Lemma IP_String_candidate (baseIP : GoNet.IP) (i : Z) :
  IP_String (candidate baseIP i)
  = dotted [nth 0 baseIP 0; nth 1 baseIP 0; nth 2 baseIP 0; toByte i].
Proof. reflexivity. Qed.

(** The loop keeps, in the order of the host numbers, the text of each
    candidate the block contains. *)
Lemma fold_appendCandidate (ipnet : IPNet) (baseIP : GoNet.IP)
    (l : list Z) (acc : list string) :
  fold_left (appendCandidate ipnet baseIP) l acc
  = (acc ++ map IP_String
              (filter (Contains ipnet) (map (candidate baseIP) l)))%list.
Proof.
  revert acc. induction l as [|i l IH]; intros acc; simpl.
  - rewrite app_nil_r. reflexivity.
  - rewrite IH. unfold Range.appendCandidate.
    destruct (Contains ipnet (candidate baseIP i)); simpl.
    + rewrite <- app_assoc. reflexivity.
    + reflexivity.
Qed.

Definition contained (ipnet : IPNet) (baseIP : GoNet.IP) : list GoNet.IP :=
  filter (Contains ipnet) (map (candidate baseIP) hostNumbers).

Lemma rangeOf_cases (ip : GoNet.IP) (ipnet : IPNet) :
  match baseOf ip ipnet with
  | None => rangeOf ip ipnet = Err ErrNotIPv4
  | Some baseIP =>
      match contained ipnet baseIP with
      | [] => rangeOf ip ipnet = Err ErrEmptyRange
      | cs => rangeOf ip ipnet = Ok (map IP_String cs)
      end
  end.
Proof.
  unfold Range.rangeOf. destruct (baseOf ip ipnet) as [baseIP|]; [| reflexivity].
  rewrite fold_appendCandidate. simpl app. fold (contained ipnet baseIP).
  destruct (contained ipnet baseIP); reflexivity.
Qed.

Lemma contained_nil (ipnet : IPNet) (baseIP : GoNet.IP) :
  contained ipnet baseIP = [] <->
  forall i, minHost <= i <= maxHost -> Contains ipnet (candidate baseIP i) = false.
Proof.
  unfold contained. split.
  - intros H i Hi. apply In_hostNumbers in Hi.
    destruct (Contains ipnet (candidate baseIP i)) eqn:E; [| reflexivity].
    assert (In (candidate baseIP i)
               (filter (Contains ipnet) (map (candidate baseIP) hostNumbers))) as Hin.
    { apply filter_In. split; [apply in_map; exact Hi | exact E]. }
    rewrite H in Hin. contradiction.
  - intros H.
    destruct (filter (Contains ipnet) (map (candidate baseIP) hostNumbers))
      as [|c cs] eqn:E; [reflexivity |].
    assert (In c (c :: cs)) as Hin by (left; reflexivity).
    rewrite <- E in Hin. apply filter_In in Hin. destruct Hin as [Hin Hc].
    apply in_map_iff in Hin. destruct Hin as (i & <- & Hi).
    apply In_hostNumbers in Hi. rewrite (H i Hi) in Hc. discriminate.
Qed.

(** [rangeOf] reports the empty range exactly when the base address has
    a 4-byte form and the block contains no candidate. *)
Lemma rangeOf_empty_iff (ip : GoNet.IP) (ipnet : IPNet) :
  rangeOf ip ipnet = Err ErrEmptyRange <->
  exists baseIP,
    baseOf ip ipnet = Some baseIP
    /\ forall i, minHost <= i <= maxHost ->
         Contains ipnet (candidate baseIP i) = false.
Proof.
  pose proof (rangeOf_cases ip ipnet) as Hc. split.
  - intros H. destruct (baseOf ip ipnet) as [baseIP|]; [| congruence].
    exists baseIP. split; [reflexivity |]. apply contained_nil.
    destruct (contained ipnet baseIP); [reflexivity | congruence].
  - intros (baseIP & Hb & Hall). rewrite Hb in Hc.
    apply contained_nil in Hall. rewrite Hall in Hc. exact Hc.
Qed.

(** The empty range is met: the upper half of a /25 has no host number
    from 100 to 110. *)
Lemma upper_half_is_empty_range :
  getNetworkRange "192.168.0.200/25" = Err ErrEmptyRange.
Proof. reflexivity. Qed.

(** C4.  For the block 192.168.0.0/24 [getNetworkRange] returns the
    eleven addresses 192.168.0.100 to 192.168.0.110 in ascending order,
    and the block contains each of the candidates; for any block text,
    the empty-range error is returned exactly when the text parses, the
    masked base address has a 4-byte form and no host number from
    [minHost] to [maxHost] gives a candidate the block contains. *)
Theorem bounded_range_of_192_168_0 :
  getNetworkRange "192.168.0.0/24"
  = Ok ["192.168.0.100"; "192.168.0.101"; "192.168.0.102"; "192.168.0.103";
        "192.168.0.104"; "192.168.0.105"; "192.168.0.106"; "192.168.0.107";
        "192.168.0.108"; "192.168.0.109"; "192.168.0.110"]
  /\ (exists ip ipnet baseIP,
        ParseCIDR "192.168.0.0/24" = Some (ip, ipnet)
        /\ baseOf ip ipnet = Some baseIP
        /\ forall i, minHost <= i <= maxHost ->
             Contains ipnet (candidate baseIP i) = true)
  /\ (forall cidr,
        getNetworkRange cidr = Err ErrEmptyRange <->
        exists ip ipnet baseIP,
          ParseCIDR cidr = Some (ip, ipnet)
          /\ baseOf ip ipnet = Some baseIP
          /\ forall i, minHost <= i <= maxHost ->
               Contains ipnet (candidate baseIP i) = false).
Proof.
  split; [reflexivity |]. split.
  - exists (IPv4 192 168 0 0), (mkIPNet [192; 168; 0; 0] [255; 255; 255; 0]),
           [192; 168; 0; 0].
    split; [reflexivity |]. split; [reflexivity |].
    intros i Hi. apply In_hostNumbers in Hi. rewrite hostNumbers_eq in Hi.
    simpl in Hi. repeat (destruct Hi as [<- | Hi]; [reflexivity |]).
    contradiction.
  - intros cidr. unfold Range.getNetworkRange.
    destruct (ParseCIDR cidr) as [[ip ipnet]|] eqn:E.
    + rewrite rangeOf_empty_iff. split.
      * intros (baseIP & Hb & Hall). exists ip, ipnet, baseIP. auto.
      * intros (ip' & ipnet' & baseIP & Hp & Hb & Hall).
        inversion Hp; subst. exists baseIP. auto.
    + split; [discriminate |].
      intros (ip' & ipnet' & baseIP & Hp & _). discriminate.
Qed.

(** C10.  Every address [rangeOf] returns is the dotted text of the
    first three octets of the masked base address followed by a host
    number from [minHost] to [maxHost], and there are at most eleven of
    them, whatever the width of the block. *)
Theorem candidates_stay_in_base_24 (ip : GoNet.IP) (ipnet : IPNet)
    (baseIP : GoNet.IP) (ips : list string) :
  baseOf ip ipnet = Some baseIP ->
  rangeOf ip ipnet = Ok ips ->
  Forall (fun s => exists i, minHost <= i <= maxHost
                     /\ s = dotted [nth 0 baseIP 0; nth 1 baseIP 0;
                                    nth 2 baseIP 0; i]) ips
  /\ (List.length ips <= 11)%nat.
Proof.
  intros Hb Hr. pose proof (rangeOf_cases ip ipnet) as Hc. rewrite Hb in Hc.
  assert (ips = map IP_String (contained ipnet baseIP)) as ->.
  { destruct (contained ipnet baseIP); congruence. }
  clear Hc Hr. unfold contained. split.
  - apply Forall_forall. intros s Hs. apply in_map_iff in Hs.
    destruct Hs as (c & <- & Hc). apply filter_In in Hc. destruct Hc as [Hc _].
    apply in_map_iff in Hc. destruct Hc as (i & <- & Hi).
    apply In_hostNumbers in Hi. exists i. split; [exact Hi |].
    rewrite IP_String_candidate, (toByte_hostNumber i Hi). reflexivity.
  - rewrite length_map.
    etransitivity; [apply filter_length_le |]. rewrite length_map. reflexivity.
Qed.

End Facts.

Lemma candidates_stay_in_base_24_witness :
  Range.getNetworkRange noIPv6Text noIPv6Parser "10.20.30.40/16"
  = Ok ["10.20.0.100"; "10.20.0.101"; "10.20.0.102"; "10.20.0.103";
        "10.20.0.104"; "10.20.0.105"; "10.20.0.106"; "10.20.0.107";
        "10.20.0.108"; "10.20.0.109"; "10.20.0.110"]
  /\ Forall (fun s => exists i, minHost <= i <= maxHost
                       /\ s = dotted [10; 20; 0; i])
       ["10.20.0.100"; "10.20.0.101"; "10.20.0.102"; "10.20.0.103";
        "10.20.0.104"; "10.20.0.105"; "10.20.0.106"; "10.20.0.107";
        "10.20.0.108"; "10.20.0.109"; "10.20.0.110"].
Proof.
  split; [reflexivity |].
  exact (proj1 (candidates_stay_in_base_24 noIPv6Text
                  (IPv4 10 20 30 40)
                  (mkIPNet [10; 20; 0; 0] [255; 255; 0; 0])
                  [10; 20; 0; 0] _ eq_refl eq_refl)).
Defined.

End RangeFacts.

(** ** The address enumerator *)

Module EnumeratorFacts.
Import GoStrings GoNet Enumerator.

(** Whether [p] is a prefix of every string that starts with [a]:
    [Some b] when [a] alone settles it. *)
Fixpoint settledPrefix (p a : string) : option bool :=
  match p, a with
  | EmptyString, _ => Some true
  | String _ _, EmptyString => None
  | String x p', String y a' =>
      if Ascii.eqb x y then settledPrefix p' a' else Some false
  end.

Lemma settledPrefix_sound (p a : string) (b : bool) :
  settledPrefix p a = Some b -> forall t, String.prefix p (a ++ t) = b.
Proof.
  revert a. induction p as [|x p IH]; intros a H t; simpl in H.
  - inversion H. destruct (a ++ t); reflexivity.
  - destruct a as [|y a]; [discriminate |]. simpl.
    destruct (Ascii.eqb x y) eqn:E.
    + apply Ascii.eqb_eq in E. subst y.
      destruct (ascii_dec x x); [| congruence]. apply IH. exact H.
    + apply Ascii.eqb_neq in E.
      destruct (ascii_dec x y); [contradiction |]. inversion H. reflexivity.
Qed.

Definition byteValues : list Z := map Z.of_nat (seq 0 256).

Lemma In_byteValues (b : Z) : 0 <= b < 256 -> In b byteValues.
Proof.
  intros H. unfold byteValues. apply in_map_iff. exists (Z.to_nat b).
  split; [lia |]. apply in_seq. lia.
Qed.

(** The first two octets, as printed, settle the test for the prefix
    169.254. *)
Definition linkLocalSettled (x y : Z) : bool :=
  match settledPrefix "169.254." (uitoa x ++ "." ++ uitoa y ++ ".") with
  | Some b => Bool.eqb b ((x =? 169) && (y =? 254))
  | None => false
  end.

Lemma linkLocalSettled_all :
  forallb (fun x => forallb (linkLocalSettled x) byteValues) byteValues = true.
Proof. vm_compute. reflexivity. Qed.

Lemma append_assoc (a b c : string) : ((a ++ b) ++ c = a ++ (b ++ c))%string.
Proof.
  induction a as [|x a IH]; simpl; [reflexivity | rewrite IH; reflexivity].
Qed.

(** For octets in range, the dotted text starts with 169.254. exactly
    when the first two octets are 169 and 254. *)
Lemma HasPrefix_dotted (p4 : list Z) :
  0 <= nth 0 p4 0 < 256 -> 0 <= nth 1 p4 0 < 256 ->
  HasPrefix (dotted p4) "169.254." = linkLocal p4.
Proof.
  intros H0 H1. unfold HasPrefix, dotted, linkLocal.
  pose proof linkLocalSettled_all as Hall.
  rewrite forallb_forall in Hall.
  specialize (Hall _ (In_byteValues _ H0)).
  rewrite forallb_forall in Hall.
  specialize (Hall _ (In_byteValues _ H1)).
  unfold linkLocalSettled in Hall.
  destruct (settledPrefix "169.254." _) as [b|] eqn:E; [| discriminate].
  apply Bool.eqb_prop in Hall. subst b.
  rewrite <- (settledPrefix_sound _ _ _ E
                (uitoa (nth 2 p4 0) ++ "." ++ uitoa (nth 3 p4 0))).
  f_equal. rewrite !append_assoc. reflexivity.
Qed.

Lemma land_FlagUp (f : Z) : (Z.land f FlagUp =? 0) = negb (Z.testbit f 0).
Proof.
  unfold FlagUp. change 1 with (Z.ones 1). rewrite Z.land_ones by lia.
  change (2 ^ 1) with 2. rewrite <- Z.bit0_mod.
  destruct (Z.testbit f 0); reflexivity.
Qed.

Lemma land_FlagLoopback (f : Z) :
  (Z.land f FlagLoopback =? 0) = negb (Z.testbit f 2).
Proof.
  unfold FlagLoopback.
  destruct (Z.testbit f 2) eqn:E.
  - apply Z.eqb_neq. intros H.
    assert (Z.testbit (Z.land f 4) 2 = true) as Ht.
    { rewrite Z.land_spec, E. reflexivity. }
    rewrite H in Ht. rewrite Z.bits_0 in Ht. discriminate.
  - apply Z.eqb_eq. apply Z.bits_inj'. intros n Hn.
    rewrite Z.land_spec, Z.bits_0.
    destruct (Z.eq_dec n 2) as [-> | Hne].
    + rewrite E. reflexivity.
    + change 4 with (2 ^ 2). rewrite Z.pow2_bits_false by lia.
      apply andb_false_r.
Qed.

(** The octets of every reported address network are bytes. *)
Definition bytesOk (p : list Z) : bool :=
  forallb (fun b => (0 <=? b) && (b <? 256)) p.

Definition addrOk (addr : Addr) : bool :=
  match addr with
  | AddrIPNet ipNet => bytesOk (netIP ipNet)
  | AddrOther => true
  end.

Definition interfaceOk (iface : Interface) : bool :=
  forallb addrOk (reportedAddrs iface).

Lemma bytesOk_nth (p : list Z) (k : nat) :
  bytesOk p = true -> 0 <= nth k p 0 < 256.
Proof.
  unfold bytesOk. intros H. rewrite forallb_forall in H.
  destruct (Nat.lt_ge_cases k (List.length p)) as [Hk | Hk].
  - specialize (H _ (nth_In p 0 Hk)). lia.
  - rewrite nth_overflow by exact Hk. lia.
Qed.

Lemma bytesOk_skipn (p : list Z) (k : nat) :
  bytesOk p = true -> bytesOk (skipn k p) = true.
Proof.
  unfold bytesOk. intros H. rewrite forallb_forall in *.
  intros x Hx. apply H.
  rewrite <- (firstn_skipn k p). apply in_or_app. right. exact Hx.
Qed.

Lemma To4_bytesOk (ip p4 : GoNet.IP) :
  bytesOk ip = true -> To4 ip = Some p4 -> bytesOk p4 = true.
Proof.
  unfold To4. intros H Ht.
  destruct (List.length ip =? IPv4len)%nat.
  - inversion Ht; subst. exact H.
  - destruct (_ && _ && _ && _); [| discriminate].
    inversion Ht; subst. exact (bytesOk_skipn ip 12 H).
Qed.

Lemma To4_nonempty (ip p4 : GoNet.IP) :
  To4 ip = Some p4 ->
  ip <> []
  /\ (negb (List.length ip =? IPv4len)%nat
      && negb (List.length ip =? IPv6len)%nat) = false.
Proof.
  unfold To4. intros Ht.
  destruct (List.length ip =? IPv4len)%nat eqn:E4.
  - split; [| reflexivity]. intros ->. discriminate.
  - destruct (List.length ip =? IPv6len)%nat eqn:E6; simpl in Ht;
      [| discriminate].
    split; [| reflexivity]. intros ->. discriminate.
Qed.

Section Facts.

Variable ipv6String : GoNet.IP -> string.

Local Abbreviation IP_String := (GoNet.IP_String ipv6String).
Local Abbreviation entryOfAddr := (Enumerator.entryOfAddr ipv6String).
Local Abbreviation appendAddr := (Enumerator.appendAddr ipv6String).
Local Abbreviation appendInterface := (Enumerator.appendInterface ipv6String).
Local Abbreviation getLocalInterfaces := (Enumerator.getLocalInterfaces ipv6String).
Local Abbreviation entryFor := (Enumerator.entryFor ipv6String).
Local Abbreviation specEntries := (Enumerator.specEntries ipv6String).

Lemma IP_String_To4 (ip p4 : GoNet.IP) :
  To4 ip = Some p4 -> IP_String ip = dotted p4.
Proof.
  intros Ht. destruct (To4_nonempty _ _ Ht) as [Hne Hlen].
  unfold GoNet.IP_String. destruct ip as [|b ip]; [congruence |].
  rewrite Hlen, Ht. reflexivity.
Qed.

(** The loop body appends the entry of an address exactly when the
    address qualifies. *)
Lemma entryOfAddr_spec (name : string) (addr : Addr) :
  addrOk addr = true ->
  match entryOfAddr name addr with
  | Some e => qualifying addr = true /\ entryFor name addr = [e]
  | None => qualifying addr = false
  end.
Proof.
  intros Hok. destruct addr as [ipNet|]; [| reflexivity].
  unfold Enumerator.entryOfAddr, qualifying, Enumerator.entryFor.
  unfold addrOk in Hok.
  destruct (To4 (netIP ipNet)) as [p4|] eqn:Et; [| reflexivity].
  pose proof (To4_bytesOk _ _ Hok Et) as Hp4.
  rewrite (IP_String_To4 _ _ Et).
  rewrite (HasPrefix_dotted p4 (bytesOk_nth _ 0 Hp4) (bytesOk_nth _ 1 Hp4)).
  destruct (linkLocal p4); auto.
Qed.

Lemma fold_appendAddr (name : string) (addrs : list Addr)
    (acc : list InterfaceInfo) :
  forallb addrOk addrs = true ->
  fold_left (appendAddr name) addrs acc
  = (acc ++ flat_map (entryFor name) (filter qualifying addrs))%list.
Proof.
  revert acc. induction addrs as [|a addrs IH]; intros acc Hok; simpl.
  - rewrite app_nil_r. reflexivity.
  - simpl in Hok. apply andb_prop in Hok. destruct Hok as [Ha Hok].
    rewrite (IH _ Hok). unfold Enumerator.appendAddr.
    pose proof (entryOfAddr_spec name a Ha) as Hs.
    destruct (entryOfAddr name a) as [e|].
    + destruct Hs as [Hq He]. rewrite Hq. simpl. rewrite He.
      rewrite <- app_assoc. reflexivity.
    + rewrite Hs. reflexivity.
Qed.

Lemma fold_appendInterface (interfaces : list Interface)
    (acc : list InterfaceInfo) :
  forallb interfaceOk interfaces = true ->
  fold_left appendInterface interfaces acc
  = (acc ++ specEntries interfaces)%list.
Proof.
  revert acc. induction interfaces as [|i interfaces IH]; intros acc Hok.
  - simpl. rewrite app_nil_r. reflexivity.
  - cbn [forallb] in Hok. apply andb_prop in Hok. destruct Hok as [Hi Hok].
    cbn [fold_left]. rewrite (IH _ Hok).
    change (specEntries (i :: interfaces))
      with ((if isUp i && negb (isLoopback i)
             then flat_map (entryFor (ifName i))
                           (filter qualifying (reportedAddrs i))
             else []) ++ specEntries interfaces)%list.
    unfold Enumerator.appendInterface.
    rewrite land_FlagUp, land_FlagLoopback. unfold isUp, isLoopback.
    destruct (Z.testbit (ifFlags i) 0); destruct (Z.testbit (ifFlags i) 2);
      cbn [negb orb andb app]; try reflexivity.
    unfold interfaceOk, reportedAddrs in *.
    destruct (ifAddrs i) as [addrs|].
    + rewrite (fold_appendAddr _ _ _ Hi). rewrite <- app_assoc. reflexivity.
    + reflexivity.
Qed.

(** C5.  When [net.Interfaces] answers, [getLocalInterfaces] returns
    one entry for each reported IPv4 address outside 169.254.0.0/16 of
    every interface that is up and not a loopback device, in order, and
    it returns the error for no usable address exactly when there is no
    such entry. *)
Theorem getLocalInterfaces_entries (interfaces : list Interface) :
  forallb interfaceOk interfaces = true ->
  (specEntries interfaces <> [] ->
   getLocalInterfaces (Some interfaces) = Ok (specEntries interfaces))
  /\ (getLocalInterfaces (Some interfaces) = Err ErrNoIPv4 <->
      specEntries interfaces = []).
Proof.
  intros Hok. unfold Enumerator.getLocalInterfaces.
  rewrite (fold_appendInterface _ _ Hok). simpl app.
  destruct (specEntries interfaces) as [|e es]; split.
  - intros H. congruence.
  - split; reflexivity.
  - reflexivity.
  - split; discriminate.
Qed.

End Facts.

(** Two interfaces: a loopback device, and an Ethernet device that is up
    with two usable addresses, a link-local one and a non-IP address. *)
Definition sampleInterfaces : list Interface :=
  [ mkInterface "lo" 5 (Some [AddrIPNet (mkIPNet [127; 0; 0; 1] [255; 0; 0; 0])]);
    mkInterface "eth0" 19
      (Some [AddrIPNet (mkIPNet (IPv4 192 168 0 7) [255; 255; 255; 0]);
             AddrIPNet (mkIPNet [169; 254; 3; 4] [255; 255; 0; 0]);
             AddrOther;
             AddrIPNet (mkIPNet [10; 0; 0; 7] [255; 0; 0; 0])]) ].

Lemma getLocalInterfaces_entries_witness :
  forallb interfaceOk sampleInterfaces = true
  /\ Enumerator.getLocalInterfaces RangeFacts.noIPv6Text (Some sampleInterfaces)
     = Ok [ {| Name := "eth0"; IP := "192.168.0.7"; CIDR := "192.168.0.7/24" |};
            {| Name := "eth0"; IP := "10.0.0.7"; CIDR := "10.0.0.7/8" |} ].
Proof.
  split; [reflexivity |].
  exact (proj1 (getLocalInterfaces_entries RangeFacts.noIPv6Text
                  sampleInterfaces eq_refl)
               ltac:(discriminate)).
Defined.

End EnumeratorFacts.

(** ** The aggregator *)

Module ScanFacts.
Import GoStrings Scan.

(** A scheduler that can be run: the moves name the goroutine that
    takes the next step. *)
Inductive Move : Type :=
| DoProbe (i : nat)
| DoSend (i : nat)
| DoReturn (i : nat)
| DoClose
| DoReceive
| DoLeave.

Fixpoint splitAt {A : Type} (i : nat) (l : list A) {struct l}
    : option (list A * A * list A) :=
  match l, i with
  | [], _ => None
  | x :: l', O => Some ([], x, l')
  | x :: l', S i' =>
      match splitAt i' l' with
      | Some (a, y, b) => Some (x :: a, y, b)
      | None => None
      end
  end.

Lemma splitAt_app {A : Type} (i : nat) (l a b : list A) (y : A) :
  splitAt i l = Some (a, y, b) -> l = (a ++ y :: b)%list.
Proof.
  revert i a y b. induction l as [|x l IH]; intros i a y b H; simpl in H.
  - discriminate.
  - destruct i as [|i].
    + inversion H; subst. reflexivity.
    + destruct (splitAt i l) as [[[a' y'] b']|] eqn:E; [| discriminate].
      inversion H; subst. rewrite (IH _ _ _ _ E). reflexivity.
Qed.

(** Items of a merge come from the merged lists. *)
Lemma Merge_In {A : Type} (ls : list (list A)) (m : list A) :
  Merge ls m -> forall x, In x m -> exists l, In l ls /\ In x l.
Proof.
  induction 1 as [ls Hall | l1 y ys l2 m Hm IH]; intros x Hx.
  - contradiction.
  - destruct Hx as [<- | Hx].
    + exists (y :: ys). split; [apply in_elt | left; reflexivity].
    + destruct (IH x Hx) as (l & Hl & Hxl).
      apply in_app_or in Hl. destruct Hl as [Hl | [<- | Hl]].
      * exists l. split; [apply in_or_app; left; exact Hl | exact Hxl].
      * exists (y :: ys). split; [apply in_elt | right; exact Hxl].
      * exists l. split; [apply in_or_app; right; right; exact Hl | exact Hxl].
Qed.

(** The first item of a merge is the first item of one of the lists. *)
Lemma Merge_head {A : Type} (ls : list (list A)) (x : A) (m : list A) :
  Merge ls (x :: m) -> exists l, In (x :: l) ls.
Proof.
  intros H. inversion H; subst. exists xs. apply in_elt.
Qed.

Lemma Merge_nil_inv {A : Type} (ls : list (list A)) :
  Merge ls [] -> Forall (fun l => l = []) ls.
Proof.
  intros H. inversion H; subst. assumption.
Qed.

Lemma app_cons_split {A : Type} (l1 l2 k1 k2 : list A) (a b : A) :
  (l1 ++ a :: l2 = k1 ++ b :: k2)%list ->
  (l1 = k1 /\ a = b /\ l2 = k2)
  \/ (exists mid, k1 = (l1 ++ a :: mid)%list /\ l2 = (mid ++ b :: k2)%list)
  \/ (exists mid, l1 = (k1 ++ b :: mid)%list /\ k2 = (mid ++ a :: l2)%list).
Proof.
  revert k1. induction l1 as [|x l1 IH]; intros k1 H.
  - destruct k1 as [|y k1]; simpl in H; inversion H; subst.
    + left. auto.
    + right; left. exists k1. auto.
  - destruct k1 as [|y k1]; simpl in H; inversion H; subst.
    + right; right. exists l1. auto.
    + destruct (IH k1 H2) as [(-> & -> & ->) | [(mid & -> & ->) | (mid & -> & ->)]].
      * left. auto.
      * right; left. exists mid. auto.
      * right; right. exists mid. auto.
Qed.

(** A list that contributes nothing can be left out of a merge. *)
Lemma Merge_without_nil {A : Type} (ls : list (list A)) (m : list A) :
  Merge ls m ->
  forall l1 l2, ls = (l1 ++ [] :: l2)%list -> Merge (l1 ++ l2) m.
Proof.
  induction 1 as [ls Hall | k1 y ys k2 m Hm IH]; intros l1 l2 Heq.
  - apply Merge_done. subst ls. apply Forall_app in Hall.
    destruct Hall as [H1 H2]. inversion H2; subst.
    apply Forall_app. auto.
  - symmetry in Heq. apply app_cons_split in Heq.
    destruct Heq as [(_ & Hc & _) | [(mid & -> & ->) | (mid & -> & ->)]].
    + discriminate.
    + rewrite app_assoc. apply Merge_pick. rewrite <- app_assoc.
      apply (IH l1 (mid ++ ys :: k2)%list).
      rewrite <- app_assoc. reflexivity.
    + rewrite <- app_assoc. cbn [app]. apply Merge_pick.
      specialize (IH (k1 ++ ys :: mid)%list l2).
      rewrite <- !app_assoc in IH. cbn [app] in IH. apply IH. reflexivity.
Qed.

Lemma allReturned_app (a b : list Worker) :
  allReturned (a ++ b) = allReturned a && allReturned b.
Proof. apply forallb_app. Qed.

Lemma allReturned_busy (w1 w2 : list Worker) (w : Worker) :
  w <> Returned -> allReturned (w1 ++ w :: w2) = false.
Proof.
  intros H. rewrite allReturned_app. simpl.
  destruct w; [| | congruence]; simpl; apply andb_false_r.
Qed.

Lemma not_allReturned (ws : list Worker) :
  allReturned ws = false ->
  exists w1 w w2, ws = (w1 ++ w :: w2)%list /\ w <> Returned.
Proof.
  induction ws as [|w ws IH]; simpl; intros H; [discriminate |].
  destruct w as [ip ans | items |].
  - exists [], (Probing ip ans), ws. split; [reflexivity | discriminate].
  - exists [], (Sending items), ws. split; [reflexivity | discriminate].
  - destruct (IH H) as (w1 & w & w2 & -> & Hw).
    exists (Returned :: w1), w, w2. auto.
Qed.

Section Facts.

Variable unicodeTrim : string -> string.
Variable unicodeTrimRight : string -> string.
Variable unicodeToLower : string -> string.

Local Abbreviation getShares :=
  (Shares.getShares unicodeTrim unicodeTrimRight unicodeToLower).
Local Abbreviation parseShares :=
  (Shares.parseShares unicodeTrim unicodeTrimRight unicodeToLower).
Local Abbreviation hostItems :=
  (Scan.hostItems unicodeTrim unicodeTrimRight unicodeToLower).
Local Abbreviation step := (Scan.step unicodeTrim unicodeTrimRight unicodeToLower).
Local Abbreviation steps := (Scan.steps unicodeTrim unicodeTrimRight unicodeToLower).
Local Abbreviation scanned :=
  (Scan.scanned unicodeTrim unicodeTrimRight unicodeToLower).
Local Abbreviation finish := (Scan.finish unicodeTrim unicodeTrimRight).

(** What a host contributes to the scan. *)
Definition itemsOf (host : string * HostAnswer) : list Printer :=
  hostItems (fst host) (snd host).

(** What a worker has still to send. *)
Definition pending (w : Worker) : list Printer :=
  match w with
  | Probing ip ans => hostItems ip ans
  | Sending items => items
  | Returned => []
  end.

(** One move of the scheduler, when it is enabled. *)
Definition move (sem : LoopVar) (m : Move) (s : State) : option State :=
  match m with
  | DoProbe i =>
      match splitAt i (workers s) with
      | Some (w1, Probing ip ans, w2) =>
          Some (withWorkers s (w1 ++ Sending (hostItems ip ans) :: w2)%list)
      | _ => None
      end
  | DoSend i =>
      match splitAt i (workers s) with
      | Some (w1, Sending (p :: items), w2) =>
          if (List.length (chanBuf s) <? chanCap s)%nat
          then Some (withSend s (w1 ++ Sending items :: w2)%list p)
          else None
      | _ => None
      end
  | DoReturn i =>
      match splitAt i (workers s) with
      | Some (w1, Sending [], w2) =>
          Some (withWorkers s (w1 ++ Returned :: w2)%list)
      | _ => None
      end
  | DoClose =>
      if allReturned (workers s) && negb (chanClosed s)
      then Some (withClosed s) else None
  | DoReceive =>
      match chanBuf s with
      | p :: _ => if drained s then None else Some (receive sem p s)
      | [] => None
      end
  | DoLeave =>
      match chanBuf s with
      | [] => if chanClosed s && negb (drained s)
              then Some (withDrained s) else None
      | _ :: _ => None
      end
  end.

Fixpoint run (sem : LoopVar) (ms : list Move) (s : State) : option State :=
  match ms with
  | [] => Some s
  | m :: ms' =>
      match move sem m s with
      | Some s' => run sem ms' s'
      | None => None
      end
  end.

Lemma move_step (sem : LoopVar) (m : Move) (s s' : State) :
  move sem m s = Some s' -> step sem s s'.
Proof.
  destruct m as [i | i | i | | |]; simpl; intros H.
  - destruct (splitAt i (workers s)) as [[[w1 w] w2]|] eqn:E; [| discriminate].
    destruct w as [ip ans | items |]; try discriminate.
    inversion H; subst. apply step_probe. apply (splitAt_app _ _ _ _ _ E).
  - destruct (splitAt i (workers s)) as [[[w1 w] w2]|] eqn:E; [| discriminate].
    destruct w as [ip ans | [|p items] |]; try discriminate.
    destruct (List.length (chanBuf s) <? chanCap s)%nat eqn:El; [| discriminate].
    inversion H; subst. apply step_send.
    + apply (splitAt_app _ _ _ _ _ E).
    + apply Nat.ltb_lt in El. exact El.
  - destruct (splitAt i (workers s)) as [[[w1 w] w2]|] eqn:E; [| discriminate].
    destruct w as [ip ans | [|p items] |]; try discriminate.
    inversion H; subst. apply step_return. apply (splitAt_app _ _ _ _ _ E).
  - destruct (allReturned (workers s)) eqn:Ea; [| discriminate].
    destruct (chanClosed s) eqn:Ec; [discriminate |].
    inversion H; subst. apply step_close; assumption.
  - destruct (chanBuf s) as [|p rest] eqn:Eb; [discriminate |].
    destruct (drained s) eqn:Ed; [discriminate |].
    inversion H; subst. apply (step_receive _ _ _ _ _ _ rest); assumption.
  - destruct (chanBuf s) as [|p rest] eqn:Eb; [| discriminate].
    destruct (chanClosed s) eqn:Ec; [| discriminate].
    destruct (drained s) eqn:Ed; [discriminate |].
    inversion H; subst. apply step_leave; assumption.
Qed.

Lemma steps_first (sem : LoopVar) (s1 s2 s3 : State) :
  step sem s1 s2 -> steps sem s2 s3 -> steps sem s1 s3.
Proof.
  intros H12 H23. induction H23 as [s | s2 s3 s4 H23 IH H34].
  - eapply steps_next; [apply steps_refl | exact H12].
  - eapply steps_next; [apply IH; exact H12 | exact H34].
Qed.

Lemma run_steps (sem : LoopVar) (ms : list Move) (s s' : State) :
  run sem ms s = Some s' -> steps sem s s'.
Proof.
  revert s. induction ms as [|m ms IH]; simpl; intros s H.
  - inversion H; subst. apply steps_refl.
  - destruct (move sem m s) as [s1|] eqn:E; [| discriminate].
    eapply steps_first; [exact (move_step _ _ _ _ E) | apply IH; exact H].
Qed.

(** *** Invariants of the executions *)

(** A property of the initial state that every step keeps holds in
    every state an execution reaches. *)
Lemma steps_invariant (sem : LoopVar) (P : State -> Prop) (s0 : State) :
  P s0 ->
  (forall s s', step sem s s' -> P s -> P s') ->
  forall s, steps sem s0 s -> P s.
Proof.
  intros H0 Hstep s Hs.
  induction Hs as [s | s1 s2 s3 H12 IH H23]; [exact H0 |].
  apply (Hstep _ _ H23). apply IH. exact H0.
Qed.

(** The capacity is the number of workers, the channel is closed only
    after every worker has returned, and [main] leaves the loop only
    when the channel is closed and empty. *)
Definition wellFormed (s : State) : Prop :=
  chanCap s = List.length (workers s)
  /\ (chanClosed s = true -> allReturned (workers s) = true)
  /\ (drained s = true -> chanClosed s = true /\ chanBuf s = []).

Lemma wellFormed_init (hosts : list (string * HostAnswer)) :
  wellFormed (Scan.initState hosts).
Proof.
  unfold wellFormed. simpl. rewrite length_map.
  repeat split; discriminate.
Qed.

Lemma wellFormed_step (sem : LoopVar) (s s' : State) :
  step sem s s' -> wellFormed s -> wellFormed s'.
Proof.
  unfold wellFormed.
  intros Hs (Hcap & Hclosed & Hdrained).
  assert (forall w1 w w2, workers s = (w1 ++ w :: w2)%list -> w <> Returned ->
                          chanClosed s = false /\ drained s = false) as Hbusy.
  { intros w1 w w2 Hw Hne.
    assert (chanClosed s = false) as Hc.
    { destruct (chanClosed s); [| reflexivity].
      specialize (Hclosed eq_refl). rewrite Hw in Hclosed.
      rewrite allReturned_busy in Hclosed by exact Hne. discriminate. }
    split; [exact Hc |].
    destruct (drained s); [| reflexivity].
    destruct (Hdrained eq_refl) as [Hc' _]. congruence. }
  inversion Hs; subst; simpl;
    try (match goal with
         | Hw : workers s = _ |- _ =>
             destruct (Hbusy _ _ _ Hw ltac:(discriminate)) as [Hc Hd];
             rewrite Hcap, Hw, !length_app; simpl;
             repeat split; intros; congruence
         end).
  - split; [exact Hcap |]. split; [auto |].
    intros Hd. destruct (Hdrained Hd) as [_ Hb]. auto.
  - split; [exact Hcap |]. split; [exact Hclosed |]. intros Hd. congruence.
  - split; [exact Hcap |]. split; [exact Hclosed |]. auto.
Qed.

Lemma wellFormed_steps (sem : LoopVar) (s s' : State) :
  steps sem s s' -> wellFormed s -> wellFormed s'.
Proof.
  intros Hs Hw. revert s' Hs.
  apply steps_invariant; [exact Hw | apply wellFormed_step].
Qed.

(** The values received and buffered so far, followed by any
    interleaving of what the workers have still to send, interleave the
    contributions of the hosts. *)
Definition interleaves (hosts : list (string * HostAnswer)) (s : State) : Prop :=
  forall m, Merge (map pending (workers s)) m ->
            Merge (map itemsOf hosts) (arrived s ++ chanBuf s ++ m)%list.

Lemma interleaves_init (hosts : list (string * HostAnswer)) :
  interleaves hosts (Scan.initState hosts).
Proof.
  unfold interleaves. simpl. intros m Hm.
  rewrite map_map in Hm.
  erewrite map_ext; [exact Hm |]. intros [ip ans]. reflexivity.
Qed.

Lemma interleaves_step (sem : LoopVar) (hosts : list (string * HostAnswer))
    (s s' : State) :
  step sem s s' -> interleaves hosts s -> interleaves hosts s'.
Proof.
  unfold interleaves. intros Hs Hinv.
  inversion Hs; subst; simpl; intros m Hm.
  - apply Hinv. rewrite H, map_app in *. exact Hm.
  - rewrite <- app_assoc. simpl. apply Hinv.
    rewrite H, map_app. simpl. apply Merge_pick.
    rewrite map_app in Hm. exact Hm.
  - apply Hinv. rewrite H, map_app in *. exact Hm.
  - apply Hinv. exact Hm.
  - rewrite H. simpl. rewrite <- app_assoc. simpl.
    specialize (Hinv m Hm). rewrite H in Hinv. exact Hinv.
  - apply Hinv. exact Hm.
Qed.

Lemma interleaves_steps (sem : LoopVar) (hosts : list (string * HostAnswer))
    (s : State) :
  steps sem (Scan.initState hosts) s -> interleaves hosts s.
Proof.
  apply steps_invariant;
    [apply interleaves_init | intros ? ?; apply interleaves_step].
Qed.

Lemma allReturned_pending (ws : list Worker) :
  allReturned ws = true -> Forall (fun l => l = []) (map pending ws).
Proof.
  induction ws as [|w ws IH]; simpl; intros H; [constructor |].
  apply andb_prop in H. destruct H as [Hw Hws].
  constructor; [| apply IH; exact Hws].
  destruct w; [discriminate | discriminate | reflexivity].
Qed.

(** When the scan is complete, the arrival order is an interleaving of
    the contributions of the hosts: nothing is lost, nothing is added,
    and every host's values arrive in the order it sent them. *)
Lemma scanned_arrivals (sem : LoopVar) (hosts : list (string * HostAnswer))
    (s : State) :
  scanned sem hosts s -> Merge (map itemsOf hosts) (arrived s).
Proof.
  intros [Hsteps Hd].
  pose proof (wellFormed_steps _ _ _ Hsteps (wellFormed_init hosts))
    as (_ & Hclosed & Hdrained).
  destruct (Hdrained Hd) as [Hc Hb].
  pose proof (interleaves_steps _ _ _ Hsteps [] ) as Hi.
  rewrite Hb in Hi. simpl in Hi. rewrite app_nil_r in Hi.
  apply Hi. apply Merge_done. apply allReturned_pending. apply Hclosed. exact Hc.
Qed.

(** *** What a host contributes *)

(** A value sent for a host carries the address of that host, a path
    made of that address and its share name, and a share name that the
    extractor kept. *)
Lemma hostItems_In (ip : string) (ans : HostAnswer) (p : Printer) :
  In p (hostItems ip ans) ->
  p = printerOf ip (ShareName p)
  /\ dialOk ans = true
  /\ failed (view ans) = false
  /\ In (ShareName p) (parseShares (output (view ans))).
Proof.
  unfold Scan.hostItems. intros H.
  destruct (dialOk ans); simpl in H; [| contradiction].
  destruct (ShareFacts.getShares_cases unicodeTrim unicodeTrimRight
              unicodeToLower (view ans))
    as [[Hg _] | [[Hg _] | (Hg & Hf & _)]]; rewrite Hg in H; try contradiction.
  apply in_map_iff in H. destruct H as (name & <- & Hin). auto.
Qed.

(** A soft failure of a host: the dial fails, the command fails, or
    the scan of its output finds no share. *)
Definition softFailure (ans : HostAnswer) : Prop :=
  dialOk ans = false
  \/ failed (view ans) = true
  \/ parseShares (output (view ans)) = [].

Lemma hostItems_softFailure (ip : string) (ans : HostAnswer) :
  softFailure ans -> hostItems ip ans = [].
Proof.
  unfold softFailure, Scan.hostItems, Shares.getShares.
  intros [H | [H | H]].
  - rewrite H. reflexivity.
  - rewrite H. destruct (dialOk ans); reflexivity.
  - rewrite H. destruct (dialOk ans); [| reflexivity].
    destruct (failed (view ans)); reflexivity.
Qed.

Lemma hostItems_nil (ip : string) (ans : HostAnswer) :
  hostItems ip ans = [] -> softFailure ans.
Proof.
  unfold softFailure, Scan.hostItems. intros H.
  destruct (dialOk ans); simpl in H; [| left; reflexivity].
  right.
  destruct (ShareFacts.getShares_cases unicodeTrim unicodeTrimRight
              unicodeToLower (view ans))
    as [[Hg Hf] | [(Hg & Hf & Hp) | (Hg & Hf & Hp)]]; auto.
  rewrite Hg in H. apply map_eq_nil in H. contradiction.
Qed.

(** *** Where the values of an execution come from *)

Definition fromHost (hosts : list (string * HostAnswer)) (p : Printer) : Prop :=
  exists ans, In (IP p, ans) hosts /\ In p (hostItems (IP p) ans).

Definition workerFrom (hosts : list (string * HostAnswer)) (w : Worker) : Prop :=
  match w with
  | Probing ip ans => In (ip, ans) hosts
  | Sending items => Forall (fromHost hosts) items
  | Returned => True
  end.

Definition allFromHosts (hosts : list (string * HostAnswer)) (s : State) : Prop :=
  Forall (fromHost hosts) (arrived s)
  /\ Forall (fromHost hosts) (chanBuf s)
  /\ Forall (workerFrom hosts) (workers s).

Lemma allFromHosts_init (hosts : list (string * HostAnswer)) :
  allFromHosts hosts (Scan.initState hosts).
Proof.
  unfold allFromHosts. simpl. repeat split; try constructor.
  apply Forall_forall. intros w Hw. apply in_map_iff in Hw.
  destruct Hw as ([ip ans] & <- & Hin). exact Hin.
Qed.

Lemma allFromHosts_step (sem : LoopVar) (hosts : list (string * HostAnswer))
    (s s' : State) :
  step sem s s' -> allFromHosts hosts s -> allFromHosts hosts s'.
Proof.
  unfold allFromHosts. intros Hs (Ha & Hb & Hw).
  inversion Hs; subst; simpl.
  - rewrite H in Hw. apply Forall_app in Hw. destruct Hw as [H1 H2].
    inversion H2; subst.
    repeat split; auto. apply Forall_app. split; [exact H1 |].
    constructor; [| assumption].
    simpl. apply Forall_forall. intros p Hp.
    destruct (hostItems_In _ _ _ Hp) as (Heq & _).
    assert (IP p = ip) as Hip by (rewrite Heq; reflexivity).
    exists ans. rewrite Hip. auto.
  - rewrite H in Hw. apply Forall_app in Hw. destruct Hw as [H1 H2].
    inversion H2 as [| ? ? Hsend H2']; subst. simpl in Hsend.
    inversion Hsend; subst.
    repeat split; auto.
    + apply Forall_app. split; [exact Hb | constructor; [assumption | constructor]].
    + apply Forall_app. split; [exact H1 |]. constructor; assumption.
  - rewrite H in Hw. apply Forall_app in Hw. destruct Hw as [H1 H2].
    inversion H2; subst.
    repeat split; auto. apply Forall_app. split; [exact H1 |].
    constructor; [exact I | assumption].
  - repeat split; assumption.
  - rewrite H in *. inversion Hb; subst. simpl.
    repeat split; auto. apply Forall_app. split; [exact Ha |].
    constructor; [assumption | constructor].
  - repeat split; assumption.
Qed.

Lemma allFromHosts_steps (sem : LoopVar) (hosts : list (string * HostAnswer))
    (s : State) :
  steps sem (Scan.initState hosts) s -> allFromHosts hosts s.
Proof.
  apply steps_invariant;
    [apply allFromHosts_init | intros ? ?; apply allFromHosts_step].
Qed.

(** *** The loop variable and [targetPrinter] *)

(** With one variable for each iteration the variables hold the values
    received, in order, and [targetPrinter] points to the first. *)
Definition firstKept (s : State) : Prop :=
  cells s = arrived s
  /\ target s = match arrived s with [] => None | _ :: _ => Some O end.

Lemma firstKept_step (s s' : State) :
  step PerIteration s s' -> firstKept s -> firstKept s'.
Proof.
  unfold firstKept. intros Hs [Hc Ht].
  inversion Hs; subst; simpl; auto.
  unfold loopCells, loopAddr. rewrite Hc, Ht. split; [reflexivity |].
  destruct (arrived s); reflexivity.
Qed.

Lemma firstKept_steps (hosts : list (string * HostAnswer)) (s : State) :
  steps PerIteration (Scan.initState hosts) s -> firstKept s.
Proof.
  apply steps_invariant; [split; reflexivity | apply firstKept_step].
Qed.

(** With one variable for the whole loop the variable holds the value
    received last, and [targetPrinter] points to that variable. *)
Definition lastKept (s : State) : Prop :=
  (arrived s = [] /\ target s = None)
  \/ (exists l p, arrived s = (l ++ [p])%list
                  /\ cells s = [p] /\ target s = Some O).

Lemma lastKept_step (s s' : State) :
  step PerLoop s s' -> lastKept s -> lastKept s'.
Proof.
  unfold lastKept. intros Hs Hk.
  inversion Hs; subst; simpl; auto.
  right. exists (arrived s), p. split; [reflexivity |]. split; [reflexivity |].
  destruct Hk as [[_ Ht] | (l & q & _ & _ & Ht)]; rewrite Ht; reflexivity.
Qed.

Lemma lastKept_steps (hosts : list (string * HostAnswer)) (s : State) :
  steps PerLoop (Scan.initState hosts) s -> lastKept s.
Proof.
  apply steps_invariant; [left; split; reflexivity | apply lastKept_step].
Qed.

(** Under the older allocation of the loop variable the printer
    selected is the one that arrived last. *)
Lemma per_loop_selects_last (hosts : list (string * HostAnswer)) (s : State)
    (l : list Printer) (p : Printer) :
  steps PerLoop (Scan.initState hosts) s ->
  arrived s = (l ++ [p])%list -> targetPrinter s = Some p.
Proof.
  intros Hs Ha. destruct (lastKept_steps _ _ Hs) as [[Hn _] | (l' & q & Hq & Hc & Ht)].
  - rewrite Hn in Ha. destruct l; discriminate.
  - rewrite Hq in Ha. apply app_inj_tail in Ha. destruct Ha as [_ ->].
    unfold targetPrinter. rewrite Ht, Hc. reflexivity.
Qed.

(** With one variable for each iteration: when the first value to
    arrive is the share LaserJet of host [b], the path of the selected
    printer is that of LaserJet on [b]. *)
Lemma first_arrival_LaserJet (hosts : list (string * HostAnswer)) (s : State)
    (b : string) (rest : list Printer) :
  steps PerIteration (Scan.initState hosts) s ->
  arrived s = printerOf b "LaserJet" :: rest ->
  option_map FullPath (targetPrinter s)
  = Some (backslash ++ backslash ++ b ++ backslash ++ "LaserJet")%string.
Proof.
  intros Hs Ha. destruct (firstKept_steps _ _ Hs) as [Hc Ht].
  unfold targetPrinter. rewrite Ht, Hc, Ha. reflexivity.
Qed.

(** [targetPrinter] is nil exactly when nothing has arrived. *)
Lemma target_nil_iff (sem : LoopVar) (hosts : list (string * HostAnswer))
    (s : State) :
  steps sem (Scan.initState hosts) s ->
  (targetPrinter s = None <-> arrived s = []).
Proof.
  intros Hs. destruct sem.
  - destruct (firstKept_steps _ _ Hs) as [Hc Ht].
    unfold targetPrinter. rewrite Ht, Hc.
    destruct (arrived s); simpl; split; congruence.
  - unfold targetPrinter.
    destruct (lastKept_steps _ _ Hs) as [[Hn Ht] | (l & q & Hq & Hc & Ht)].
    + rewrite Ht, Hn. split; reflexivity.
    + rewrite Ht, Hc, Hq. simpl. split; [discriminate |].
      intros H. destruct l; discriminate.
Qed.

(** *** Every scan completes *)

Definition weight (w : Worker) : nat :=
  match w with
  | Probing ip ans => 2 * List.length (hostItems ip ans) + 2
  | Sending items => 2 * List.length items + 1
  | Returned => 0
  end.

(** A number that every step makes smaller. *)
Definition measure (s : State) : nat :=
  list_sum (map weight (workers s)) + List.length (chanBuf s)
  + (if chanClosed s then 0 else 1) + (if drained s then 0 else 1).

Lemma weight_sum (w1 w2 : list Worker) (w : Worker) :
  list_sum (map weight (w1 ++ w :: w2))
  = (list_sum (map weight w1) + weight w + list_sum (map weight w2))%nat.
Proof.
  rewrite map_app, list_sum_app. simpl. lia.
Qed.

Lemma measure_step (sem : LoopVar) (s s' : State) :
  step sem s s' -> (measure s' < measure s)%nat.
Proof.
  unfold measure. intros Hs. inversion Hs; subst; simpl.
  - rewrite H, !weight_sum. simpl. lia.
  - rewrite H, !weight_sum, length_app. simpl. lia.
  - rewrite H, !weight_sum. simpl. lia.
  - rewrite H0. lia.
  - rewrite H. simpl. lia.
  - rewrite H1. lia.
Qed.

(** A state in which [main] is still in the loop has a next step. *)
Lemma progress (sem : LoopVar) (s : State) :
  wellFormed s -> drained s = false -> exists s', step sem s s'.
Proof.
  intros (Hcap & Hclosed & _) Hd.
  destruct (chanBuf s) as [|p rest] eqn:Eb.
  - destruct (allReturned (workers s)) eqn:Ea.
    + destruct (chanClosed s) eqn:Ec.
      * exists (withDrained s). apply step_leave; assumption.
      * exists (withClosed s). apply step_close; assumption.
    + destruct (not_allReturned _ Ea) as (w1 & w & w2 & Hw & Hne).
      destruct w as [ip ans | [|q items] |]; [| | | congruence].
      * eexists. apply (step_probe _ _ _ _ _ _ _ _ _ Hw).
      * eexists. apply (step_return _ _ _ _ _ _ _ Hw).
      * eexists. apply (step_send _ _ _ _ _ _ _ _ _ Hw).
        rewrite Eb, Hcap, Hw, length_app. simpl. lia.
  - exists (receive sem p s). apply (step_receive _ _ _ _ _ _ rest); assumption.
Qed.

Lemma completes_from (sem : LoopVar) (n : nat) (s : State) :
  (measure s <= n)%nat -> wellFormed s ->
  exists s', steps sem s s' /\ drained s' = true.
Proof.
  revert s. induction n as [|n IH]; intros s Hn Hw.
  - destruct (drained s) eqn:Ed.
    + exists s. split; [apply steps_refl | exact Ed].
    + unfold measure in Hn. rewrite Ed in Hn. lia.
  - destruct (drained s) eqn:Ed.
    + exists s. split; [apply steps_refl | exact Ed].
    + destruct (progress sem s Hw Ed) as [s1 H1].
      pose proof (measure_step _ _ _ H1) as Hm.
      destruct (IH s1 ltac:(lia) (wellFormed_step _ _ _ H1 Hw)) as (s' & Hs' & Hd').
      exists s'. split; [eapply steps_first; eassumption | exact Hd'].
Qed.

(** Whatever the hosts answer, the scan can be completed, and no
    execution goes on for ever ([measure_step]). *)
Lemma scan_completes (sem : LoopVar) (hosts : list (string * HostAnswer)) :
  exists s, scanned sem hosts s.
Proof.
  destruct (completes_from sem _ (Scan.initState hosts) (Nat.le_refl _)
              (wellFormed_init hosts)) as (s & Hs & Hd).
  exists s. split; assumption.
Qed.

(** *** The claims on the aggregator *)

(** With one loop variable for each iteration (Go 1.22 and later), in
    every complete scan in which some host contributes a value, the
    selected printer is the value that arrived first, whatever the order
    of the hosts and whatever arrived later; it comes from one of the
    hosts, and its path is two backslashes, its own host address, a
    backslash and its own share name. *)
Lemma first_arrival_is_target (hosts : list (string * HostAnswer))
    (s : State) :
  scanned PerIteration hosts s ->
  (exists ip ans, In (ip, ans) hosts /\ hostItems ip ans <> []) ->
  exists p rest,
    arrived s = p :: rest
    /\ targetPrinter s = Some p
    /\ FullPath p
       = (backslash ++ backslash ++ IP p ++ backslash ++ ShareName p)%string
    /\ fromHost hosts p.
Proof.
  intros Hsc (ip & ans & Hin & Hne).
  pose proof (scanned_arrivals _ _ _ Hsc) as Hm.
  destruct Hsc as [Hsteps Hd].
  destruct (firstKept_steps _ _ Hsteps) as [Hc Ht].
  destruct (arrived s) as [|p rest] eqn:Ea.
  - exfalso. apply Merge_nil_inv in Hm. rewrite Forall_forall in Hm.
    apply Hne. apply (Hm (itemsOf (ip, ans))). apply in_map. exact Hin.
  - exists p, rest. split; [reflexivity |].
    split; [unfold targetPrinter; rewrite Ht, Hc; reflexivity |].
    destruct (allFromHosts_steps _ _ _ Hsteps) as (Ha & _).
    rewrite Ea in Ha. inversion Ha as [| ? ? Hp _]; subst.
    split; [| exact Hp].
    destruct Hp as (ans' & _ & Hp). destruct (hostItems_In _ _ _ Hp) as (Heq & _).
    rewrite Heq at 1. reflexivity.
Qed.

(** C6.  A host whose dial fails, whose command fails or whose output
    has no share contributes no value; the scan is still completed, and
    the values that arrive are an interleaving of what the other hosts
    contribute. *)
Theorem soft_failure_contributes_nothing (sem : LoopVar)
    (hosts1 hosts2 : list (string * HostAnswer)) (ip : string)
    (ans : HostAnswer) :
  softFailure ans ->
  hostItems ip ans = []
  /\ (exists s, scanned sem (hosts1 ++ (ip, ans) :: hosts2) s)
  /\ (forall s, scanned sem (hosts1 ++ (ip, ans) :: hosts2) s ->
        Merge (map itemsOf (hosts1 ++ hosts2)) (arrived s)).
Proof.
  intros Hf. pose proof (hostItems_softFailure ip ans Hf) as Hn.
  split; [exact Hn |]. split; [apply scan_completes |].
  intros s Hsc. pose proof (scanned_arrivals _ _ _ Hsc) as Hm.
  rewrite map_app. apply (Merge_without_nil _ _ Hm).
  rewrite map_app. simpl. unfold itemsOf at 2. simpl. rewrite Hn. reflexivity.
Qed.

(** C7.  The scan always completes; when it completes with nothing
    arrived, [main] reports that no printer was found and runs no
    installer command; and nothing arrives when no host accepts the
    connection to the SMB port. *)
Theorem no_printer_no_install (sem : LoopVar)
    (hosts : list (string * HostAnswer)) (inst : Installer) :
  (exists s, scanned sem hosts s)
  /\ (forall s, scanned sem hosts s ->
        (arrived s = [] -> finish inst s = ([], NoPrintersFound))
        /\ ((forall ip ans, In (ip, ans) hosts -> dialOk ans = false) ->
            arrived s = [])).
Proof.
  split; [apply scan_completes |].
  intros s Hsc. split.
  - intros Ha. destruct Hsc as [Hsteps _].
    apply (target_nil_iff _ _ _ Hsteps) in Ha.
    unfold Scan.finish. rewrite Ha. reflexivity.
  - intros Hall. pose proof (scanned_arrivals _ _ _ Hsc) as Hm.
    destruct (arrived s) as [|p rest]; [reflexivity |].
    apply Merge_head in Hm. destruct Hm as (l & Hl).
    apply in_map_iff in Hl. destruct Hl as ([ip ans] & Hi & Hin).
    unfold itemsOf in Hi. simpl in Hi.
    rewrite (hostItems_softFailure ip ans) in Hi; [discriminate |].
    left. apply (Hall ip ans Hin).
Qed.

(** C8.  Every value sent on the channel has the path made of two
    backslashes, its own host address, a backslash and its own share
    name, and its share name is not ipc$ in any letter case; the value
    is one of those its host contributes. *)
Theorem stream_items_well_formed (sem : LoopVar)
    (hosts : list (string * HostAnswer)) (s : State) (p : Printer) :
  steps sem (Scan.initState hosts) s ->
  In p (arrived s ++ chanBuf s) ->
  FullPath p = (backslash ++ backslash ++ IP p ++ backslash ++ ShareName p)%string
  /\ equalFoldASCII (ShareName p) "ipc$" = false
  /\ fromHost hosts p.
Proof.
  intros Hsteps Hin.
  destruct (allFromHosts_steps _ _ _ Hsteps) as (Ha & Hb & _).
  assert (fromHost hosts p) as Hp.
  { apply in_app_or in Hin. rewrite Forall_forall in Ha, Hb.
    destruct Hin; auto. }
  split; [| split; [| exact Hp]].
  - destruct Hp as (ans & _ & Hp). destruct (hostItems_In _ _ _ Hp) as (Heq & _).
    rewrite Heq at 1. reflexivity.
  - destruct Hp as (ans & _ & Hp).
    destruct (hostItems_In _ _ _ Hp) as (_ & _ & _ & Hn).
    destruct (ShareFacts.parseShares_In _ _ _ _ _ Hn) as (line & _ & Hl).
    apply (ShareFacts.kept_not_ipc _ _ _ _ _ Hl).
Qed.

End Facts.

(** *** A scan of three hosts *)

Definition newline : string := String (ascii_of_nat 10) EmptyString.

(** Host A refuses the connection; host B shares LaserJet; host C
    shares Canon. *)
Definition hostA : string * HostAnswer :=
  ("192.168.0.100", mkAnswer false (mkOutput EmptyString true)).

Definition hostB : string * HostAnswer :=
  ("192.168.0.101",
   mkAnswer true
     (mkOutput ("Share name   Type   Comment" ++ newline
                ++ "LaserJet     Print  office" ++ newline
                ++ "IPC$         IPC    Remote IPC" ++ newline) false)).

Definition hostC : string * HostAnswer :=
  ("192.168.0.102",
   mkAnswer true (mkOutput ("Canon        Print  lab" ++ newline) false)).

Definition threeHosts : list (string * HostAnswer) := [hostA; hostB; hostC].

(** Host B is the first to send; host C sends later. *)
Definition bFirst : list Move :=
  [DoProbe 1; DoSend 1; DoReceive; DoProbe 0; DoProbe 2; DoSend 2;
   DoReturn 0; DoReturn 1; DoReturn 2; DoReceive; DoClose; DoLeave].

Definition identity : string -> string := ShareFacts.identity.

Definition afterScan : LoopVar -> State :=
  Eval vm_compute in
    (fun sem =>
       match run identity identity identity sem bFirst
               (Scan.initState threeHosts) with
       | Some s => s
       | None => Scan.initState []
       end).

Definition laserJet : Printer := printerOf "192.168.0.101" "LaserJet".
Definition canon : Printer := printerOf "192.168.0.102" "Canon".

Lemma afterScan_scanned (sem : LoopVar) :
  Scan.scanned identity identity identity sem threeHosts (afterScan sem).
Proof.
  split.
  - apply (run_steps identity identity identity sem bFirst).
    destruct sem; vm_compute; reflexivity.
  - destruct sem; reflexivity.
Qed.

(** The same arrivals under the two allocations of the loop variable:
    the printer selected is the first arrival with one variable for
    each iteration, the last arrival with one variable for the loop. *)
Lemma loop_variable_decides_selection :
  arrived (afterScan PerIteration) = [laserJet; canon]
  /\ targetPrinter (afterScan PerIteration) = Some laserJet
  /\ arrived (afterScan PerLoop) = [laserJet; canon]
  /\ targetPrinter (afterScan PerLoop) = Some canon.
Proof.
  repeat split; vm_compute; reflexivity.
Qed.

Lemma first_arrival_is_target_witness :
  Scan.scanned identity identity identity PerIteration threeHosts
    (afterScan PerIteration)
  /\ targetPrinter (afterScan PerIteration) = Some laserJet
  /\ exists p rest,
       arrived (afterScan PerIteration) = p :: rest
       /\ targetPrinter (afterScan PerIteration) = Some p
       /\ FullPath p
          = (backslash ++ backslash ++ IP p ++ backslash ++ ShareName p)%string
       /\ fromHost identity identity identity threeHosts p.
Proof.
  split; [apply afterScan_scanned |]. split; [vm_compute; reflexivity |].
  apply (first_arrival_is_target identity identity identity threeHosts
           (afterScan PerIteration) (afterScan_scanned PerIteration)).
  exists (fst hostB), (snd hostB). split; [right; left; reflexivity |].
  vm_compute. discriminate.
Defined.

Lemma soft_failure_witness :
  softFailure identity identity identity (snd hostA)
  /\ Scan.hostItems identity identity identity (fst hostA) (snd hostA) = []
  /\ Merge (map (itemsOf identity identity identity) [hostB; hostC])
           (arrived (afterScan PerIteration)).
Proof.
  assert (softFailure identity identity identity (snd hostA)) as Hf
    by (left; reflexivity).
  split; [exact Hf |].
  pose proof (soft_failure_contributes_nothing identity identity identity
                PerIteration [] [hostB; hostC] (fst hostA) (snd hostA) Hf)
    as (Hn & _ & Hm).
  split; [exact Hn |].
  exact (Hm (afterScan PerIteration) (afterScan_scanned PerIteration)).
Defined.

(** An installer whose commands all succeed. *)
Definition installer : Installer :=
  {| getPrinterCount := fun _ => mkOutput "0" false;
     addPrinterFails := fun _ => false;
     setDefaultFails := fun _ => false;
     isDefaultCheck := fun _ => mkOutput "True" false |}.

(** Two hosts that both refuse the connection. *)
Definition unreachable : list (string * HostAnswer) :=
  [hostA; ("192.168.0.103", mkAnswer false (mkOutput EmptyString true))].

Definition afterUnreachable : State :=
  Eval vm_compute in
    (match run identity identity identity PerIteration
             [DoProbe 0; DoProbe 1; DoReturn 1; DoReturn 0; DoClose; DoLeave]
             (Scan.initState unreachable) with
     | Some s => s
     | None => Scan.initState []
     end).

Lemma no_printer_no_install_witness :
  Scan.scanned identity identity identity PerIteration unreachable
    afterUnreachable
  /\ arrived afterUnreachable = []
  /\ Scan.finish identity identity installer afterUnreachable
     = ([], NoPrintersFound).
Proof.
  assert (Scan.scanned identity identity identity PerIteration unreachable
            afterUnreachable) as Hsc.
  { split; [| reflexivity].
    apply (run_steps identity identity identity PerIteration
             [DoProbe 0; DoProbe 1; DoReturn 1; DoReturn 0; DoClose; DoLeave]).
    vm_compute. reflexivity. }
  split; [exact Hsc |]. split; [reflexivity |].
  exact (proj1 (proj2 (no_printer_no_install identity identity identity
                         PerIteration unreachable installer)
                      afterUnreachable Hsc) eq_refl).
Defined.

Lemma stream_items_witness :
  In laserJet (arrived (afterScan PerIteration)
               ++ chanBuf (afterScan PerIteration))
  /\ FullPath laserJet
     = (backslash ++ backslash ++ "192.168.0.101" ++ backslash ++ "LaserJet")%string
  /\ equalFoldASCII (ShareName laserJet) "ipc$" = false.
Proof.
  assert (In laserJet (arrived (afterScan PerIteration)
                       ++ chanBuf (afterScan PerIteration))) as Hin
    by (vm_compute; left; reflexivity).
  split; [exact Hin |].
  pose proof (stream_items_well_formed identity identity identity PerIteration
                threeHosts (afterScan PerIteration) laserJet
                (proj1 (afterScan_scanned PerIteration)) Hin) as (Hp & He & _).
  split; [exact Hp | exact He].
Defined.

(** With the installer above, the scan of the three hosts ends with
    LaserJet of host B installed and made the default printer. *)
Lemma three_hosts_outcome :
  Scan.finish identity identity installer (afterScan PerIteration)
  = ([RunGetPrinter (FullPath laserJet); RunAddPrinter (FullPath laserJet);
      RunSetDefault (FullPath laserJet); RunCheckDefault (FullPath laserJet)],
     DefaultSet laserJet).
Proof. vm_compute. reflexivity. Qed.

(** C1 (evaluation of the code).  Three hosts are scanned; the value of
    host B, LaserJet, arrives first and the value of host C, Canon,
    arrives later.  With one variable [printer] for the whole loop (Go
    before 1.22), [targetPrinter = &printer] of the first iteration
    points to the variable that the second iteration overwrites: after
    the loop the selected printer is the last arrival, and the installer
    is run on the path of Canon at host C, not on the path of LaserJet at
    host B.  With one variable for each iteration the same arrivals
    select LaserJet at host B. *)
Theorem last_arrival_is_target_before_go_1_22 :
  Scan.scanned identity identity identity PerLoop threeHosts (afterScan PerLoop)
  /\ map FullPath (arrived (afterScan PerLoop))
     = ["\\192.168.0.101\LaserJet"; "\\192.168.0.102\Canon"]
  /\ option_map FullPath (targetPrinter (afterScan PerLoop))
     = Some "\\192.168.0.102\Canon"
  /\ Scan.finish identity identity installer (afterScan PerLoop)
     = ([RunGetPrinter "\\192.168.0.102\Canon";
         RunAddPrinter "\\192.168.0.102\Canon";
         RunSetDefault "\\192.168.0.102\Canon";
         RunCheckDefault "\\192.168.0.102\Canon"],
        DefaultSet canon)
  /\ Scan.scanned identity identity identity PerIteration threeHosts
       (afterScan PerIteration)
  /\ map FullPath (arrived (afterScan PerIteration))
     = ["\\192.168.0.101\LaserJet"; "\\192.168.0.102\Canon"]
  /\ option_map FullPath (targetPrinter (afterScan PerIteration))
     = Some "\\192.168.0.101\LaserJet".
Proof.
  split; [apply afterScan_scanned |].
  split; [vm_compute; reflexivity |].
  split; [vm_compute; reflexivity |].
  split; [vm_compute; reflexivity |].
  split; [apply afterScan_scanned |].
  split; vm_compute; reflexivity.
Qed.

End ScanFacts.

(** ** More on the aggregator *)

From Stdlib Require Import Permutation.

Module ScanMore.
Import GoStrings Scan ScanFacts.

(** Executions counted by their number of steps. *)
Inductive stepsN (unicodeTrim unicodeTrimRight unicodeToLower : string -> string)
    (sem : LoopVar) : nat -> State -> State -> Prop :=
| stepsN_zero s : stepsN unicodeTrim unicodeTrimRight unicodeToLower sem 0 s s
| stepsN_more n s1 s2 s3 :
    stepsN unicodeTrim unicodeTrimRight unicodeToLower sem n s1 s2 ->
    Scan.step unicodeTrim unicodeTrimRight unicodeToLower sem s2 s3 ->
    stepsN unicodeTrim unicodeTrimRight unicodeToLower sem (S n) s1 s3.

(** The path an installer command is run on. *)
Definition actionPath (a : Action) : string :=
  match a with
  | RunGetPrinter path => path
  | RunAddPrinter path => path
  | RunSetDefault path => path
  | RunCheckDefault path => path
  end.

Definition isSetDefault (a : Action) : bool :=
  match a with RunSetDefault _ => true | _ => false end.

Definition isAddPrinter (a : Action) : bool :=
  match a with RunAddPrinter _ => true | _ => false end.

Lemma concat_all_nil {A : Type} (ls : list (list A)) :
  Forall (fun l => l = []) ls -> List.concat ls = [].
Proof.
  induction 1 as [|l ls Hl _ IH]; simpl; [reflexivity |].
  rewrite Hl, IH. reflexivity.
Qed.

(** A merge of lists is a rearrangement of their concatenation. *)
Lemma Merge_Permutation {A : Type} (ls : list (list A)) (m : list A) :
  Merge ls m -> Permutation m (List.concat ls).
Proof.
  induction 1 as [ls Hall | l1 x xs l2 m Hm IH].
  - rewrite (concat_all_nil _ Hall). constructor.
  - rewrite concat_app in *. simpl in *.
    apply Permutation_cons_app. exact IH.
Qed.

Section Facts.

Variable unicodeTrim : string -> string.
Variable unicodeTrimRight : string -> string.
Variable unicodeToLower : string -> string.

Local Abbreviation hostItems :=
  (Scan.hostItems unicodeTrim unicodeTrimRight unicodeToLower).
Local Abbreviation itemsOf :=
  (ScanFacts.itemsOf unicodeTrim unicodeTrimRight unicodeToLower).
Local Abbreviation step := (Scan.step unicodeTrim unicodeTrimRight unicodeToLower).
Local Abbreviation steps := (Scan.steps unicodeTrim unicodeTrimRight unicodeToLower).
Local Abbreviation stepsN := (stepsN unicodeTrim unicodeTrimRight unicodeToLower).
Local Abbreviation scanned :=
  (Scan.scanned unicodeTrim unicodeTrimRight unicodeToLower).
Local Abbreviation measure :=
  (ScanFacts.measure unicodeTrim unicodeTrimRight unicodeToLower).
Local Abbreviation weight :=
  (ScanFacts.weight unicodeTrim unicodeTrimRight unicodeToLower).
Local Abbreviation wellFormed := ScanFacts.wellFormed.
Local Abbreviation finish := (Scan.finish unicodeTrim unicodeTrimRight).
Local Abbreviation isPrinterConnected :=
  (Scan.isPrinterConnected unicodeTrim unicodeTrimRight).

Lemma stepsN_steps (sem : LoopVar) (n : nat) (s s' : State) :
  stepsN sem n s s' -> steps sem s s'.
Proof.
  induction 1 as [s | n s1 s2 s3 H12 IH H23].
  - apply steps_refl.
  - eapply steps_next; eassumption.
Qed.

Lemma stepsN_measure (sem : LoopVar) (n : nat) (s s' : State) :
  stepsN sem n s s' -> (n + measure s' <= measure s)%nat.
Proof.
  induction 1 as [s | n s1 s2 s3 H12 IH H23].
  - simpl. lia.
  - pose proof (measure_step _ _ _ _ _ _ H23). lia.
Qed.

Lemma weight_init (hosts : list (string * HostAnswer)) :
  list_sum (map weight (workers (Scan.initState hosts)))
  = (2 * List.length (List.concat (map itemsOf hosts))
     + 2 * List.length hosts)%nat.
Proof.
  cbn [workers Scan.initState]. rewrite map_map.
  induction hosts as [|[ip ans] hosts IH]; [reflexivity |].
  cbn [map List.concat List.length].
  match goal with
  | |- list_sum (?x :: ?l) = _ =>
      change (list_sum (x :: l)) with (x + list_sum l)%nat
  end.
  rewrite IH, length_app.
  change (itemsOf (ip, ans)) with (hostItems ip ans).
  cbn [ScanFacts.weight]. lia.
Qed.

Lemma measure_init (hosts : list (string * HostAnswer)) :
  measure (Scan.initState hosts)
  = (2 * List.length (List.concat (map itemsOf hosts))
     + 2 * List.length hosts + 2)%nat.
Proof.
  unfold ScanFacts.measure. rewrite weight_init.
  cbn [chanBuf chanClosed drained Scan.initState List.length]. lia.
Qed.

(** X1.  When the scan is complete the values received are exactly the
    values the hosts contribute, each once: the arrival order is an
    interleaving in which every host's values keep their order, hence a
    rearrangement of the concatenated contributions. *)
Theorem arrivals_are_the_contributions (sem : LoopVar)
    (hosts : list (string * HostAnswer)) (s : State) :
  scanned sem hosts s ->
  Merge (map itemsOf hosts) (arrived s)
  /\ Permutation (arrived s) (List.concat (map itemsOf hosts))
  /\ chanBuf s = [].
Proof.
  intros Hsc. pose proof (scanned_arrivals _ _ _ _ _ _ Hsc) as Hm.
  split; [exact Hm |]. split; [apply Merge_Permutation; exact Hm |].
  destruct Hsc as [Hs Hd].
  pose proof (wellFormed_steps _ _ _ _ _ _ Hs (wellFormed_init hosts))
    as (_ & _ & Hdr).
  apply Hdr. exact Hd.
Qed.

Lemma capacity_steps (sem : LoopVar) (hosts : list (string * HostAnswer))
    (s : State) :
  steps sem (Scan.initState hosts) s ->
  chanCap s = List.length hosts
  /\ (List.length (chanBuf s) <= chanCap s)%nat.
Proof.
  revert s.
  apply (steps_invariant unicodeTrim unicodeTrimRight unicodeToLower sem
           (fun s => chanCap s = List.length hosts
                     /\ (List.length (chanBuf s) <= chanCap s)%nat)).
  - simpl. split; [reflexivity | lia].
  - intros s1 s2 Hst [Hc Hl].
    inversion Hst; subst; simpl; (split; [exact Hc |]); try exact Hl.
    + rewrite length_app. simpl. lia.
    + match goal with Hb : chanBuf s1 = _ |- _ => rewrite Hb in * end.
      simpl in *. lia.
Qed.

(** X3.  In every state of an execution the buffer of the channel holds
    at most [len(ips)] values; and once the channel is closed every
    worker has returned, so that no step sends: the values received or
    buffered stay the same. *)
Theorem channel_is_used_safely (sem : LoopVar)
    (hosts : list (string * HostAnswer)) (s : State) :
  steps sem (Scan.initState hosts) s ->
  (List.length (chanBuf s) <= List.length hosts)%nat
  /\ (chanClosed s = true ->
      allReturned (workers s) = true
      /\ forall s', step sem s s' ->
           workers s' = workers s
           /\ (arrived s' ++ chanBuf s' = arrived s ++ chanBuf s)%list).
Proof.
  intros Hs. destruct (capacity_steps _ _ _ Hs) as [Hc Hl].
  split; [lia |]. intros Hclosed.
  pose proof (wellFormed_steps _ _ _ _ _ _ Hs (wellFormed_init hosts))
    as (_ & Hcl & _).
  specialize (Hcl Hclosed). split; [exact Hcl |].
  intros s' Hst.
  inversion Hst; subst; simpl;
    try (match goal with
         | Hw : workers s = _ |- _ =>
             rewrite Hw in Hcl; rewrite allReturned_busy in Hcl by discriminate;
             discriminate
         end);
    try (split; reflexivity).
  rewrite H. simpl. rewrite <- app_assoc. split; reflexivity.
Qed.

(** X5.  What [main] does after the scan: every installer command is
    run on the path of the selected printer; the printer is added only
    when the check says it is not connected yet; the default printer is
    set only when connecting did not fail; and success is reported only
    when the check of the default printer answered with True. *)
Theorem finish_acts_on_the_target_only (inst : Installer) (s : State)
    (acts : list Action) (out : Outcome) :
  finish inst s = (acts, out) ->
  (forall a, In a acts ->
     exists p, targetPrinter s = Some p /\ actionPath a = FullPath p)
  /\ (existsb isAddPrinter acts = true ->
      exists p, targetPrinter s = Some p
                /\ isPrinterConnected inst (FullPath p) = false)
  /\ (forall e, out = ConnectFailed e -> existsb isSetDefault acts = false)
  /\ (forall p, out = DefaultSet p ->
        targetPrinter s = Some p
        /\ setDefaultFails inst (FullPath p) = false
        /\ failed (isDefaultCheck inst (FullPath p)) = false
        /\ Contains (output (isDefaultCheck inst (FullPath p))) "True" = true).
Proof.
  unfold Scan.finish, Scan.connectPrinter, Scan.setDefaultPrinter.
  destruct (targetPrinter s) as [p|].
  - destruct (isPrinterConnected inst (FullPath p)) eqn:Ec;
      [| destruct (addPrinterFails inst (FullPath p)) eqn:Ea];
      try (destruct (setDefaultFails inst (FullPath p)) eqn:Es;
           [| destruct (failed (isDefaultCheck inst (FullPath p))) eqn:Ef;
              [| destruct (Contains (output (isDefaultCheck inst (FullPath p)))
                                    "True") eqn:Et]]);
      simpl; intros H; inversion H; subst; clear H;
      (split; [intros a Ha; simpl in Ha; exists p; split; [reflexivity |];
               repeat (destruct Ha as [<- | Ha]; [reflexivity |]); contradiction |]);
      (split; [simpl; intros Hx; try discriminate; exists p; auto |]);
      (split; [intros e He; try discriminate; reflexivity |]);
      intros q Hq; try discriminate; inversion Hq; subst; auto.
  - intros H. inversion H; subst.
    split; [intros a [] |]. split; [discriminate |].
    split; [reflexivity | discriminate].
Qed.

End Facts.

Lemma arrivals_witness :
  Scan.scanned identity identity identity PerIteration threeHosts
    (afterScan PerIteration)
  /\ Permutation (arrived (afterScan PerIteration))
       (List.concat (map (ScanFacts.itemsOf identity identity identity) threeHosts)).
Proof.
  split; [apply afterScan_scanned |].
  exact (proj1 (proj2 (arrivals_are_the_contributions identity identity identity
                         PerIteration threeHosts (afterScan PerIteration)
                         (afterScan_scanned PerIteration)))).
Defined.

(** A state in the middle of the scan: host B has sent, [main] has not
    received yet. *)
Definition midScan : State :=
  Eval vm_compute in
    (match run identity identity identity PerIteration
             [DoProbe 1; DoSend 1; DoProbe 2] (Scan.initState threeHosts) with
     | Some s => s
     | None => Scan.initState []
     end).

Lemma channel_witness :
  Scan.steps identity identity identity PerIteration
    (Scan.initState threeHosts) midScan
  /\ chanBuf midScan = [laserJet]
  /\ (List.length (chanBuf midScan) <= List.length threeHosts)%nat.
Proof.
  assert (Scan.steps identity identity identity PerIteration
            (Scan.initState threeHosts) midScan) as Hs.
  { apply (run_steps identity identity identity PerIteration
             [DoProbe 1; DoSend 1; DoProbe 2]).
    vm_compute. reflexivity. }
  split; [exact Hs |]. split; [vm_compute; reflexivity |].
  exact (proj1 (channel_is_used_safely identity identity identity PerIteration
                  threeHosts midScan Hs)).
Defined.

Lemma finish_witness :
  Scan.finish identity identity installer (afterScan PerIteration)
  = ([RunGetPrinter (FullPath laserJet); RunAddPrinter (FullPath laserJet);
      RunSetDefault (FullPath laserJet); RunCheckDefault (FullPath laserJet)],
     DefaultSet laserJet)
  /\ forall a,
       In a [RunGetPrinter (FullPath laserJet); RunAddPrinter (FullPath laserJet);
             RunSetDefault (FullPath laserJet); RunCheckDefault (FullPath laserJet)] ->
       exists p, targetPrinter (afterScan PerIteration) = Some p
                 /\ actionPath a = FullPath p.
Proof.
  split; [vm_compute; reflexivity |].
  exact (proj1 (finish_acts_on_the_target_only identity identity installer
                  (afterScan PerIteration) _ _ three_hosts_outcome)).
Defined.

End ScanMore.

(** ** More on the bounded range deriver *)

From Stdlib Require Import Sorted.

Module RangeMore.
Import GoStrings GoNet Range RangeFacts.

Local Abbreviation bytesOk := EnumeratorFacts.bytesOk.

(** The address family of the text before the slash of a block. *)
Definition cidrFamily (cidr : string) : family :=
  match cutSlash cidr with
  | Some (addr, _) => addrFamily addr
  | None => FamNone
  end.

Definition prefixLengths : list Z := map Z.of_nat (seq 0 33).

Lemma In_prefixLengths (p : Z) : 0 <= p <= 32 -> In p prefixLengths.
Proof.
  intros H. unfold prefixLengths. apply in_map_iff. exists (Z.to_nat p).
  split; [lia |]. apply in_seq. lia.
Qed.

Lemma maskBytes_length (l : nat) (n : Z) : List.length (maskBytes l n) = l.
Proof.
  revert n. induction l as [|l IH]; intros n; simpl; [reflexivity |].
  destruct (8 <=? n); simpl; rewrite IH; reflexivity.
Qed.

Lemma CIDRMask32_length (p : Z) : List.length (CIDRMask p 32) = 4%nat.
Proof. unfold CIDRMask. apply maskBytes_length. Qed.

(** Up to /24 the last byte of the mask is zero. *)
Lemma CIDRMask32_last_zero (p : Z) :
  0 <= p <= 24 -> nth 3 (CIDRMask p 32) 0 = 0.
Proof.
  intros H.
  assert (forallb (fun q => (24 <? q) || (nth 3 (CIDRMask q 32) 0 =? 0))
                  prefixLengths = true) as Hall by (vm_compute; reflexivity).
  rewrite forallb_forall in Hall.
  specialize (Hall p (In_prefixLengths p ltac:(lia))).
  apply orb_prop in Hall. destruct Hall as [Hc | Hc].
  - apply Z.ltb_lt in Hc. lia.
  - apply Z.eqb_eq in Hc. exact Hc.
Qed.

Lemma bytesOk_app (p q : list Z) :
  bytesOk (p ++ q) = bytesOk p && bytesOk q.
Proof. apply forallb_app. Qed.

Lemma isDigit_value (c : ascii) :
  isDigit c = true -> 0 <= byteval c - 48 <= 9.
Proof.
  unfold isDigit. intros H. apply andb_prop in H. destruct H as [H1 H2].
  apply Z.leb_le in H1. apply Z.leb_le in H2. lia.
Qed.

(** The IPv4 parser yields four octets, each a byte. *)
Lemma parseIPv4Fields_shape (s : string) (first prevDot : bool)
    (val digLen : Z) (fields f : list Z) :
  (List.length fields <= 3)%nat -> bytesOk fields = true -> 0 <= val <= 255 ->
  parseIPv4Fields s first prevDot val digLen fields = Some f ->
  List.length f = 4%nat /\ bytesOk f = true.
Proof.
  revert first prevDot val digLen fields.
  induction s as [|c s IH]; intros first prevDot val digLen fields Hl Hb Hv H;
    cbn [parseIPv4Fields] in H.
  - destruct (List.length fields <? 3)%nat eqn:E; [discriminate |].
    apply Nat.ltb_ge in E. inversion H; subst.
    rewrite length_app, bytesOk_app, Hb. simpl.
    split; [lia |].
    assert ((0 <=? val) = true) as -> by (apply Z.leb_le; lia).
    assert ((val <? 256) = true) as -> by (apply Z.ltb_lt; lia).
    reflexivity.
  - destruct (isDigit c) eqn:Ed.
    + destruct ((digLen =? 1) && (val =? 0)); [discriminate |].
      destruct (255 <? val * 10 + (byteval c - 48)) eqn:Ev; [discriminate |].
      apply Z.ltb_ge in Ev. pose proof (isDigit_value c Ed).
      refine (IH _ _ _ _ _ Hl Hb _ H). lia.
    + destruct (byteval c =? 46); [| discriminate].
      destruct (first || _ || prevDot); [discriminate |].
      destruct (List.length fields =? 3)%nat eqn:E3; [discriminate |].
      apply Nat.eqb_neq in E3.
      apply (IH _ _ _ _ _) in H; [exact H | | | lia].
      * rewrite length_app. simpl. lia.
      * rewrite bytesOk_app, Hb. simpl.
        assert ((0 <=? val) = true) as -> by (apply Z.leb_le; lia).
        assert ((val <? 256) = true) as -> by (apply Z.ltb_lt; lia).
        reflexivity.
Qed.

Lemma dtoiFrom_nonneg (s : string) (n i n' i' : Z) (ok : bool) :
  0 <= n -> dtoiFrom s n i = (n', i', ok) -> 0 <= n'.
Proof.
  revert n i. induction s as [|c s IH]; intros n i Hn H; cbn [dtoiFrom] in H.
  - inversion H; subst. exact Hn.
  - destruct (isDigit c) eqn:Ed.
    + pose proof (isDigit_value c Ed).
      destruct (big <=? n * 10 + (byteval c - 48)).
      * inversion H; subst. unfold big. lia.
      * refine (IH _ _ _ H). lia.
    + inversion H; subst. exact Hn.
Qed.

Lemma Mask_mapped (f m : list Z) :
  List.length f = 4%nat -> List.length m = 4%nat ->
  Mask (v4InV6Prefix ++ f)%list m
  = Some (map (fun '(x, k) => Z.land x k) (combine f m)).
Proof.
  intros Hf Hm.
  destruct f as [|a [|b [|c [|d [|e f]]]]]; try discriminate.
  destruct m as [|m0 [|m1 [|m2 [|m3 [|m4 m]]]]]; try discriminate.
  reflexivity.
Qed.

Section Facts.

Variable ipv6String : GoNet.IP -> string.
Variable parseIPv6 : string -> option (list Z * string).

Local Abbreviation IP_String := (GoNet.IP_String ipv6String).
Local Abbreviation rangeOf := (Range.rangeOf ipv6String).
Local Abbreviation getNetworkRange := (Range.getNetworkRange ipv6String parseIPv6).
Local Abbreviation ParseCIDR := (GoNet.ParseCIDR parseIPv6).

(** What [net.ParseCIDR] returns for the text of an IPv4 block: the
    16-byte form of the address, its four octets masked, and the mask
    of the prefix length. *)
Lemma ParseCIDR_IPv4 (cidr : string) (ip : GoNet.IP) (ipnet : IPNet) :
  cidrFamily cidr = FamV4 -> ParseCIDR cidr = Some (ip, ipnet) ->
  exists a b c d p,
    bytesOk [a; b; c; d] = true /\ 0 <= p <= 32
    /\ ip = IPv4 a b c d
    /\ netMask ipnet = CIDRMask p 32
    /\ netIP ipnet = map (fun '(x, k) => Z.land x k)
                         (combine [a; b; c; d] (CIDRMask p 32)).
Proof.
  unfold cidrFamily, GoNet.ParseCIDR, GoNet.ParseAddr. intros Hfam H.
  destruct (cutSlash cidr) as [[addr mask]|]; [| discriminate].
  rewrite Hfam in H.
  destruct (parseIPv4Fields addr true false 0 0 []) as [f|] eqn:Ef;
    [| discriminate].
  assert (List.length f = 4%nat /\ bytesOk f = true) as [Hlen Hok].
  { apply (parseIPv4Fields_shape addr true false 0 0 [] f);
      [simpl; lia | reflexivity | lia | exact Ef]. }
  cbn [negb String.eqb] in H.
  destruct (dtoi mask) as [[n i] ok] eqn:Ed.
  destruct (negb ok || negb (i =? Z.of_nat (String.length mask))
            || (n <? 0) || (32 <? n)) eqn:Ec; [discriminate |].
  apply orb_false_elim in Ec. destruct Ec as [Ec E32].
  apply Z.ltb_ge in E32.
  pose proof (dtoiFrom_nonneg _ _ _ _ _ _ (Z.le_refl 0) Ed) as Hn.
  rewrite (Mask_mapped f _ Hlen (CIDRMask32_length n)) in H.
  inversion H; subst. simpl.
  destruct f as [|a [|b [|c [|d [|e f]]]]]; try discriminate.
  exists a, b, c, d, n. repeat split; auto; lia.
Qed.

Lemma land_idem (x k : Z) : Z.land (Z.land x k) k = Z.land x k.
Proof. rewrite <- Z.land_assoc, Z.land_diag. reflexivity. Qed.

(** For a parsed IPv4 block the base address is the network number, and
    a candidate is contained exactly when its host number agrees with
    the network number under the last byte of the mask. *)
Lemma parsed_IPv4_candidates (a b c d p : Z) :
  let m := CIDRMask p 32 in
  let nn := map (fun '(x, k) => Z.land x k) (combine [a; b; c; d] m) in
  baseOf (IPv4 a b c d) (mkIPNet nn m) = Some nn
  /\ forall i,
       Contains (mkIPNet nn m) (candidate nn i)
       = (Z.land (nth 3 nn 0) (nth 3 m 0) =? Z.land (toByte i) (nth 3 m 0)).
Proof.
  intros m nn. subst nn.
  pose proof (CIDRMask32_length p) as Hm. fold m in Hm.
  destruct m as [|m0 [|m1 [|m2 [|m3 [|m4 m]]]]]; try discriminate.
  split.
  - unfold baseOf. cbn [netMask]. unfold IPv4.
    rewrite (Mask_mapped [a; b; c; d] [m0; m1; m2; m3] eq_refl eq_refl).
    reflexivity.
  - intros i. unfold Contains, candidate. cbn.
    rewrite !Z.eqb_refl. cbn. rewrite andb_true_r. reflexivity.
Qed.

Lemma append_inj_left (a x y : string) : (a ++ x = a ++ y)%string -> x = y.
Proof.
  induction a as [|c a IH]; simpl; intros H; [exact H |].
  inversion H. apply IH. assumption.
Qed.

(** The decimal texts of the host numbers are pairwise different. *)
Lemma uitoa_hostNumber_inj (x y : Z) :
  In x hostNumbers -> In y hostNumbers -> uitoa x = uitoa y -> x = y.
Proof.
  rewrite hostNumbers_eq. simpl. intros Hx Hy.
  repeat (destruct Hx as [<- | Hx]; [| ]);
    try contradiction;
    repeat (destruct Hy as [<- | Hy]; [| ]);
    try contradiction; vm_compute; intros H; try reflexivity; discriminate.
Qed.

Lemma dotted_last_inj (a b c x y : Z) :
  In x hostNumbers -> In y hostNumbers ->
  dotted [a; b; c; x] = dotted [a; b; c; y] -> x = y.
Proof.
  intros Hx Hy H. unfold dotted in H. cbn [nth] in H.
  apply append_inj_left in H. inversion H as [H1]. clear H.
  apply append_inj_left in H1. inversion H1 as [H2]. clear H1.
  apply append_inj_left in H2. inversion H2 as [H3].
  apply (uitoa_hostNumber_inj _ _ Hx Hy H3).
Qed.

Lemma StronglySorted_filter {A : Type} (R : A -> A -> Prop) (f : A -> bool)
    (l : list A) :
  StronglySorted R l -> StronglySorted R (filter f l).
Proof.
  induction 1 as [|a l Hs IH Ha]; simpl; [constructor |].
  destruct (f a); [| exact IH].
  constructor; [exact IH |].
  rewrite Forall_forall in *. intros x Hx. apply filter_In in Hx.
  apply Ha. tauto.
Qed.

Lemma hostNumbers_sorted : StronglySorted Z.lt hostNumbers.
Proof.
  rewrite hostNumbers_eq.
  repeat (constructor; [| repeat (constructor; [lia |]); constructor]).
  constructor.
Qed.

Lemma StronglySorted_lt_NoDup (l : list Z) : StronglySorted Z.lt l -> NoDup l.
Proof.
  induction 1 as [|a l Hs IH Ha]; constructor; [| exact IH].
  intros Hin. rewrite Forall_forall in Ha. specialize (Ha a Hin). lia.
Qed.

(** X6.  The addresses [rangeOf] returns are pairwise different and in
    ascending order of the host number: they are the texts of exactly
    those host numbers from [minHost] to [maxHost] whose candidate the
    block contains. *)
Theorem range_is_ascending_without_repeats (ip : GoNet.IP) (ipnet : IPNet)
    (baseIP : GoNet.IP) (ips : list string) :
  baseOf ip ipnet = Some baseIP ->
  rangeOf ip ipnet = Ok ips ->
  NoDup ips
  /\ exists hs,
       StronglySorted Z.lt hs
       /\ (forall i, In i hs <->
             minHost <= i <= maxHost
             /\ Contains ipnet (candidate baseIP i) = true)
       /\ ips = map (fun i => dotted [nth 0 baseIP 0; nth 1 baseIP 0;
                                      nth 2 baseIP 0; i]) hs.
Proof.
  intros Hb Hr.
  pose proof (rangeOf_cases ipv6String ip ipnet) as Hc. rewrite Hb in Hc.
  assert (ips = map IP_String (contained ipnet baseIP)) as Hips.
  { destruct (contained ipnet baseIP); congruence. }
  clear Hc Hr. unfold contained in Hips. rewrite filter_map_swap in Hips.
  set (hs := filter (fun i => Contains ipnet (candidate baseIP i)) hostNumbers)
    in *.
  assert (forall i, In i hs -> In i hostNumbers) as Hsub.
  { intros i Hi. apply filter_In in Hi. tauto. }
  assert (ips = map (fun i => dotted [nth 0 baseIP 0; nth 1 baseIP 0;
                                      nth 2 baseIP 0; i]) hs) as Htext.
  { rewrite Hips, map_map. apply map_ext_in. intros i Hi.
    rewrite (IP_String_candidate ipv6String).
    rewrite (toByte_hostNumber i); [reflexivity |].
    apply In_hostNumbers. apply Hsub. exact Hi. }
  assert (StronglySorted Z.lt hs) as Hsorted
    by (apply StronglySorted_filter; apply hostNumbers_sorted).
  split.
  - rewrite Htext. apply NoDup_map_NoDup_ForallPairs.
    + intros x y Hx Hy Hxy.
      apply (dotted_last_inj _ _ _ _ _ (Hsub _ Hx) (Hsub _ Hy) Hxy).
    + apply StronglySorted_lt_NoDup. exact Hsorted.
  - exists hs. split; [exact Hsorted |]. split; [| exact Htext].
    intros i. unfold hs. rewrite filter_In, In_hostNumbers. reflexivity.
Qed.

(** X7.  For the text of an IPv4 block that parses, with prefix length
    [p]: [getNetworkRange] fails only with the empty-range error, and
    only when [p] is more than 24; up to /24 it returns all eleven
    addresses of the network number's first three octets. *)
Theorem wide_blocks_give_all_eleven (cidr : string) (ip : GoNet.IP)
    (ipnet : IPNet) :
  cidrFamily cidr = FamV4 ->
  ParseCIDR cidr = Some (ip, ipnet) ->
  exists p,
    0 <= p <= 32
    /\ netMask ipnet = CIDRMask p 32
    /\ (p <= 24 ->
        getNetworkRange cidr
        = Ok (map (fun i => dotted [nth 0 (netIP ipnet) 0;
                                    nth 1 (netIP ipnet) 0;
                                    nth 2 (netIP ipnet) 0; i]) hostNumbers))
    /\ (forall e, getNetworkRange cidr = Err e ->
          e = ErrEmptyRange /\ 24 < p).
Proof.
  intros Hfam Hparse.
  destruct (ParseCIDR_IPv4 _ _ _ Hfam Hparse)
    as (a & b & c & d & p & Hok & Hp & -> & Hm & Hn).
  exists p. split; [exact Hp |]. split; [exact Hm |].
  destruct ipnet as [nn m]. cbn [netIP netMask] in *. subst m nn.
  destruct (parsed_IPv4_candidates a b c d p) as [Hbase Hcont].
  cbv zeta in Hbase, Hcont.
  set (m := CIDRMask p 32) in *.
  set (nn := map (fun '(x, k) => Z.land x k) (combine [a; b; c; d] m)) in *.
  unfold Range.getNetworkRange. rewrite Hparse.
  pose proof (rangeOf_cases ipv6String (IPv4 a b c d) (mkIPNet nn m)) as Hc.
  rewrite Hbase in Hc.
  assert (p <= 24 -> contained (mkIPNet nn m) nn = map (candidate nn) hostNumbers)
    as Hall.
  { intros Hle. unfold contained.
    rewrite filter_map_swap. f_equal.
    apply forallb_filter_id. apply forallb_forall. intros i _.
    rewrite Hcont. unfold m. rewrite (CIDRMask32_last_zero p ltac:(lia)).
    rewrite !Z.land_0_r. reflexivity. }
  split.
  - intros Hle. rewrite (Hall Hle) in Hc.
    remember (map (candidate nn) hostNumbers) as cs eqn:Ecs.
    destruct cs as [|x xs];
      [exfalso; revert Ecs; rewrite hostNumbers_eq; discriminate |].
    rewrite Hc, Ecs, map_map. reflexivity.
  - intros e He.
    destruct (Z_le_gt_dec p 24) as [Hle | Hgt].
    + exfalso. rewrite (Hall Hle) in Hc. revert Hc.
      rewrite hostNumbers_eq. cbn [map]. intros Hc. congruence.
    + destruct (contained (mkIPNet nn m) nn) as [|x xs];
        [split; [congruence | lia] | congruence].
Qed.

End Facts.

Lemma range_is_ascending_witness :
  Range.rangeOf noIPv6Text (IPv4 192 168 0 105)
    (mkIPNet [192; 168; 0; 104] [255; 255; 255; 252])
  = Ok ["192.168.0.104"; "192.168.0.105"; "192.168.0.106"; "192.168.0.107"]
  /\ NoDup ["192.168.0.104"; "192.168.0.105"; "192.168.0.106"; "192.168.0.107"].
Proof.
  split; [reflexivity |].
  exact (proj1 (range_is_ascending_without_repeats noIPv6Text
                  (IPv4 192 168 0 105)
                  (mkIPNet [192; 168; 0; 104] [255; 255; 255; 252])
                  [192; 168; 0; 104] _ eq_refl eq_refl)).
Defined.

Lemma wide_blocks_witness :
  cidrFamily "10.20.30.40/16" = FamV4
  /\ exists p,
       0 <= p <= 32
       /\ netMask (mkIPNet [10; 20; 0; 0] [255; 255; 0; 0]) = CIDRMask p 32
       /\ (p <= 24 ->
           Range.getNetworkRange noIPv6Text noIPv6Parser "10.20.30.40/16"
           = Ok (map (fun i => dotted [10; 20; 0; i]) hostNumbers))
       /\ (forall e,
             Range.getNetworkRange noIPv6Text noIPv6Parser "10.20.30.40/16"
             = Err e -> e = ErrEmptyRange /\ 24 < p).
Proof.
  split; [reflexivity |].
  exact (wide_blocks_give_all_eleven noIPv6Text noIPv6Parser "10.20.30.40/16"
           (IPv4 10 20 30 40) (mkIPNet [10; 20; 0; 0] [255; 255; 0; 0])
           eq_refl eq_refl).
Defined.

End RangeMore.

(** ** The range deriver of [main.go] (full-subnet policy) *)

Module FullRange.
Import GoStrings GoNet.

(** The loop of [incIP] from the last byte down, on the reversed
    slice: a byte is incremented with wrap-around, and the loop stops
    at the first byte that is not zero afterwards. *)
Fixpoint incRev (r : list Z) : list Z :=
  match r with
  | [] => []
  | b :: r' =>
      let b' := (b + 1) mod 256 in
      if 0 <? b' then b' :: r' else b' :: incRev r'
  end.

(** [incIP(ip)]; the slice is updated in place, the model returns its
    new content. *)
Definition incIP (ip : IP) : IP := List.rev (incRev (List.rev ip)).

Section Deriver.

Variable ipv6String : IP -> string.
Variable parseIPv6 : string -> option (list Z * string).

(** The loop [for ip := ...; ipnet.Contains(ip); incIP(ip)], with a
    bound on the number of tests of the condition: [None] when the
    bound is reached before the condition fails. *)
Fixpoint enumerate (fuel : nat) (ipnet : IPNet) (ip : IP) (ips : list string)
    : option (list string) :=
  match fuel with
  | O => None
  | S fuel' =>
      if Contains ipnet ip
      then enumerate fuel' ipnet (incIP ip)
             (ips ++ [IP_String ipv6String ip])%list
      else Some ips
  end.

(** The slice expression [ips[1 : len(ips)-1]]. *)
Definition dropEnds (ips : list string) : list string :=
  firstn (List.length ips - 2) (skipn 1 ips).

(** [getNetworkRange] of [main.go]; a nil result of [Mask] is the empty
    slice. *)
Definition getNetworkRange (fuel : nat) (cidr : string)
    : option (result (list string)) :=
  match ParseCIDR parseIPv6 cidr with
  | None => Some (Err ErrParseCIDR)
  | Some (ip, ipnet) =>
      let start := match Mask ip (netMask ipnet) with
                   | Some masked => masked
                   | None => []
                   end in
      match enumerate fuel ipnet start [] with
      | None => None
      | Some ips =>
          if (2 <? List.length ips)%nat then Some (Ok (dropEnds ips))
          else Some (Ok ips)
      end
  end.

End Deriver.

(** The number a slice of bytes stands for, most significant byte
    first, and the four bytes of a 32-bit number. *)
Definition numBE (p : list Z) : Z := fold_left (fun acc b => acc * 256 + b) p 0.

Definition bytes4 (n : Z) : list Z :=
  [n / 16777216 mod 256; n / 65536 mod 256; n / 256 mod 256; n mod 256].

End FullRange.

(** ** Facts on the full-subnet range deriver *)

Module FullRangeFacts.
Import GoStrings GoNet FullRange.

Local Abbreviation bytesOk := EnumeratorFacts.bytesOk.

(** The number a reversed slice stands for. *)
Fixpoint numRev (r : list Z) : Z :=
  match r with
  | [] => 0
  | b :: r' => b + 256 * numRev r'
  end.

Lemma numBE_snoc (p : list Z) (b : Z) : numBE (p ++ [b]) = numBE p * 256 + b.
Proof. unfold numBE. rewrite fold_left_app. reflexivity. Qed.

Lemma numBE_rev (r : list Z) : numBE (List.rev r) = numRev r.
Proof.
  induction r as [|b r IH]; [reflexivity |].
  cbn [List.rev numRev]. rewrite numBE_snoc, IH. lia.
Qed.

Lemma bytesOk_cons (b : Z) (r : list Z) :
  bytesOk (b :: r) = ((0 <=? b) && (b <? 256)) && bytesOk r.
Proof. reflexivity. Qed.

Lemma bytesOk_byte (b : Z) : 0 <= b < 256 -> (0 <=? b) && (b <? 256) = true.
Proof.
  intros H. apply andb_true_intro.
  split; [apply Z.leb_le | apply Z.ltb_lt]; lia.
Qed.

Lemma bytesOk_rev (p : list Z) : bytesOk (List.rev p) = bytesOk p.
Proof.
  induction p as [|b p IH]; [reflexivity |].
  cbn [List.rev]. rewrite RangeMore.bytesOk_app, IH, !bytesOk_cons.
  change (bytesOk []) with true. rewrite andb_true_r. apply andb_comm.
Qed.

Lemma numRev_bound (r : list Z) :
  bytesOk r = true -> 0 <= numRev r < 256 ^ Z.of_nat (List.length r).
Proof.
  induction r as [|b r IH]; intros H.
  - simpl. lia.
  - rewrite bytesOk_cons in H.
    apply andb_prop in H. destruct H as [Hb Hr].
    specialize (IH Hr). cbn [numRev List.length].
    rewrite Nat2Z.inj_succ, Z.pow_succ_r by lia. lia.
Qed.

Lemma incRev_spec (r : list Z) :
  bytesOk r = true ->
  bytesOk (incRev r) = true
  /\ List.length (incRev r) = List.length r
  /\ numRev (incRev r) = (numRev r + 1) mod 256 ^ Z.of_nat (List.length r).
Proof.
  induction r as [|b r IH]; intros H.
  - simpl. repeat split.
  - rewrite bytesOk_cons in H.
    apply andb_prop in H. destruct H as [Hb Hr].
    pose proof (numRev_bound _ Hr) as Hbr.
    destruct (IH Hr) as (IHok & IHlen & IHnum).
    cbn [incRev List.length numRev].
    rewrite Nat2Z.inj_succ, Z.pow_succ_r by lia.
    set (P := 256 ^ Z.of_nat (List.length r)) in *.
    assert (0 < P) as HP by (apply Z.pow_pos_nonneg; lia).
    destruct (Z.eq_dec b 255) as [-> | Hne].
    + change ((255 + 1) mod 256) with 0. change (0 <? 0) with false.
      cbv iota. rewrite bytesOk_cons, IHok. cbn [List.length numRev].
      rewrite IHlen, IHnum. repeat split.
      replace (255 + 256 * numRev r + 1) with (256 * (numRev r + 1)) by lia.
      rewrite Z.mul_mod_distr_l by lia. lia.
    + assert (b + 1 < 256) as Hlt by lia.
      rewrite (Z.mod_small (b + 1) 256) by lia.
      assert ((0 <? b + 1) = true) as -> by (apply Z.ltb_lt; lia).
      rewrite bytesOk_cons, Hr, (bytesOk_byte (b + 1)) by lia.
      cbn [List.length numRev]. repeat split.
      rewrite Z.mod_small by lia. lia.
Qed.

Lemma incRev_length (r : list Z) : List.length (incRev r) = List.length r.
Proof.
  induction r as [|b r IH]; [reflexivity |].
  cbn [incRev]. destruct (0 <? (b + 1) mod 256); simpl; congruence.
Qed.

Lemma incIP_length (ip : GoNet.IP) : List.length (incIP ip) = List.length ip.
Proof.
  unfold incIP. rewrite length_rev, incRev_length, length_rev. reflexivity.
Qed.

(** The bytes of the masks of prefix lengths. *)
Definition maskValues : list Z := [0; 128; 192; 224; 240; 248; 252; 254; 255].

(** Under such a mask a byte keeps its high bits. *)
Lemma land_mask (x m : Z) :
  0 <= x < 256 -> In m maskValues -> Z.land x m = x - x mod (256 - m).
Proof.
  intros Hx Hm.
  assert (forallb (fun y => forallb (fun k => Z.land y k =? y - y mod (256 - k))
                                    maskValues)
                  EnumeratorFacts.byteValues = true) as Hall
    by (vm_compute; reflexivity).
  rewrite forallb_forall in Hall.
  specialize (Hall x (EnumeratorFacts.In_byteValues x Hx)).
  rewrite forallb_forall in Hall. specialize (Hall m Hm).
  apply Z.eqb_eq in Hall. exact Hall.
Qed.

(** [ip.Mask(mask)] on slices of equal length. *)
Definition masked (a m : list Z) : list Z :=
  map (fun '(x, k) => Z.land x k) (combine a m).

Ltac prefix_cases H :=
  apply RangeMore.In_prefixLengths in H;
  unfold RangeMore.prefixLengths in H; cbn [seq map Z.of_nat Pos.of_succ_nat
    Pos.succ] in H.

Ltac compute_mask :=
  repeat match goal with
         | |- context [CIDRMask ?c 32] =>
             let m := eval vm_compute in (CIDRMask c 32) in
             change (CIDRMask c 32) with m
         | |- context [2 ^ (32 - ?c)] =>
             let v := eval vm_compute in (2 ^ (32 - c)) in
             change (2 ^ (32 - c)) with v
         end.

Ltac use_land_mask :=
  repeat match goal with
         | |- context [Z.land ?x ?m] =>
             rewrite (land_mask x m) by (first [lia | cbn; tauto])
         end.

Lemma four_bytes (p : list Z) :
  List.length p = 4%nat -> bytesOk p = true ->
  exists a b c d,
    p = [a; b; c; d]
    /\ 0 <= a < 256 /\ 0 <= b < 256 /\ 0 <= c < 256 /\ 0 <= d < 256.
Proof.
  intros Hl Hb.
  destruct p as [|a [|b [|c [|d [|e p]]]]]; try discriminate.
  exists a, b, c, d. split; [reflexivity |].
  pose proof (EnumeratorFacts.bytesOk_nth _ 0 Hb).
  pose proof (EnumeratorFacts.bytesOk_nth _ 1 Hb).
  pose proof (EnumeratorFacts.bytesOk_nth _ 2 Hb).
  pose proof (EnumeratorFacts.bytesOk_nth _ 3 Hb).
  simpl in *. auto.
Qed.

(** Containment in an IPv4 block, on numbers: an address is in the
    block of [a] with prefix length [p] exactly when the two numbers
    agree above the low [32 - p] bits. *)
Lemma Contains_numeric (a x : list Z) (p : Z) :
  List.length a = 4%nat -> bytesOk a = true ->
  List.length x = 4%nat -> bytesOk x = true ->
  0 <= p <= 32 ->
  Contains (mkIPNet (masked a (CIDRMask p 32)) (CIDRMask p 32)) x
  = (numBE x / 2 ^ (32 - p) =? numBE a / 2 ^ (32 - p)).
Proof.
  intros Hla Hba Hlx Hbx Hp.
  destruct (four_bytes a Hla Hba) as (a0 & a1 & a2 & a3 & -> & ? & ? & ? & ?).
  destruct (four_bytes x Hlx Hbx) as (x0 & x1 & x2 & x3 & -> & ? & ? & ? & ?).
  prefix_cases Hp.
  repeat (destruct Hp as [<- | Hp];
          [ compute_mask;
            cbn -[Z.land Z.div Z.modulo Z.mul Z.add Z.eqb];
            rewrite ?RangeMore.land_idem; use_land_mask;
            apply Bool.eq_true_iff_eq;
            rewrite ?andb_true_iff, ?Z.eqb_eq;
            cbn -[Z.div Z.modulo Z.mul Z.add];
            split; intros; Z.div_mod_to_equations; lia | ]).
  contradiction.
Qed.

(** The network number of a masked address. *)
Lemma masked_numeric (a : list Z) (p : Z) :
  List.length a = 4%nat -> bytesOk a = true -> 0 <= p <= 32 ->
  List.length (masked a (CIDRMask p 32)) = 4%nat
  /\ bytesOk (masked a (CIDRMask p 32)) = true
  /\ numBE (masked a (CIDRMask p 32))
     = 2 ^ (32 - p) * (numBE a / 2 ^ (32 - p)).
Proof.
  intros Hla Hba Hp.
  destruct (four_bytes a Hla Hba) as (a0 & a1 & a2 & a3 & -> & ? & ? & ? & ?).
  prefix_cases Hp.
  repeat (destruct Hp as [<- | Hp];
          [ compute_mask;
            cbn -[Z.land Z.div Z.modulo Z.mul Z.add Z.eqb Z.leb Z.ltb];
            use_land_mask;
            split; [reflexivity |];
            split;
            [ rewrite !andb_true_iff, !Z.leb_le, !Z.ltb_lt;
              repeat split; Z.div_mod_to_equations; lia
            | Z.div_mod_to_equations; lia ] | ]).
  contradiction.
Qed.

Lemma numBE_four (a : list Z) :
  List.length a = 4%nat -> bytesOk a = true ->
  0 <= numBE a < 4294967296 /\ bytes4 (numBE a) = a.
Proof.
  intros Hla Hba.
  destruct (four_bytes a Hla Hba) as (a0 & a1 & a2 & a3 & -> & ? & ? & ? & ?).
  unfold bytes4. cbn -[Z.div Z.modulo Z.mul Z.add].
  split; [lia |].
  repeat f_equal; Z.div_mod_to_equations; lia.
Qed.

Lemma bytes4_numeric (n : Z) :
  0 <= n < 4294967296 ->
  List.length (bytes4 n) = 4%nat
  /\ bytesOk (bytes4 n) = true
  /\ numBE (bytes4 n) = n.
Proof.
  intros Hn. split; [reflexivity |]. unfold bytes4. split.
  - cbn -[Z.div Z.modulo].
    rewrite !andb_true_iff, !Z.leb_le, !Z.ltb_lt.
    repeat split; Z.div_mod_to_equations; lia.
  - cbn -[Z.div Z.modulo Z.mul Z.add]. Z.div_mod_to_equations. lia.
Qed.

(** [incIP] on the four bytes of a number. *)
Lemma incIP_bytes4 (n : Z) :
  0 <= n < 4294967296 ->
  incIP (bytes4 n) = bytes4 ((n + 1) mod 4294967296).
Proof.
  intros Hn. destruct (bytes4_numeric n Hn) as (Hl & Hb & Hnum).
  destruct (incRev_spec (List.rev (bytes4 n))) as (Hok & Hlen & Hinc).
  { rewrite bytesOk_rev. exact Hb. }
  assert (bytesOk (incIP (bytes4 n)) = true) as Hok'.
  { unfold incIP. rewrite bytesOk_rev. exact Hok. }
  assert (List.length (incIP (bytes4 n)) = 4%nat) as Hlen'.
  { unfold incIP. rewrite length_rev, Hlen, length_rev. exact Hl. }
  destruct (numBE_four _ Hlen' Hok') as [_ Heq]. rewrite <- Heq. f_equal.
  unfold incIP. rewrite numBE_rev, Hinc, <- numBE_rev, rev_involutive.
  rewrite length_rev, Hl, Hnum. reflexivity.
Qed.

Lemma firstn_seq_exact (s n k : nat) : firstn n (seq s (n + k)) = seq s n.
Proof.
  revert s. induction n as [|n IH]; intros s; [reflexivity |].
  simpl. rewrite IH. reflexivity.
Qed.

Section Facts.

Variable ipv6String : GoNet.IP -> string.
Variable parseIPv6 : string -> option (list Z * string).

Local Abbreviation IP_String := (GoNet.IP_String ipv6String).
Local Abbreviation enumerate := (FullRange.enumerate ipv6String).
Local Abbreviation getNetworkRange :=
  (FullRange.getNetworkRange ipv6String parseIPv6).
Local Abbreviation ParseCIDR := (GoNet.ParseCIDR parseIPv6).

(** The dotted text of the address with number [n]. *)
Definition textOf (n : Z) : string := dotted (bytes4 n).

Lemma IP_String_bytes4 (n : Z) : IP_String (bytes4 n) = textOf n.
Proof. reflexivity. Qed.

(** The loop over an IPv4 block of prefix length at least 1: started
    [j] addresses after the network number, it appends the remaining
    addresses of the block in ascending order and stops at the first
    address after the block. *)
Lemma enumerate_block (a : list Z) (p : Z) :
  List.length a = 4%nat -> bytesOk a = true -> 1 <= p <= 32 ->
  let size := 2 ^ (32 - p) in
  let base := size * (numBE a / size) in
  let ipnet := mkIPNet (masked a (CIDRMask p 32)) (CIDRMask p 32) in
  forall (k : nat) (j : Z) (fuel : nat) (acc : list string),
    0 <= j -> j + Z.of_nat k = size -> (k < fuel)%nat ->
    enumerate fuel ipnet (bytes4 ((base + j) mod 4294967296)) acc
    = Some (acc ++ map (fun i => textOf (base + j + Z.of_nat i)) (seq 0 k))%list.
Proof.
  intros Hla Hba Hp size base ipnet.
  destruct (numBE_four a Hla Hba) as [Ha _].
  set (q := numBE a / size) in *.
  set (T := 2 ^ p).
  assert (0 < size) as Hsize by (apply Z.pow_pos_nonneg; lia).
  assert (2 <= T) as HT.
  { unfold T. change 2 with (2 ^ 1) at 1. apply Z.pow_le_mono_r; lia. }
  assert (size * T = 4294967296) as HST.
  { unfold size, T. rewrite <- Z.pow_add_r by lia.
    replace (32 - p + p) with 32 by lia. reflexivity. }
  assert (0 <= q < T) as Hq.
  { unfold q. split; [apply Z.div_pos; lia |].
    apply Z.div_lt_upper_bound; lia. }
  assert (forall x, 0 <= x < 4294967296 ->
            Contains ipnet (bytes4 x) = (x / size =? q)) as Hcont.
  { intros x Hx. destruct (bytes4_numeric x Hx) as (Hl & Hb & Hn).
    unfold ipnet. rewrite (Contains_numeric a (bytes4 x) p Hla Hba Hl Hb) by lia.
    rewrite Hn. reflexivity. }
  induction k as [|k IH]; intros j fuel acc Hj Hjk Hfuel.
  - destruct fuel as [|fuel]; [lia |]. cbn [FullRange.enumerate seq map].
    rewrite app_nil_r.
    assert (j = size) as -> by lia.
    assert (0 <= (base + size) mod 4294967296 < 4294967296) as Hx
      by (apply Z.mod_pos_bound; lia).
    rewrite (Hcont _ Hx).
    assert (((base + size) mod 4294967296) / size <> q) as Hne.
    { unfold base. destruct (Z.eq_dec (q + 1) T) as [HeT | HnT].
      - replace (size * q + size) with 4294967296 by nia.
        rewrite Z.mod_same by lia. rewrite Z.div_0_l by lia. lia.
      - rewrite Z.mod_small by nia.
        replace (size * q + size) with ((q + 1) * size) by lia.
        rewrite Z.div_mul by lia. lia. }
    apply Z.eqb_neq in Hne. rewrite Hne. reflexivity.
  - destruct fuel as [|fuel]; [lia |]. cbn [FullRange.enumerate].
    assert (0 <= base + j < 4294967296) as Hx by (unfold base; nia).
    rewrite (Z.mod_small (base + j)) by lia.
    rewrite (Hcont _ Hx).
    assert ((base + j) / size = q) as Hd.
    { symmetry. apply (Z.div_unique (base + j) size q j); [lia |].
      unfold base. lia. }
    rewrite Hd, Z.eqb_refl.
    rewrite (incIP_bytes4 _ Hx), IP_String_bytes4.
    replace (base + j + 1) with (base + (j + 1)) by lia.
    rewrite (IH (j + 1) fuel) by lia.
    rewrite <- app_assoc. f_equal. f_equal. cbn [seq map app].
    replace (base + j + Z.of_nat 0) with (base + j) by lia.
    rewrite <- seq_shift, map_map.
    change ([textOf (base + j)] ++ ?l)%list with (textOf (base + j) :: l).
    f_equal. apply map_ext. intros i. f_equal. lia.
Qed.

(** The addresses [getNetworkRange] returns for a block of [size]
    addresses whose network number is [base]: all of them when there
    are at most two, and otherwise all but the first and the last. *)
Definition hostTexts (base size : Z) : list string :=
  let n := Z.to_nat size in
  if (2 <? n)%nat
  then map (fun i => textOf (base + Z.of_nat i)) (seq 1 (n - 2))
  else map (fun i => textOf (base + Z.of_nat i)) (seq 0 n).

Lemma dropEnds_map_seq (f : nat -> string) (n : nat) :
  (2 < n)%nat -> dropEnds (map f (seq 0 n)) = map f (seq 1 (n - 2)).
Proof.
  intros Hn. unfold dropEnds.
  rewrite length_map, length_seq, skipn_map, firstn_map, skipn_seq.
  f_equal. replace (n - 1)%nat with ((n - 2) + 1)%nat by lia.
  apply firstn_seq_exact.
Qed.

(** X9.  For the text of an IPv4 block of prefix length [p] from 1 to
    32, once the loop is given more than 2^(32-p) tests,
    [getNetworkRange] of [main.go] returns the addresses of the block
    in ascending order: all but the network and the broadcast address
    when the block has more than two addresses, and the whole block
    (both addresses of a /31, the address of a /32) otherwise. *)
Theorem full_range_lists_the_hosts (fuel : nat) (cidr : string)
    (ip : GoNet.IP) (ipnet : IPNet) :
  RangeMore.cidrFamily cidr = FamV4 ->
  ParseCIDR cidr = Some (ip, ipnet) ->
  exists p,
    0 <= p <= 32
    /\ netMask ipnet = CIDRMask p 32
    /\ (1 <= p -> 2 ^ (32 - p) < Z.of_nat fuel ->
        getNetworkRange fuel cidr
        = Some (Ok (hostTexts (numBE (netIP ipnet)) (2 ^ (32 - p))))).
Proof.
  intros Hfam Hparse.
  destruct (RangeMore.ParseCIDR_IPv4 _ _ _ _ Hfam Hparse)
    as (a & b & c & d & p & Hok & Hp & -> & Hm & Hn).
  exists p. split; [exact Hp |]. split; [exact Hm |].
  intros Hp1 Hfuel.
  destruct ipnet as [nn m]. cbn [netIP netMask] in *. subst m.
  fold (masked [a; b; c; d] (CIDRMask p 32)) in Hn. subst nn.
  unfold FullRange.getNetworkRange. rewrite Hparse. cbn [netMask].
  unfold IPv4.
  rewrite (RangeMore.Mask_mapped [a; b; c; d] _ eq_refl
             (RangeMore.CIDRMask32_length p)).
  fold (masked [a; b; c; d] (CIDRMask p 32)).
  destruct (masked_numeric [a; b; c; d] p eq_refl Hok Hp) as (Hl & Hb & Hnum).
  destruct (numBE_four _ Hl Hb) as [Hrange Hbytes].
  set (size := 2 ^ (32 - p)) in *.
  assert (0 < size) as Hsize by (apply Z.pow_pos_nonneg; lia).
  pose proof (enumerate_block [a; b; c; d] p eq_refl Hok ltac:(lia)
                (Z.to_nat size) 0 fuel []) as Hrun.
  cbv zeta in Hrun. fold size in Hrun. rewrite <- Hnum in Hrun.
  rewrite Z.add_0_r, Z.mod_small, Hbytes in Hrun by lia.
  rewrite Hrun by lia. rewrite !app_nil_l.
  rewrite length_map, length_seq. unfold hostTexts.
  destruct (2 <? Z.to_nat size)%nat eqn:E; [| reflexivity].
  apply Nat.ltb_lt in E. rewrite (dropEnds_map_seq _ _ E). reflexivity.
Qed.

(** X10.  For the text of an IPv4 block of prefix length 0 the loop of
    [getNetworkRange] of [main.go] never ends: every address is in the
    block, and [incIP] wraps round from 255.255.255.255 to 0.0.0.0, so
    no bound on the number of tests is enough. *)
Theorem full_range_of_slash_zero_never_returns (fuel : nat) (cidr : string)
    (ip : GoNet.IP) (ipnet : IPNet) :
  RangeMore.cidrFamily cidr = FamV4 ->
  ParseCIDR cidr = Some (ip, ipnet) ->
  netMask ipnet = CIDRMask 0 32 ->
  getNetworkRange fuel cidr = None.
Proof.
  intros Hfam Hparse Hmask.
  destruct (RangeMore.ParseCIDR_IPv4 _ _ _ _ Hfam Hparse)
    as (a & b & c & d & p & Hok & Hp & -> & Hm & Hn).
  destruct ipnet as [nn m]. cbn [netIP netMask] in *.
  rewrite <- Hm, Hmask in Hn. rewrite Hmask in Hparse. clear Hm Hmask m.
  change (CIDRMask 0 32) with [0; 0; 0; 0] in *.
  cbn [map combine] in Hn. rewrite ?Z.land_0_r in Hn. subst nn.
  unfold FullRange.getNetworkRange. rewrite Hparse. cbn [netMask].
  assert (forall x, List.length x = 4%nat ->
            Contains (mkIPNet [0; 0; 0; 0] [0; 0; 0; 0]) x = true) as Hall.
  { intros x Hx.
    destruct x as [|x0 [|x1 [|x2 [|x3 [|x4 x]]]]]; try discriminate.
    cbn. rewrite !Z.land_0_r. reflexivity. }
  assert (forall f x acc, List.length x = 4%nat ->
            enumerate f (mkIPNet [0; 0; 0; 0] [0; 0; 0; 0]) x acc = None)
    as Hloop.
  { induction f as [|f IH]; intros x acc Hx; [reflexivity |].
    cbn [FullRange.enumerate]. rewrite (Hall x Hx).
    apply IH. rewrite incIP_length. exact Hx. }
  unfold IPv4.
  rewrite (RangeMore.Mask_mapped [a; b; c; d] [0; 0; 0; 0] eq_refl eq_refl).
  rewrite Hloop; reflexivity.
Qed.

(** X8.  [incIP] adds one to the address read as a number, most
    significant byte first, and wraps to zero after the address of all
    255; the slice keeps its length and its elements stay bytes. *)
Theorem incIP_adds_one (ip : GoNet.IP) :
  bytesOk ip = true ->
  bytesOk (incIP ip) = true
  /\ List.length (incIP ip) = List.length ip
  /\ numBE (incIP ip) = (numBE ip + 1) mod 256 ^ Z.of_nat (List.length ip).
Proof.
  intros H. unfold incIP.
  rewrite <- bytesOk_rev in H.
  destruct (incRev_spec _ H) as (Hok & Hlen & Hnum).
  rewrite bytesOk_rev, length_rev, Hlen, length_rev.
  rewrite numBE_rev, Hnum, <- numBE_rev, rev_involutive, length_rev.
  auto.
Qed.

End Facts.

Lemma incIP_adds_one_witness :
  bytesOk [192; 168; 0; 255] = true
  /\ incIP [192; 168; 0; 255] = [192; 168; 1; 0]
  /\ incIP [255; 255; 255; 255] = [0; 0; 0; 0]
  /\ numBE (incIP [192; 168; 0; 255])
     = (numBE [192; 168; 0; 255] + 1) mod 256 ^ Z.of_nat 4.
Proof.
  split; [reflexivity |]. split; [reflexivity |]. split; [reflexivity |].
  exact (proj2 (proj2 (incIP_adds_one [192; 168; 0; 255] eq_refl))).
Defined.

Lemma full_range_witness :
  FullRange.getNetworkRange RangeFacts.noIPv6Text RangeFacts.noIPv6Parser 5
    "192.168.1.77/30"
  = Some (Ok ["192.168.1.77"; "192.168.1.78"])
  /\ exists p,
       0 <= p <= 32
       /\ netMask (mkIPNet [192; 168; 1; 76] [255; 255; 255; 252])
          = CIDRMask p 32
       /\ (1 <= p -> 2 ^ (32 - p) < Z.of_nat 5 ->
           FullRange.getNetworkRange RangeFacts.noIPv6Text
             RangeFacts.noIPv6Parser 5 "192.168.1.77/30"
           = Some (Ok (hostTexts
                         (numBE (netIP (mkIPNet [192; 168; 1; 76]
                                          [255; 255; 255; 252])))
                         (2 ^ (32 - p))))).
Proof.
  split; [vm_compute; reflexivity |].
  exact (full_range_lists_the_hosts RangeFacts.noIPv6Text
           RangeFacts.noIPv6Parser 5 "192.168.1.77/30"
           (IPv4 192 168 1 77) (mkIPNet [192; 168; 1; 76] [255; 255; 255; 252])
           eq_refl eq_refl).
Defined.

Lemma slash_zero_witness :
  RangeMore.cidrFamily "10.0.0.7/0" = FamV4
  /\ FullRange.getNetworkRange RangeFacts.noIPv6Text RangeFacts.noIPv6Parser
       1000 "10.0.0.7/0" = None.
Proof.
  split; [reflexivity |].
  exact (full_range_of_slash_zero_never_returns RangeFacts.noIPv6Text
           RangeFacts.noIPv6Parser 1000 "10.0.0.7/0"
           (IPv4 10 0 0 7) (mkIPNet [0; 0; 0; 0] [0; 0; 0; 0])
           eq_refl eq_refl eq_refl).
Defined.

End FullRangeFacts.

(** ** From the enumerator to the range deriver: the start of [main] *)

Module Setup.
Import GoStrings GoNet Enumerator.

Section Pipeline.

Variable ipv6String : GoNet.IP -> string.
Variable parseIPv6 : string -> option (list Z * string).

(** The start of [main] in [main.go], up to the candidate addresses:
    the interfaces are listed, the first entry is selected and its
    [CIDR] text is given to [getNetworkRange]; an error of any of the
    three ends the run.  [fuel] bounds the loop of [getNetworkRange]. *)
Definition candidates (fuel : nat) (sys : option (list Interface))
    : option (result (list string)) :=
  match getLocalInterfaces ipv6String sys with
  | Err e => Some (Err e)
  | Ok interfaces =>
      match selectInterface interfaces with
      | Err e => Some (Err e)
      | Ok selectedInterface =>
          FullRange.getNetworkRange ipv6String parseIPv6 fuel
            (CIDR selectedInterface)
      end
  end.

(** The same start in the variant with [minHost] and [maxHost]. *)
Definition candidatesBounded (sys : option (list Interface))
    : result (list string) :=
  match getLocalInterfaces ipv6String sys with
  | Err e => Err e
  | Ok interfaces =>
      match selectInterface interfaces with
      | Err e => Err e
      | Ok selectedInterface =>
          Range.getNetworkRange ipv6String parseIPv6 (CIDR selectedInterface)
      end
  end.

End Pipeline.

End Setup.

Module SetupFacts.
Import GoStrings GoNet Enumerator Setup.

Local Abbreviation bytesOk := EnumeratorFacts.bytesOk.
Local Abbreviation masked := FullRangeFacts.masked.

(** The state of the IPv4 parser after the digits [ds] of one octet. *)
Fixpoint octetScan (ds : string) (val digLen : Z) : option (Z * Z) :=
  match ds with
  | EmptyString => Some (val, digLen)
  | String c rest =>
      if isDigit c then
        if (digLen =? 1) && (val =? 0) then None
        else
          let val := val * 10 + (byteval c - 48) in
          if 255 <? val then None else octetScan rest val (digLen + 1)
      else None
  end.

Fixpoint allDigits (s : string) : bool :=
  match s with
  | EmptyString => true
  | String c rest => isDigit c && allDigits rest
  end.

Fixpoint noSlash (s : string) : bool :=
  match s with
  | EmptyString => true
  | String c rest => negb (byteval c =? 47) && noSlash rest
  end.

Lemma append_nil_r (s : string) : (s ++ EmptyString)%string = s.
Proof.
  induction s as [|c s IH]; simpl; [reflexivity | rewrite IH; reflexivity].
Qed.

Lemma parse_octet (c : ascii) (ds rest : string) (first prevDot : bool)
    (val digLen v dl : Z) (fields : list Z) :
  octetScan (String c ds) val digLen = Some (v, dl) ->
  parseIPv4Fields (String c ds ++ rest) first prevDot val digLen fields
  = parseIPv4Fields rest false false v dl fields.
Proof.
  revert c first prevDot val digLen.
  induction ds as [|c' ds IH]; intros c first prevDot val digLen H;
    cbn [octetScan append parseIPv4Fields] in *;
    destruct (isDigit c); try discriminate;
    destruct ((digLen =? 1) && (val =? 0)); try discriminate;
    destruct (255 <? val * 10 + (byteval c - 48)); try discriminate.
  - inversion H; subst. reflexivity.
  - apply (IH c' false false _ _ H).
Qed.

Lemma noSlash_append (s t : string) :
  noSlash (s ++ t) = noSlash s && noSlash t.
Proof.
  induction s as [|c s IH]; [reflexivity |].
  cbn [append noSlash]. rewrite IH. apply andb_assoc.
Qed.

Lemma cutSlash_noSlash (s t : string) :
  noSlash s = true -> cutSlash (s ++ String "/" t) = Some (s, t).
Proof.
  induction s as [|c s IH]; intros H; [reflexivity |].
  cbn [noSlash] in H. apply andb_prop in H. destruct H as [Hc Hs].
  cbn [append cutSlash]. apply negb_true_iff in Hc. rewrite Hc, (IH Hs).
  reflexivity.
Qed.

Lemma isDigit_marks (c : ascii) :
  isDigit c = true ->
  (byteval c =? 46) = false /\ (byteval c =? 58) = false
  /\ (byteval c =? 37) = false /\ (byteval c =? 47) = false.
Proof.
  unfold isDigit. intros H. apply andb_prop in H. destruct H as [H1 H2].
  apply Z.leb_le in H1. apply Z.leb_le in H2.
  repeat split; apply Z.eqb_neq; lia.
Qed.

Lemma allDigits_noSlash (s : string) : allDigits s = true -> noSlash s = true.
Proof.
  induction s as [|c s IH]; [reflexivity |].
  cbn [allDigits noSlash]. intros H. apply andb_prop in H. destruct H as [Hc Hs].
  destruct (isDigit_marks c Hc) as (_ & _ & _ & H47).
  rewrite H47, (IH Hs). reflexivity.
Qed.

Lemma addrFamily_digits (s rest : string) :
  allDigits s = true -> addrFamily (s ++ String "." rest) = FamV4.
Proof.
  induction s as [|c s IH]; [reflexivity |].
  cbn [allDigits append addrFamily]. intros H.
  apply andb_prop in H. destruct H as [Hc Hs].
  destruct (isDigit_marks c Hc) as (H46 & H58 & H37 & _).
  rewrite H46, H58, H37. apply IH. exact Hs.
Qed.

(** The decimal text of a byte is made of digits, is not empty, and is
    read back as that byte. *)
Definition octetText (b : Z) : bool :=
  match uitoa b with
  | EmptyString => false
  | String c ds =>
      allDigits (uitoa b)
      && match octetScan (uitoa b) 0 0 with
         | Some (v, _) => v =? b
         | None => false
         end
  end.

Lemma octetText_all : forallb octetText EnumeratorFacts.byteValues = true.
Proof. vm_compute. reflexivity. Qed.

Lemma octetText_byte (b : Z) :
  0 <= b < 256 ->
  exists c ds dl,
    uitoa b = String c ds
    /\ allDigits (uitoa b) = true
    /\ octetScan (String c ds) 0 0 = Some (b, dl).
Proof.
  intros H. pose proof octetText_all as Hall. rewrite forallb_forall in Hall.
  specialize (Hall b (EnumeratorFacts.In_byteValues b H)).
  unfold octetText in Hall.
  destruct (uitoa b) as [|c ds] eqn:E; [discriminate |].
  apply andb_prop in Hall. destruct Hall as [Hd Hs].
  destruct (octetScan (String c ds) 0 0) as [[v dl]|] eqn:Eo; [| discriminate].
  apply Z.eqb_eq in Hs. subst v. exists c, ds, dl.
  split; [reflexivity |]. split; [exact Hd | exact Eo].
Qed.

(** The prefix length, as printed, is read back by [dtoi], and the mask
    of a prefix length has that simple length. *)
Definition prefixText (p : Z) : bool :=
  (let '(n, i, ok) := dtoi (uitoa p) in
   (n =? p) && (i =? Z.of_nat (String.length (uitoa p))) && ok)
  && (simpleMaskLength (CIDRMask p 32) =? p).

Lemma prefixText_all : forallb prefixText RangeMore.prefixLengths = true.
Proof. vm_compute. reflexivity. Qed.

Lemma prefixText_length (p : Z) :
  0 <= p <= 32 ->
  dtoi (uitoa p) = (p, Z.of_nat (String.length (uitoa p)), true)
  /\ simpleMaskLength (CIDRMask p 32) = p.
Proof.
  intros H. pose proof prefixText_all as Hall. rewrite forallb_forall in Hall.
  specialize (Hall p (RangeMore.In_prefixLengths p H)).
  unfold prefixText in Hall.
  apply andb_prop in Hall. destruct Hall as [Hd Hs].
  apply Z.eqb_eq in Hs. split; [| exact Hs].
  destruct (dtoi (uitoa p)) as [[n i] ok].
  apply andb_prop in Hd. destruct Hd as [Hd Hok].
  apply andb_prop in Hd. destruct Hd as [Hn Hi].
  apply Z.eqb_eq in Hn. apply Z.eqb_eq in Hi. subst. reflexivity.
Qed.

Lemma parse_dot (c : ascii) (ds rest : string) (val digLen : Z)
    (fields : list Z) :
  (List.length fields < 3)%nat ->
  parseIPv4Fields ("." ++ String c ds ++ rest) false false val digLen fields
  = parseIPv4Fields (String c ds ++ rest) false true 0 0 (fields ++ [val])%list.
Proof.
  intros H. cbn [append parseIPv4Fields].
  change (isDigit ".") with false. change (byteval "." =? 46) with true.
  cbn [orb]. destruct (List.length fields =? 3)%nat eqn:E; [| reflexivity].
  apply Nat.eqb_eq in E. lia.
Qed.

(** The dotted text of four bytes is parsed back to the four bytes. *)
Lemma parse_dotted (a b c d : Z) :
  bytesOk [a; b; c; d] = true ->
  parseIPv4Fields (dotted [a; b; c; d]) true false 0 0 [] = Some [a; b; c; d]
  /\ noSlash (dotted [a; b; c; d]) = true
  /\ addrFamily (dotted [a; b; c; d]) = FamV4.
Proof.
  intros Hok.
  pose proof (EnumeratorFacts.bytesOk_nth _ 0 Hok) as Ha.
  pose proof (EnumeratorFacts.bytesOk_nth _ 1 Hok) as Hb.
  pose proof (EnumeratorFacts.bytesOk_nth _ 2 Hok) as Hc.
  pose proof (EnumeratorFacts.bytesOk_nth _ 3 Hok) as Hd.
  cbn [nth] in Ha, Hb, Hc, Hd.
  destruct (octetText_byte a Ha) as (ca & sa & la & Ea & Da & Sa).
  destruct (octetText_byte b Hb) as (cb & sb & lb & Eb & Db & Sb).
  destruct (octetText_byte c Hc) as (cc & sc & lc & Ec & Dc & Sc).
  destruct (octetText_byte d Hd) as (cd & sd & ld & Ed & Dd & Sd).
  unfold dotted. cbn [nth]. split; [| split].
  - rewrite Ea, Eb, Ec, Ed.
    rewrite (parse_octet _ _ _ _ _ _ _ _ _ _ Sa).
    rewrite (parse_dot cb sb); [| simpl; lia].
    rewrite (parse_octet _ _ _ _ _ _ _ _ _ _ Sb).
    rewrite (parse_dot cc sc); [| simpl; lia].
    rewrite (parse_octet _ _ _ _ _ _ _ _ _ _ Sc).
    rewrite <- (append_nil_r (String cd sd)).
    rewrite (parse_dot cd sd); [| simpl; lia].
    rewrite (parse_octet _ _ _ _ _ _ _ _ _ _ Sd).
    reflexivity.
  - rewrite !noSlash_append.
    rewrite (allDigits_noSlash _ Da), (allDigits_noSlash _ Db),
            (allDigits_noSlash _ Dc), (allDigits_noSlash _ Dd).
    reflexivity.
  - apply addrFamily_digits. exact Da.
Qed.

Lemma To4_length (ip p4 : GoNet.IP) :
  To4 ip = Some p4 -> List.length p4 = 4%nat.
Proof.
  unfold To4. intros H.
  destruct (List.length ip =? IPv4len)%nat eqn:E4.
  - inversion H; subst. apply Nat.eqb_eq in E4. exact E4.
  - destruct (_ && _ && _ && _) eqn:E; [| discriminate].
    injection H as <-.
    repeat (apply andb_prop in E; destruct E as [E _]).
    apply Nat.eqb_eq in E.
    change (List.length (skipn 12 ip) = 4%nat).
    rewrite length_skipn, E. reflexivity.
Qed.

Lemma bytesEqual_eq (x y : list Z) : bytesEqual x y = true -> x = y.
Proof.
  unfold bytesEqual. revert y.
  induction x as [|a x IH]; intros [|b y] H; simpl in H; try discriminate.
  - reflexivity.
  - apply andb_prop in H. destruct H as [Hl H].
    apply andb_prop in H. destruct H as [Hab H].
    apply Z.eqb_eq in Hab. subst b. f_equal. apply IH.
    rewrite Hl, H. reflexivity.
Qed.

(** The mask of a prefix length, as [net.CIDRMask(prefix, 32)] builds
    it. *)
Definition prefixMask (m : IPMask) : bool :=
  existsb (fun p => bytesEqual m (CIDRMask p 32)) RangeMore.prefixLengths.

(** Addresses as the operating system reports them: the octets are
    bytes, and an address that has a 4-byte form carries the mask of a
    prefix length.  Nothing is asked of the mask of the other addresses
    (IPv6), nor of addresses that are no [*net.IPNet]. *)
Definition addrPlain (addr : Addr) : bool :=
  match addr with
  | AddrIPNet ipNet =>
      bytesOk (netIP ipNet)
      && match To4 (netIP ipNet) with
         | Some _ => prefixMask (netMask ipNet)
         | None => true
         end
  | AddrOther => true
  end.

Definition interfacePlain (iface : Interface) : bool :=
  forallb addrPlain (reportedAddrs iface).

Lemma prefixMask_length (m : IPMask) :
  prefixMask m = true -> exists p, 0 <= p <= 32 /\ m = CIDRMask p 32.
Proof.
  unfold prefixMask. intros H. apply existsb_exists in H.
  destruct H as (p & Hin & Heq). exists p.
  split; [| apply bytesEqual_eq; exact Heq].
  unfold RangeMore.prefixLengths in Hin. apply in_map_iff in Hin.
  destruct Hin as (k & <- & Hk). apply in_seq in Hk. lia.
Qed.

Lemma interfacePlain_Ok (interfaces : list Interface) :
  forallb interfacePlain interfaces = true ->
  forallb EnumeratorFacts.interfaceOk interfaces = true.
Proof.
  intros H. rewrite forallb_forall in *. intros iface Hin.
  specialize (H iface Hin). unfold interfacePlain in H.
  unfold EnumeratorFacts.interfaceOk. rewrite forallb_forall in *.
  intros addr Ha. specialize (H addr Ha).
  destruct addr as [ipNet|]; [| reflexivity].
  simpl in *. apply andb_prop in H. tauto.
Qed.

Section Facts.

Variable ipv6String : GoNet.IP -> string.
Variable parseIPv6 : string -> option (list Z * string).

Local Abbreviation IP_String := (GoNet.IP_String ipv6String).
Local Abbreviation IPNet_String := (GoNet.IPNet_String ipv6String).
Local Abbreviation ParseCIDR := (GoNet.ParseCIDR parseIPv6).
Local Abbreviation getLocalInterfaces := (Enumerator.getLocalInterfaces ipv6String).
Local Abbreviation specEntries := (Enumerator.specEntries ipv6String).
Local Abbreviation candidates := (Setup.candidates ipv6String parseIPv6).
Local Abbreviation candidatesBounded :=
  (Setup.candidatesBounded ipv6String parseIPv6).

Lemma IPNet_String_prefix (ip p4 : GoNet.IP) (p : Z) :
  To4 ip = Some p4 -> 0 <= p <= 32 ->
  IPNet_String (mkIPNet ip (CIDRMask p 32))
  = (dotted p4 ++ "/" ++ uitoa p)%string.
Proof.
  intros Ht Hp. pose proof (To4_length _ _ Ht) as Hl.
  unfold GoNet.IPNet_String, networkNumberAndMask. cbn [netIP netMask].
  rewrite Ht, (RangeMore.CIDRMask32_length p), Hl. cbn [Nat.eqb IPv4len].
  destruct (prefixText_length p Hp) as [_ Hs]. rewrite Hs.
  assert ((p =? -1) = false) as -> by (apply Z.eqb_neq; lia).
  assert (To4 p4 = Some p4) as Ht4.
  { unfold To4. rewrite Hl. reflexivity. }
  rewrite (EnumeratorFacts.IP_String_To4 ipv6String _ _ Ht4). reflexivity.
Qed.

Lemma ParseCIDR_prefix (p4 : GoNet.IP) (p : Z) :
  List.length p4 = 4%nat -> bytesOk p4 = true -> 0 <= p <= 32 ->
  RangeMore.cidrFamily (dotted p4 ++ "/" ++ uitoa p) = FamV4
  /\ ParseCIDR (dotted p4 ++ "/" ++ uitoa p)
     = Some ((v4InV6Prefix ++ p4)%list,
             mkIPNet (masked p4 (CIDRMask p 32)) (CIDRMask p 32)).
Proof.
  intros Hl Hok Hp.
  destruct p4 as [|a [|b [|c [|d [|e p4]]]]]; try discriminate.
  destruct (parse_dotted a b c d Hok) as (Hparse & Hns & Hfam).
  destruct (prefixText_length p Hp) as [Hd _].
  assert (cutSlash (dotted [a; b; c; d] ++ "/" ++ uitoa p)
          = Some (dotted [a; b; c; d], uitoa p)) as Hcut
    by (apply (cutSlash_noSlash _ (uitoa p) Hns)).
  split.
  - unfold RangeMore.cidrFamily. rewrite Hcut. exact Hfam.
  - unfold GoNet.ParseCIDR. rewrite Hcut. unfold GoNet.ParseAddr.
    rewrite Hfam, Hparse. cbn [String.eqb negb]. rewrite Hd.
    rewrite Z.eqb_refl. cbn [negb orb].
    assert ((p <? 0) = false) as -> by (apply Z.ltb_ge; lia).
    assert ((32 <? p) = false) as -> by (apply Z.ltb_ge; lia).
    rewrite (RangeMore.Mask_mapped [a; b; c; d] _ eq_refl
               (RangeMore.CIDRMask32_length p)).
    reflexivity.
Qed.

(** X11.  The block text the enumerator stores for an IPv4 address with
    a prefix mask is the dotted address, a slash and the prefix length,
    and [net.ParseCIDR] reads it back: the address in its 16-byte form,
    the address masked, and the same mask. *)
Theorem cidr_text_is_read_back (ip p4 : GoNet.IP) (p : Z) :
  To4 ip = Some p4 -> bytesOk p4 = true -> 0 <= p <= 32 ->
  IPNet_String (mkIPNet ip (CIDRMask p 32))
  = (dotted p4 ++ "/" ++ uitoa p)%string
  /\ ParseCIDR (IPNet_String (mkIPNet ip (CIDRMask p 32)))
     = Some ((v4InV6Prefix ++ p4)%list,
             mkIPNet (masked p4 (CIDRMask p 32)) (CIDRMask p 32)).
Proof.
  intros Ht Hok Hp. rewrite (IPNet_String_prefix _ _ _ Ht Hp).
  split; [reflexivity |].
  apply (ParseCIDR_prefix p4 p (To4_length _ _ Ht) Hok Hp).
Qed.

(** X12.  An entry list [getLocalInterfaces] returns without error is
    not empty, so the error branch of [selectInterface] in [main.go] is
    never taken: the first entry is selected. *)
Theorem selection_never_fails (sys : option (list Interface))
    (interfaces : list InterfaceInfo) :
  getLocalInterfaces sys = Ok interfaces ->
  exists first rest,
    interfaces = first :: rest /\ selectInterface interfaces = Ok first.
Proof.
  unfold Enumerator.getLocalInterfaces. intros H.
  destruct sys as [ifs|]; [| discriminate].
  destruct (fold_left (Enumerator.appendInterface ipv6String) ifs [])
    as [|first rest]; [discriminate |].
  inversion H; subst. exists first, rest. split; reflexivity.
Qed.

(** The entries of plain interfaces carry the text of a block. *)
Lemma plain_entries (interfaces : list Interface) (e : InterfaceInfo) :
  forallb interfacePlain interfaces = true ->
  In e (specEntries interfaces) ->
  exists p4 p,
    List.length p4 = 4%nat /\ bytesOk p4 = true /\ 0 <= p <= 32
    /\ CIDR e = (dotted p4 ++ "/" ++ uitoa p)%string.
Proof.
  intros Hplain Hin. unfold Enumerator.specEntries in Hin.
  apply in_flat_map in Hin. destruct Hin as (iface & Hif & Hin).
  rewrite forallb_forall in Hplain. specialize (Hplain iface Hif).
  destruct (isUp iface && negb (isLoopback iface)); [| contradiction].
  apply in_flat_map in Hin. destruct Hin as (addr & Ha & Hin).
  apply filter_In in Ha. destruct Ha as [Ha Hq].
  unfold interfacePlain in Hplain. rewrite forallb_forall in Hplain.
  specialize (Hplain addr Ha).
  destruct addr as [[ip m]|]; [| contradiction].
  cbn [addrPlain qualifying netIP netMask] in *.
  apply andb_prop in Hplain. destruct Hplain as [Hok Hm].
  destruct (To4 ip) as [p4|] eqn:Et; [| discriminate].
  destruct (prefixMask_length _ Hm) as (p & Hp & ->).
  destruct Hin as [<- | []]. cbn [CIDR].
  exists p4, p. split; [apply (To4_length _ _ Et) |].
  split; [apply (EnumeratorFacts.To4_bytesOk _ _ Hok Et) |].
  split; [exact Hp |]. apply (IPNet_String_prefix _ _ _ Et Hp).
Qed.

(** X13.  When the addresses [net.Interfaces] reports are made of
    bytes and the IPv4 ones carry the mask of a prefix length (IPv6
    addresses may be present, with any mask), the start of [main] fails
    only for want of a usable address, exactly when no address
    qualifies, or, in the variant with [minHost] and [maxHost], for an
    empty range: the text stored in [CIDR] always parses, and
    [selectInterface] never fails. *)
Theorem setup_fails_only_without_addresses (fuel : nat)
    (interfaces : list Interface) :
  forallb interfacePlain interfaces = true ->
  (forall e, candidates fuel (Some interfaces) = Some (Err e) ->
     e = ErrNoIPv4 /\ specEntries interfaces = [])
  /\ (forall e, candidatesBounded (Some interfaces) = Err e ->
        (e = ErrNoIPv4 /\ specEntries interfaces = [])
        \/ (e = ErrEmptyRange /\ specEntries interfaces <> [])).
Proof.
  intros Hplain.
  pose proof (EnumeratorFacts.fold_appendInterface ipv6String interfaces []
                (interfacePlain_Ok _ Hplain)) as Hfold.
  rewrite app_nil_l in Hfold.
  unfold Setup.candidates, Setup.candidatesBounded, Enumerator.getLocalInterfaces.
  rewrite Hfold.
  destruct (specEntries interfaces) as [|first rest] eqn:Es.
  - split; intros e He; [| left]; (split; [congruence | reflexivity]).
  - cbn [selectInterface].
    destruct (plain_entries interfaces first Hplain) as (p4 & p & Hl & Hok & Hp & Hc).
    { rewrite Es. left. reflexivity. }
    rewrite Hc.
    destruct (ParseCIDR_prefix p4 p Hl Hok Hp) as [Hfam Hparse].
    split; intros e He.
    + unfold FullRange.getNetworkRange in He. rewrite Hparse in He.
      destruct (FullRange.enumerate _ _ _ _ _); [| discriminate].
      destruct (2 <? _)%nat; discriminate.
    + right. split; [| discriminate].
      unfold Range.getNetworkRange in He. rewrite Hparse in He.
      destruct p4 as [|a [|b [|c [|d [|x p4]]]]]; try discriminate.
      destruct (RangeMore.parsed_IPv4_candidates a b c d p) as [Hbase _].
      cbv zeta in Hbase.
      pose proof (RangeFacts.rangeOf_cases ipv6String (IPv4 a b c d)
                    (mkIPNet (masked [a; b; c; d] (CIDRMask p 32))
                       (CIDRMask p 32))) as Hcases.
      unfold FullRangeFacts.masked in *. unfold IPv4 in *.
      rewrite Hbase in Hcases.
      destruct (RangeFacts.contained _ _); congruence.
Qed.

End Facts.

(** An interface with address 192.168.1.77/24. *)
Definition lanInterface : list Interface :=
  [ mkInterface "Ethernet" 19
      (Some [AddrIPNet (mkIPNet (IPv4 192 168 1 77) [255; 255; 255; 0])]) ].

Lemma cidr_text_witness :
  To4 (IPv4 192 168 1 77) = Some [192; 168; 1; 77]
  /\ bytesOk [192; 168; 1; 77] = true
  /\ 0 <= 24 <= 32
  /\ GoNet.IPNet_String RangeFacts.noIPv6Text
       (mkIPNet (IPv4 192 168 1 77) (CIDRMask 24 32))
     = (dotted [192; 168; 1; 77] ++ "/" ++ uitoa 24)%string
  /\ GoNet.ParseCIDR RangeFacts.noIPv6Parser
       (GoNet.IPNet_String RangeFacts.noIPv6Text
          (mkIPNet (IPv4 192 168 1 77) (CIDRMask 24 32)))
     = Some ((v4InV6Prefix ++ [192; 168; 1; 77])%list,
             mkIPNet (masked [192; 168; 1; 77] (CIDRMask 24 32))
               (CIDRMask 24 32)).
Proof.
  split; [reflexivity |]. split; [reflexivity |]. split; [lia |].
  apply (cidr_text_is_read_back RangeFacts.noIPv6Text
           RangeFacts.noIPv6Parser (IPv4 192 168 1 77)
           [192; 168; 1; 77] 24); [reflexivity | reflexivity | lia].
Defined.

Lemma selection_witness :
  Enumerator.getLocalInterfaces RangeFacts.noIPv6Text (Some lanInterface)
  = Ok [mkInterfaceInfo "Ethernet" "192.168.1.77" "192.168.1.77/24"]
  /\ exists first rest,
       [mkInterfaceInfo "Ethernet" "192.168.1.77" "192.168.1.77/24"]
       = first :: rest
       /\ selectInterface
            [mkInterfaceInfo "Ethernet" "192.168.1.77" "192.168.1.77/24"]
          = Ok first.
Proof.
  split; [vm_compute; reflexivity |].
  apply (selection_never_fails RangeFacts.noIPv6Text (Some lanInterface)).
  vm_compute. reflexivity.
Defined.

(** A machine whose only addresses are an IPv6 address and an IPv4
    link-local address. *)
Definition noUsableAddress : list Interface :=
  [ mkInterface "Ethernet" 19
      (Some [AddrIPNet
               (mkIPNet [254; 128; 0; 0; 0; 0; 0; 0; 0; 0; 0; 0; 0; 0; 0; 1]
                  [255; 255; 255; 255; 255; 255; 255; 255;
                   0; 0; 0; 0; 0; 0; 0; 0]);
             AddrIPNet (mkIPNet (IPv4 169 254 10 20) [255; 255; 0; 0])]) ].

(** A machine with an IPv6 address and the address 192.168.0.200/25,
    whose block holds none of the host numbers 100 to 110. *)
Definition upperHalf : list Interface :=
  [ mkInterface "Ethernet" 19
      (Some [AddrIPNet
               (mkIPNet [254; 128; 0; 0; 0; 0; 0; 0; 0; 0; 0; 0; 0; 0; 0; 1]
                  [255; 255; 255; 255; 255; 255; 255; 255;
                   0; 0; 0; 0; 0; 0; 0; 0]);
             AddrIPNet (mkIPNet (IPv4 192 168 0 200) [255; 255; 255; 128])]) ].

Lemma setup_witness :
  forallb interfacePlain noUsableAddress = true
  /\ Setup.candidates RangeFacts.noIPv6Text RangeFacts.noIPv6Parser 300
       (Some noUsableAddress) = Some (Err ErrNoIPv4)
  /\ (ErrNoIPv4 = ErrNoIPv4
      /\ Enumerator.specEntries RangeFacts.noIPv6Text noUsableAddress = [])
  /\ forallb interfacePlain upperHalf = true
  /\ Setup.candidatesBounded RangeFacts.noIPv6Text RangeFacts.noIPv6Parser
       (Some upperHalf) = Err ErrEmptyRange
  /\ ((ErrEmptyRange = ErrNoIPv4
       /\ Enumerator.specEntries RangeFacts.noIPv6Text upperHalf = [])
      \/ (ErrEmptyRange = ErrEmptyRange
          /\ Enumerator.specEntries RangeFacts.noIPv6Text upperHalf <> [])).
Proof.
  split; [vm_compute; reflexivity |].
  split; [vm_compute; reflexivity |].
  split.
  { apply (proj1 (setup_fails_only_without_addresses RangeFacts.noIPv6Text
                    RangeFacts.noIPv6Parser 300 noUsableAddress eq_refl)).
    vm_compute. reflexivity. }
  split; [vm_compute; reflexivity |].
  split; [vm_compute; reflexivity |].
  apply (proj2 (setup_fails_only_without_addresses RangeFacts.noIPv6Text
                  RangeFacts.noIPv6Parser 300 upperHalf eq_refl)).
  vm_compute. reflexivity.
Defined.

End SetupFacts.

(** ** Bytes of a string *)

Module TextFacts.
Import GoStrings StringFacts.

(** Every byte of [s] satisfies [P]. *)
Fixpoint allBytes (P : ascii -> bool) (s : string) : bool :=
  match s with
  | EmptyString => true
  | String c s' => P c && allBytes P s'
  end.

Definition isLF (c : ascii) : bool := byteval c =? 10.
Definition asciiByte (c : ascii) : bool := byteval c <? RuneSelf.
Definition noSpace (s : string) : bool := allBytes (fun c => negb (asciiSpace c)) s.
Definition allSpace (s : string) : bool := allBytes asciiSpace s.

Definition startsWithSpace (s : string) : bool :=
  match s with
  | String c _ => asciiSpace c
  | EmptyString => false
  end.

Definition endsWithSpace (s : string) : bool := startsWithSpace (rev s).

Lemma isASCII_allBytes (s : string) : isASCII s = allBytes asciiByte s.
Proof.
  induction s as [|c s IH]; simpl; [reflexivity |].
  rewrite IH. reflexivity.
Qed.

Lemma allBytes_app (P : ascii -> bool) (a b : string) :
  allBytes P (a ++ b) = allBytes P a && allBytes P b.
Proof.
  induction a as [|c a IH]; simpl; [reflexivity |].
  rewrite IH. apply andb_assoc.
Qed.

Lemma allBytes_rev (P : ascii -> bool) (s : string) :
  allBytes P (rev s) = allBytes P s.
Proof.
  induction s as [|c s IH]; simpl; [reflexivity |].
  rewrite allBytes_app, IH. simpl. rewrite andb_true_r. apply andb_comm.
Qed.

Lemma isASCII_app (a b : string) : isASCII (a ++ b) = isASCII a && isASCII b.
Proof. rewrite !isASCII_allBytes. apply allBytes_app. Qed.

Lemma isASCII_rev (s : string) : isASCII (rev s) = isASCII s.
Proof. rewrite !isASCII_allBytes. apply allBytes_rev. Qed.

Lemma length_append (a b : string) :
  String.length (a ++ b) = (String.length a + String.length b)%nat.
Proof.
  induction a as [|x a IH]; simpl; [reflexivity |]. rewrite IH. reflexivity.
Qed.

Lemma rev_append (a b : string) : rev (a ++ b) = rev b ++ rev a.
Proof.
  induction a as [|x a IH]; simpl.
  - rewrite SetupFacts.append_nil_r. reflexivity.
  - rewrite IH. apply EnumeratorFacts.append_assoc.
Qed.

Lemma rev_rev (s : string) : rev (rev s) = s.
Proof.
  induction s as [|c s IH]; simpl; [reflexivity |].
  rewrite rev_append, IH. reflexivity.
Qed.

Lemma prefix_append (sep post : string) : String.prefix sep (sep ++ post) = true.
Proof.
  induction sep as [|c sep IH]; simpl.
  - destruct post; reflexivity.
  - destruct (ascii_dec c c); [exact IH | congruence].
Qed.

(** [strings.Contains] holds exactly of the strings with an occurrence
    of the separator. *)
Lemma Contains_split (s sep : string) :
  Contains s sep = true -> exists pre post, s = pre ++ sep ++ post.
Proof.
  unfold Contains, Index. intros H.
  destruct (indexNat s sep) as [n|] eqn:E; [| discriminate].
  destruct (indexNat_split _ _ _ E) as (pre & post & Hs & _).
  exists pre, post. exact Hs.
Qed.

Lemma Contains_occurrence (pre sep post : string) :
  Contains (pre ++ sep ++ post) sep = true.
Proof.
  unfold Contains, Index.
  assert (exists n, indexNat (pre ++ sep ++ post) sep = Some n) as [n ->].
  { induction pre as [|c pre [n IH]].
    - exists O. apply indexNat_at_prefix.
      change ("" ++ sep ++ post) with (sep ++ post). apply prefix_append.
    - change (String c pre ++ sep ++ post) with (String c (pre ++ sep ++ post)).
      cbn [indexNat].
      destruct (String.prefix sep (String c (pre ++ sep ++ post)));
        [exists O; reflexivity |].
      rewrite IH. exists (S n). reflexivity. }
  apply Z.leb_le. lia.
Qed.

(** The lines of the scanner are made of bytes of the text. *)
Lemma dropCR_allBytes (P : ascii -> bool) (s : string) :
  allBytes P s = true -> allBytes P (dropCR s) = true.
Proof.
  unfold dropCR. intros H.
  destruct (rev s) as [|c r] eqn:E; [exact H |].
  destruct (byteval c =? 13); [| exact H].
  rewrite allBytes_rev. rewrite <- (allBytes_rev P s), E in H.
  simpl in H. apply andb_prop in H. tauto.
Qed.

Lemma scanFrom_allBytes (P : ascii -> bool) (s cur : string) (n : Z) :
  allBytes P cur = true -> allBytes (fun c => isLF c || P c) s = true ->
  forallb (allBytes P) (scanFrom s cur n) = true.
Proof.
  revert cur n. induction s as [|c s IH]; intros cur n Hcur Hs.
  - cbn [scanFrom]. destruct (n =? 0); [reflexivity |].
    cbn [forallb]. rewrite dropCR_allBytes; [reflexivity |].
    rewrite allBytes_rev. exact Hcur.
  - cbn [scanFrom]. cbn [allBytes] in Hs.
    apply andb_prop in Hs. destruct Hs as [Hc Hs].
    unfold isLF in Hc.
    destruct (byteval c =? 10).
    + cbn [forallb]. rewrite dropCR_allBytes, (IH EmptyString 0 eq_refl Hs);
        [reflexivity |].
      rewrite allBytes_rev. exact Hcur.
    + destruct (MaxScanTokenSize <=? n + 1); [reflexivity |].
      apply IH; [| exact Hs]. cbn [allBytes]. simpl in Hc.
      rewrite Hc, Hcur. reflexivity.
Qed.

Lemma allBytes_weaken (P Q : ascii -> bool) (s : string) :
  (forall c, P c = true -> Q c = true) ->
  allBytes P s = true -> allBytes Q s = true.
Proof.
  intros HPQ. induction s as [|c s IH]; simpl; [reflexivity |].
  intros H. apply andb_prop in H. destruct H as [Hc H].
  rewrite (HPQ _ Hc), (IH H). reflexivity.
Qed.

Lemma scanLines_ascii (out line : string) :
  isASCII out = true -> In line (scanLines out) -> isASCII line = true.
Proof.
  intros Ha Hin. rewrite isASCII_allBytes in *.
  pose proof (scanFrom_allBytes asciiByte out EmptyString 0 eq_refl) as H.
  fold (scanLines out) in H. rewrite forallb_forall in H.
  apply H; [| exact Hin].
  apply (allBytes_weaken asciiByte); [| exact Ha].
  intros c Hc. rewrite Hc. apply orb_true_r.
Qed.

Lemma scanLines_noLF (out line : string) :
  In line (scanLines out) -> allBytes (fun c => negb (isLF c)) line = true.
Proof.
  intros Hin.
  pose proof (scanFrom_allBytes (fun c => negb (isLF c)) out EmptyString 0
                eq_refl) as H.
  fold (scanLines out) in H. rewrite forallb_forall in H.
  apply H; [| exact Hin].
  clear. induction out as [|c out IH]; simpl; [reflexivity |].
  rewrite IH. destruct (isLF c); reflexivity.
Qed.

Lemma take_allBytes (P : ascii -> bool) (n : nat) (s : string) :
  allBytes P s = true -> allBytes P (take n s) = true.
Proof.
  revert s. induction n as [|n IH]; intros [|c s] H; simpl; try reflexivity.
  simpl in H. apply andb_prop in H. destruct H as [Hc H].
  rewrite Hc, (IH _ H). reflexivity.
Qed.

Section Trim.

Variable unicodeTrim : string -> string.
Variable unicodeTrimRight : string -> string.

Local Abbreviation TrimSpace := (GoStrings.TrimSpace unicodeTrim unicodeTrimRight).
Local Abbreviation trimRightRev := (GoStrings.trimRightRev unicodeTrimRight).

Lemma asciiByte_not_high (c : ascii) :
  asciiByte c = true -> (RuneSelf <=? byteval c) = false.
Proof.
  unfold asciiByte. intros H. apply Z.ltb_lt in H. apply Z.leb_gt. exact H.
Qed.

Lemma trimRightRev_ascii (r : string) :
  isASCII r = true ->
  exists sp r1,
    r = sp ++ r1 /\ allSpace sp = true
    /\ trimRightRev r = rev r1 /\ startsWithSpace r1 = false.
Proof.
  induction r as [|c r IH]; intros Ha.
  - exists EmptyString, EmptyString. repeat split; reflexivity.
  - cbn [isASCII] in Ha. apply andb_prop in Ha. destruct Ha as [Hc Ha].
    cbn [GoStrings.trimRightRev]. rewrite (asciiByte_not_high c Hc).
    destruct (asciiSpace c) eqn:Es.
    + destruct (IH Ha) as (sp & r1 & Hr & Hsp & Ht & Hs).
      exists (String c sp), r1. split; [simpl; rewrite <- Hr; reflexivity |].
      split; [unfold allSpace in *; simpl; rewrite Es, Hsp; reflexivity |].
      split; assumption.
    + exists EmptyString, (String c r). repeat split; try reflexivity.
      exact Es.
Qed.

(** On ASCII text [strings.TrimSpace] removes white space at both ends
    and nothing else. *)
Lemma TrimSpace_ascii (s : string) :
  isASCII s = true ->
  exists l r,
    s = l ++ TrimSpace s ++ r /\ allSpace l = true /\ allSpace r = true
    /\ startsWithSpace (TrimSpace s) = false
    /\ endsWithSpace (TrimSpace s) = false.
Proof.
  induction s as [|c s IH]; intros Ha.
  - exists EmptyString, EmptyString. repeat split; reflexivity.
  - pose proof Ha as Hall.
    cbn [isASCII] in Ha. apply andb_prop in Ha. destruct Ha as [Hc Ha].
    cbn [GoStrings.TrimSpace]. rewrite (asciiByte_not_high c Hc).
    destruct (asciiSpace c) eqn:Es.
    + destruct (IH Ha) as (l & r & Hs & Hl & Hr & H1 & H2).
      exists (String c l), r. split; [simpl; rewrite <- Hs; reflexivity |].
      split; [unfold allSpace in *; simpl; rewrite Es, Hl; reflexivity |].
      repeat split; assumption.
    + rewrite <- isASCII_rev in Hall.
      destruct (trimRightRev_ascii _ Hall) as (sp & r1 & Hr & Hsp & Ht & Hs).
      rewrite Ht.
      assert (String c s = rev r1 ++ rev sp) as Hsplit.
      { rewrite <- rev_append, <- Hr, rev_rev. reflexivity. }
      exists EmptyString, (rev sp).
      split; [exact Hsplit |]. split; [reflexivity |].
      split; [unfold allSpace; rewrite allBytes_rev; exact Hsp |].
      split.
      * destruct (rev r1) as [|d t] eqn:Er1; [reflexivity |].
        simpl in Hsplit. injection Hsplit as <- _. exact Es.
      * unfold endsWithSpace. rewrite rev_rev. exact Hs.
Qed.

End Trim.

End TextFacts.

(** ** Share names of [getShares] *)

Module ShareMore.
Import GoStrings Shares StringFacts ShareFacts TextFacts.

Section Facts.

Variable unicodeTrim : string -> string.
Variable unicodeTrimRight : string -> string.
Variable unicodeToLower : string -> string.

Local Abbreviation TrimSpace := (GoStrings.TrimSpace unicodeTrim unicodeTrimRight).
Local Abbreviation ToLower := (GoStrings.ToLower unicodeToLower).
Local Abbreviation shareOfLine :=
  (Shares.shareOfLine unicodeTrim unicodeTrimRight unicodeToLower).
Local Abbreviation parseShares :=
  (Shares.parseShares unicodeTrim unicodeTrimRight unicodeToLower).
Local Abbreviation getShares :=
  (Shares.getShares unicodeTrim unicodeTrimRight unicodeToLower).

(** The name of an ASCII line: the line is white space, the name, white
    space, the first marker and a remainder. *)
Lemma name_in_line (line name : string) :
  isASCII line = true -> shareOfLine line = Some name ->
  exists l r post,
    line = l ++ name ++ r ++ "Print" ++ post
    /\ allSpace l = true /\ allSpace r = true
    /\ startsWithSpace name = false /\ endsWithSpace name = false
    /\ Contains name "Print" = false.
Proof.
  intros Ha Hs.
  destruct (shareOfLine_name _ _ _ _ _ Hs) as (Hpos & Hname & _ & _).
  unfold Index in Hpos, Hname.
  destruct (indexNat line "Print") as [n|] eqn:En; [| lia].
  destruct (indexNat_split _ _ _ En) as (pre & post & Hline & Hlen & Htake).
  unfold sliceTo in Hname. rewrite Nat2Z.id, Htake in Hname.
  assert (isASCII pre = true) as Hpre.
  { rewrite <- Htake. rewrite isASCII_allBytes in *.
    apply take_allBytes. exact Ha. }
  destruct (TrimSpace_ascii unicodeTrim unicodeTrimRight pre Hpre)
    as (l & r & Hsplit & Hl & Hr & H1 & H2).
  rewrite <- Hname in Hsplit, H1, H2.
  exists l, r, post.
  split.
  { rewrite Hline. rewrite Hsplit at 1.
    rewrite !EnumeratorFacts.append_assoc. reflexivity. }
  repeat (split; [assumption |]).
  destruct (Contains name "Print") eqn:Ec; [exfalso | reflexivity].
  destruct (Contains_split _ _ Ec) as (a & b & Hab).
  assert (line = (l ++ a) ++ "Print" ++ (b ++ r ++ "Print" ++ post)) as Hocc.
  { rewrite Hline. rewrite Hsplit at 1. rewrite Hab.
    rewrite !EnumeratorFacts.append_assoc. reflexivity. }
  pose proof (indexNat_first _ _ _ En _ _ Hocc) as Hle.
  rewrite <- Hlen in Hle. rewrite Hsplit, Hab in Hle.
  rewrite !length_append in Hle. simpl in Hle. lia.
Qed.

(** X14.  When the output of [net view] is ASCII text, every share name
    [getShares] returns is the text of a line before its first marker
    with the white space at both ends removed: it is not empty, neither
    starts nor ends with white space, holds no line feed, does not
    contain the marker, and its lower-case form does not contain ipc$. *)
Theorem share_names_are_trimmed (cmd : CombinedOutput)
    (names : list string) (name : string) :
  isASCII (output cmd) = true ->
  getShares cmd = Ok names -> In name names ->
  name <> EmptyString
  /\ startsWithSpace name = false /\ endsWithSpace name = false
  /\ allBytes (fun c => negb (isLF c)) name = true
  /\ Contains name "Print" = false
  /\ Contains (ToLower name) "ipc$" = false
  /\ exists line l r post,
       In line (scanLines (output cmd))
       /\ line = l ++ name ++ r ++ "Print" ++ post
       /\ allSpace l = true /\ allSpace r = true.
Proof.
  intros Ha Hg Hin.
  destruct (getShares_cases unicodeTrim unicodeTrimRight unicodeToLower cmd)
    as [[He _] | [[He _] | (Hok & _ & _)]]; try congruence.
  rewrite Hok in Hg. injection Hg as <-.
  destruct (parseShares_In _ _ _ _ _ Hin) as (line & Hline & Hs).
  destruct (shareOfLine_name _ _ _ _ _ Hs) as (_ & _ & Hne & Hipc).
  pose proof (scanLines_ascii _ _ Ha Hline) as Hla.
  destruct (name_in_line _ _ Hla Hs) as (l & r & post & Heq & Hl & Hr & H1 & H2 & Hc).
  pose proof (scanLines_noLF _ _ Hline) as Hlf.
  rewrite Heq, !allBytes_app in Hlf.
  apply andb_prop in Hlf. destruct Hlf as [_ Hlf].
  apply andb_prop in Hlf. destruct Hlf as [Hlf _].
  repeat (split; [assumption |]).
  exists line, l, r, post. repeat split; assumption.
Qed.

End Facts.

(** Output of [net view] with a header, a disk share and a printer. *)
Definition viewText : string :=
  "Share name   Type   Used as  Comment" ++ ScanFacts.newline
  ++ "Docs         Disk" ++ ScanFacts.newline
  ++ "  Laser Jet  Print           second floor" ++ ScanFacts.newline.

Lemma share_names_witness :
  isASCII viewText = true
  /\ Shares.getShares identity identity identity (mkOutput viewText false)
     = Ok ["Laser Jet"]
  /\ In "Laser Jet" ["Laser Jet"]
  /\ startsWithSpace "Laser Jet" = false
  /\ endsWithSpace "Laser Jet" = false
  /\ Contains "Laser Jet" "Print" = false.
Proof.
  split; [reflexivity |]. split; [vm_compute; reflexivity |].
  split; [left; reflexivity |].
  destruct (share_names_are_trimmed identity identity identity
              (mkOutput viewText false) ["Laser Jet"] "Laser Jet")
    as (_ & H1 & H2 & _ & H3 & _).
  - reflexivity.
  - vm_compute. reflexivity.
  - left. reflexivity.
  - repeat split; assumption.
Defined.

End ShareMore.

(** ** The first program: selection by name, first field as share name *)

Module Legacy.
Import GoStrings.

(** The [Printer] of the first program. *)
Record Printer : Type := mkPrinter {
  IP : string;
  Name : string;
  Comment : string
}.

(** The name the last loop of [main] looks for. *)
Definition wanted : string := "brother hl-2140 series".

Section Program.

Variable unicodeToLower : string -> string.
Variable unicodeFields : string -> list string.

Local Abbreviation ToLower := (GoStrings.ToLower unicodeToLower).
Local Abbreviation shareOfLineFields :=
  (Shares.shareOfLineFields unicodeToLower unicodeFields).

(** The test of the first loop of [selectInterface]. *)
Definition preferred (iface : Enumerator.InterfaceInfo) : bool :=
  let nameLower := ToLower (Enumerator.Name iface) in
  Contains nameLower "wlan" || Contains nameLower "ethernet"
  || Contains nameLower "eth".

(** [selectInterface]: the first interface with a preferred name;
    without one the operator is asked, and [choice] is the number
    [fmt.Scan] read, [None] when it returned an error.  The result
    [None] is the error of an invalid choice. *)
Definition selectInterface (interfaces : list Enumerator.InterfaceInfo)
    (choice : option Z) : option Enumerator.InterfaceInfo :=
  match find preferred interfaces with
  | Some iface => Some iface
  | None =>
      match choice with
      | None => None
      | Some choice =>
          if (choice <? 0) || (Z.of_nat (List.length interfaces) <=? choice)
          then None
          else nth_error interfaces (Z.to_nat choice)
      end
  end.

Definition appendShare (shares : list string) (line : string) : list string :=
  match shareOfLineFields line with
  | Some shareName => (shares ++ [shareName])%list
  | None => shares
  end.

(** [getShares] of the first program. *)
Definition getShares (cmd : CombinedOutput) : result (list string) :=
  if failed cmd then Err ErrNetView
  else
    match fold_left appendShare (scanLines (output cmd)) [] with
    | [] => Err ErrNoShares
    | shares => Ok shares
    end.

(** The values the goroutine for [ip] sends. *)
Definition hostItems (ip : string) (ans : Scan.HostAnswer) : list Printer :=
  if negb (Scan.dialOk ans) then []
  else match getShares (Scan.view ans) with
       | Err _ => []
       | Ok shareNames =>
           map (fun shareName => mkPrinter ip shareName "Detected SMB Printer Share")
               shareNames
       end.

(** The last loop of [main]: the name [setDefaultPrinter] is called
    with, [None] when the loop ends without calling it. *)
Fixpoint defaultRequest (foundPrinters : list Printer) : option string :=
  match foundPrinters with
  | [] => None
  | printer :: rest =>
      if Contains (ToLower (Name printer)) wanted then Some (Name printer)
      else defaultRequest rest
  end.

End Program.

End Legacy.

Module LegacyFacts.
Import GoStrings StringFacts TextFacts Legacy.

Lemma lowerByte_space (c : ascii) : asciiSpace (lowerByte c) = asciiSpace c.
Proof.
  destruct c as [[] [] [] [] [] [] [] []]; vm_compute; reflexivity.
Qed.

Lemma noSpace_lower (s : string) :
  noSpace (mapBytes lowerByte s) = noSpace s.
Proof.
  unfold noSpace. induction s as [|c s IH]; simpl; [reflexivity |].
  rewrite IH, lowerByte_space. reflexivity.
Qed.

(** A string that contains a separator with white space in it holds
    white space. *)
Lemma noSpace_not_Contains (s sep : string) :
  noSpace s = true -> noSpace sep = false -> Contains s sep = false.
Proof.
  intros Hs Hsep. destruct (Contains s sep) eqn:Ec; [| reflexivity].
  destruct (Contains_split _ _ Ec) as (pre & post & Heq).
  unfold noSpace in *. rewrite Heq, !allBytes_app, Hsep in Hs.
  rewrite andb_false_l, andb_false_r in Hs. discriminate.
Qed.

(** The fields of ASCII text hold no white space. *)
Lemma fieldsFrom_noSpace (s cur field : string) :
  noSpace cur = true -> isASCII cur = true -> isASCII s = true ->
  In field (fieldsFrom s cur) ->
  noSpace field = true /\ isASCII field = true.
Proof.
  revert cur. induction s as [|c s IH]; intros cur Hcur Hca Hs Hin.
  - cbn [fieldsFrom] in Hin. destruct cur as [|d cur]; [contradiction |].
    destruct Hin as [<- | []].
    unfold noSpace. rewrite allBytes_rev, isASCII_rev. split; assumption.
  - cbn [isASCII] in Hs. apply andb_prop in Hs. destruct Hs as [Hc Hs].
    cbn [fieldsFrom] in Hin. destruct (asciiSpace c) eqn:Es.
    + destruct cur as [|d cur].
      * apply (IH EmptyString); assumption || reflexivity.
      * destruct Hin as [<- | Hin].
        -- unfold noSpace. rewrite allBytes_rev, isASCII_rev. split; assumption.
        -- apply (IH EmptyString); assumption || reflexivity.
    + apply (IH (String c cur)); try assumption.
      * unfold noSpace in *. cbn [allBytes]. rewrite Es, Hcur. reflexivity.
      * cbn [isASCII]. rewrite Hc, Hca. reflexivity.
Qed.

Lemma find_same {A : Type} (f g : A -> bool) (l : list A) :
  (forall x, f x = g x) -> find f l = find g l.
Proof.
  intros H. induction l as [|x l IH]; simpl; [reflexivity |].
  rewrite H, IH. reflexivity.
Qed.

Section Facts.

Variable unicodeToLower : string -> string.
Variable unicodeFields : string -> list string.

Local Abbreviation ToLower := (GoStrings.ToLower unicodeToLower).
Local Abbreviation shareOfLineFields :=
  (Shares.shareOfLineFields unicodeToLower unicodeFields).
Local Abbreviation preferred := (Legacy.preferred unicodeToLower).
Local Abbreviation selectInterface := (Legacy.selectInterface unicodeToLower).
Local Abbreviation appendShare := (Legacy.appendShare unicodeToLower unicodeFields).
Local Abbreviation getShares := (Legacy.getShares unicodeToLower unicodeFields).
Local Abbreviation hostItems := (Legacy.hostItems unicodeToLower unicodeFields).
Local Abbreviation defaultRequest := (Legacy.defaultRequest unicodeToLower).

Lemma ethernet_has_eth (s : string) :
  Contains s "ethernet" = true -> Contains s "eth" = true.
Proof.
  intros H. destruct (Contains_split _ _ H) as (pre & post & ->).
  change (pre ++ "ethernet" ++ post) with (pre ++ "eth" ++ ("ernet" ++ post)).
  apply Contains_occurrence.
Qed.

Lemma preferred_eq (iface : Enumerator.InterfaceInfo) :
  preferred iface
  = Contains (ToLower (Enumerator.Name iface)) "wlan"
    || Contains (ToLower (Enumerator.Name iface)) "eth".
Proof.
  unfold Legacy.preferred. cbv zeta.
  destruct (Contains (ToLower (Enumerator.Name iface)) "wlan"); [reflexivity |].
  cbn [orb].
  destruct (Contains (ToLower (Enumerator.Name iface)) "ethernet") eqn:E;
    [| reflexivity].
  rewrite (ethernet_has_eth _ E). reflexivity.
Qed.

(** X15.  [selectInterface] of the first program returns the first
    entry whose lower-case name contains wlan or eth, whatever the
    operator would type (the test for ethernet adds nothing); without
    such an entry it returns the entry with the number typed, and fails
    when that is no index of the list.  What it returns is an entry of
    the list. *)
Theorem selection_by_name (interfaces : list Enumerator.InterfaceInfo)
    (choice : option Z) :
  match find (fun iface =>
                Contains (ToLower (Enumerator.Name iface)) "wlan"
                || Contains (ToLower (Enumerator.Name iface)) "eth")
             interfaces with
  | Some iface => selectInterface interfaces choice = Some iface
  | None =>
      selectInterface interfaces choice
      = match choice with
        | Some n =>
            if (0 <=? n) && (n <? Z.of_nat (List.length interfaces))
            then nth_error interfaces (Z.to_nat n)
            else None
        | None => None
        end
  end
  /\ forall iface,
       selectInterface interfaces choice = Some iface -> In iface interfaces.
Proof.
  unfold Legacy.selectInterface.
  rewrite (find_same _ _ interfaces preferred_eq).
  set (f := fun iface => _ || _).
  destruct (find f interfaces) as [iface|] eqn:Ef.
  - split; [reflexivity |]. intros i Hi. injection Hi as <-.
    apply (find_some _ _ Ef).
  - destruct choice as [n|]; [| split; [reflexivity | discriminate]].
    destruct (Z.ltb_spec n 0) as [Hn|Hn];
      destruct (Z.leb_spec (Z.of_nat (List.length interfaces)) n) as [Hm|Hm];
      destruct (Z.leb_spec 0 n); destruct (Z.ltb_spec n (Z.of_nat (List.length interfaces)));
      try lia; cbn [orb andb]; (split; [reflexivity |]); try discriminate.
    intros i Hi. apply (nth_error_In _ _ Hi).
Qed.

Lemma fold_appendShare_names (lines : list string) (acc : list string)
    (name : string) :
  In name (fold_left appendShare lines acc) ->
  In name acc
  \/ exists line, In line lines /\ shareOfLineFields line = Some name.
Proof.
  revert acc. induction lines as [|l lines IH]; intros acc H.
  - left. exact H.
  - cbn [fold_left] in H. destruct (IH _ H) as [Hacc | (line & Hl & Hs)].
    + unfold Legacy.appendShare in Hacc.
      destruct (shareOfLineFields l) as [n|] eqn:El.
      * apply in_app_or in Hacc. destruct Hacc as [Hacc | [<- | []]].
        -- left. exact Hacc.
        -- right. exists l. split; [left; reflexivity | exact El].
      * left. exact Hacc.
    + right. exists line. split; [right; exact Hl | exact Hs].
Qed.

(** The names of the first program's [getShares] on ASCII output hold
    no white space. *)
Lemma names_without_space (cmd : CombinedOutput) (names : list string)
    (name : string) :
  isASCII (output cmd) = true ->
  getShares cmd = Ok names -> In name names ->
  noSpace name = true /\ isASCII name = true.
Proof.
  unfold Legacy.getShares. intros Ha Hg Hin.
  destruct (failed cmd); [discriminate |].
  destruct (fold_left appendShare (scanLines (output cmd)) []) as [|n ns] eqn:E;
    [discriminate |].
  injection Hg as <-. rewrite <- E in Hin.
  destruct (fold_appendShare_names _ _ _ Hin) as [[] | (line & Hl & Hs)].
  pose proof (scanLines_ascii _ _ Ha Hl) as Hla.
  unfold Shares.shareOfLineFields in Hs.
  destruct (Contains line "Print"); [| discriminate].
  unfold Fields in Hs. rewrite Hla in Hs.
  destruct (fieldsFrom line EmptyString) as [|f fs] eqn:Ef; [discriminate |].
  destruct (_ && _); [| discriminate]. injection Hs as <-.
  apply (fieldsFrom_noSpace line EmptyString f); try reflexivity; try assumption.
  rewrite Ef. left. reflexivity.
Qed.

(** X16.  In the first program, when the hosts answer [net view] with
    ASCII text, the last loop of [main] never calls [setDefaultPrinter]:
    the share names are first fields of lines and hold no white space,
    while the loop looks for a name that contains
    "brother hl-2140 series".  This holds for every order of arrival. *)
Theorem first_program_never_sets_default
    (hosts : list (string * Scan.HostAnswer)) (foundPrinters : list Printer) :
  forallb (fun host => isASCII (output (Scan.view (snd host)))) hosts = true ->
  Scan.Merge (map (fun host => hostItems (fst host) (snd host)) hosts)
    foundPrinters ->
  defaultRequest foundPrinters = None.
Proof.
  intros Ha Hm.
  assert (forall p, In p foundPrinters -> noSpace (Name p) = true
                                          /\ isASCII (Name p) = true) as Hall.
  { intros p Hp.
    destruct (ScanFacts.Merge_In _ _ Hm p Hp) as (l & Hl & Hpl).
    apply in_map_iff in Hl. destruct Hl as ([ip ans] & <- & Hh).
    rewrite forallb_forall in Ha. specialize (Ha _ Hh). cbn [fst snd] in *.
    unfold Legacy.hostItems in Hpl.
    destruct (negb (Scan.dialOk ans)); [contradiction |].
    destruct (getShares (Scan.view ans)) as [names|] eqn:Eg; [| contradiction].
    apply in_map_iff in Hpl. destruct Hpl as (n & <- & Hn). cbn [Name].
    apply (names_without_space _ _ _ Ha Eg Hn). }
  clear Hm Ha. induction foundPrinters as [|p ps IH]; [reflexivity |].
  cbn [Legacy.defaultRequest].
  destruct (Hall p (or_introl eq_refl)) as [Hs Hascii].
  unfold GoStrings.ToLower. rewrite Hascii.
  rewrite (noSpace_not_Contains (mapBytes lowerByte (Name p)) wanted);
    [| rewrite noSpace_lower; exact Hs | reflexivity].
  apply IH. intros q Hq. apply Hall. right. exact Hq.
Qed.

End Facts.

(** A host that shares a printer under the name the first program looks
    for. *)
Definition brotherHost : string * Scan.HostAnswer :=
  ("192.168.0.105",
   Scan.mkAnswer true
     (mkOutput ("Brother HL-2140 series   Print   laser" ++ ScanFacts.newline)
               false)).

Lemma first_program_witness :
  forallb (fun host => isASCII (output (Scan.view (snd host)))) [brotherHost]
  = true
  /\ Scan.Merge
       (map (fun host =>
               Legacy.hostItems ShareFacts.identity (fun _ => [])
                 (fst host) (snd host))
            [brotherHost])
       [mkPrinter "192.168.0.105" "Brother" "Detected SMB Printer Share"]
  /\ Legacy.defaultRequest ShareFacts.identity
       [mkPrinter "192.168.0.105" "Brother" "Detected SMB Printer Share"]
     = None.
Proof.
  assert (Scan.Merge
            (map (fun host =>
                    Legacy.hostItems ShareFacts.identity (fun _ => [])
                      (fst host) (snd host))
                 [brotherHost])
            [mkPrinter "192.168.0.105" "Brother" "Detected SMB Printer Share"])
    as Hm.
  { change (Scan.Merge
              ([] ++ [mkPrinter "192.168.0.105" "Brother"
                        "Detected SMB Printer Share"] :: [])%list
              [mkPrinter "192.168.0.105" "Brother" "Detected SMB Printer Share"]).
    apply Scan.Merge_pick. apply Scan.Merge_done.
    repeat constructor. }
  split; [reflexivity |]. split; [exact Hm |].
  apply (first_program_never_sets_default ShareFacts.identity (fun _ => [])
           [brotherHost]); [reflexivity | exact Hm].
Defined.

(** A machine whose first interface belongs to a virtual switch. *)
Definition virtualFirst : list Enumerator.InterfaceInfo :=
  [ Enumerator.mkInterfaceInfo "vEthernet (Default Switch)" "172.20.0.1"
      "172.20.0.1/20";
    Enumerator.mkInterfaceInfo "Wi-Fi" "192.168.0.23" "192.168.0.23/24" ].

Lemma selection_by_name_witness :
  Legacy.selectInterface ShareFacts.identity virtualFirst None
  = Some (Enumerator.mkInterfaceInfo "vEthernet (Default Switch)"
            "172.20.0.1" "172.20.0.1/20").
Proof.
  exact (proj1 (selection_by_name ShareFacts.identity virtualFirst None)).
Defined.

End LegacyFacts.

(** ** The whole run of [main.go] *)

Module RunFacts.
Import GoStrings Scan ScanFacts ScanMore.

Section Facts.

Variable unicodeTrim : string -> string.
Variable unicodeTrimRight : string -> string.
Variable unicodeToLower : string -> string.
Variable ipv6String : GoNet.IP -> string.
Variable parseIPv6 : string -> option (list Z * string).

Local Abbreviation hostItems :=
  (Scan.hostItems unicodeTrim unicodeTrimRight unicodeToLower).
Local Abbreviation parseShares :=
  (Shares.parseShares unicodeTrim unicodeTrimRight unicodeToLower).
Local Abbreviation steps := (Scan.steps unicodeTrim unicodeTrimRight unicodeToLower).
Local Abbreviation scanned :=
  (Scan.scanned unicodeTrim unicodeTrimRight unicodeToLower).
Local Abbreviation finish := (Scan.finish unicodeTrim unicodeTrimRight).
Local Abbreviation candidates := (Setup.candidates ipv6String parseIPv6).

(** X4.  Which value [targetPrinter] points to after the loop
    [for printer := range printers] depends on the loop variable: with
    one variable for each iteration it is the value that arrived first,
    with one variable for the whole loop (Go before 1.22) it is the
    value that arrived last. *)
Theorem loop_variable_decides_the_target
    (hosts : list (string * HostAnswer)) :
  (forall s, steps PerIteration (Scan.initState hosts) s ->
             targetPrinter s = hd_error (arrived s))
  /\ (forall s, steps PerLoop (Scan.initState hosts) s ->
                targetPrinter s = hd_error (List.rev (arrived s))).
Proof.
  split; intros s Hs.
  - destruct (firstKept_steps _ _ _ _ _ Hs) as [Hc Ht].
    unfold targetPrinter. rewrite Ht, Hc.
    destruct (arrived s); reflexivity.
  - destruct (lastKept_steps _ _ _ _ _ Hs) as [[Hn Ht] | (l & p & Ha & Hc & Ht)];
      unfold targetPrinter; rewrite Ht.
    + rewrite Hn. reflexivity.
    + rewrite Hc, Ha, rev_app_distr. reflexivity.
Qed.




End Facts.

Lemma older_loop_variable_witness :
  Scan.steps identity identity identity PerLoop (Scan.initState threeHosts)
    (afterScan PerLoop)
  /\ arrived (afterScan PerLoop) = [laserJet; canon]
  /\ targetPrinter (afterScan PerLoop) = Some canon.
Proof.
  split; [exact (proj1 (afterScan_scanned PerLoop)) |].
  split; [vm_compute; reflexivity |].
  exact (proj2 (loop_variable_decides_the_target identity identity identity
                  threeHosts) (afterScan PerLoop)
               (proj1 (afterScan_scanned PerLoop))).
Defined.






End RunFacts.

(** ** A [net view] that never returns *)

Module Stall.
Import GoStrings Scan ScanFacts.

Section Blocking.

Variable unicodeTrim : string -> string.
Variable unicodeTrimRight : string -> string.
Variable unicodeToLower : string -> string.

(** [cmd.CombinedOutput()] in [getShares] waits for [net view] without
    a timeout: [hangs ip] says that the command for [ip] never
    returns. *)
Variable hangs : string -> bool.

Local Abbreviation hostItems :=
  (Scan.hostItems unicodeTrim unicodeTrimRight unicodeToLower).

(** The goroutine for [ip] gets past its probe: [net.DialTimeout]
    returns within [timeout], and the goroutine returns at once when the
    dial failed; otherwise it waits for [getShares]. *)
Definition probeReturns (ip : string) (ans : HostAnswer) : bool :=
  negb (dialOk ans) || negb (hangs ip).

(** The scheduling steps of [main] when a probe is taken only by a
    goroutine whose probe returns; the other steps are those of
    [Scan.step]. *)
Inductive stepB (sem : LoopVar) : State -> State -> Prop :=
| stepB_probe s w1 ip ans w2 :
    workers s = (w1 ++ Probing ip ans :: w2)%list ->
    probeReturns ip ans = true ->
    stepB sem s (withWorkers s (w1 ++ Sending (hostItems ip ans) :: w2)%list)
| stepB_send s w1 p items w2 :
    workers s = (w1 ++ Sending (p :: items) :: w2)%list ->
    (List.length (chanBuf s) < chanCap s)%nat ->
    stepB sem s (withSend s (w1 ++ Sending items :: w2)%list p)
| stepB_return s w1 w2 :
    workers s = (w1 ++ Sending [] :: w2)%list ->
    stepB sem s (withWorkers s (w1 ++ Returned :: w2)%list)
| stepB_close s :
    allReturned (workers s) = true ->
    chanClosed s = false ->
    stepB sem s (withClosed s)
| stepB_receive s p rest :
    chanBuf s = p :: rest ->
    drained s = false ->
    stepB sem s (receive sem p s)
| stepB_leave s :
    chanBuf s = [] ->
    chanClosed s = true ->
    drained s = false ->
    stepB sem s (withDrained s).

(** Executions, counted by their number of steps. *)
Inductive runsB (sem : LoopVar) : nat -> State -> State -> Prop :=
| runsB_zero s : runsB sem 0 s s
| runsB_more n s1 s2 s3 :
    runsB sem n s1 s2 -> stepB sem s2 s3 -> runsB sem (S n) s1 s3.

(** Every goroutine of [hosts] gets past its probe. *)
Definition allReturn (hosts : list (string * HostAnswer)) : bool :=
  forallb (fun host => probeReturns (fst host) (snd host)) hosts.

(** A worker that waits for ever. *)
Definition waitsForEver (w : Worker) : bool :=
  match w with
  | Probing ip ans => negb (probeReturns ip ans)
  | _ => false
  end.

(** Every goroutine has returned or waits for ever. *)
Definition onlyWaiting (ws : list Worker) : bool :=
  forallb (fun w => match w with
                    | Returned => true
                    | _ => waitsForEver w
                    end) ws.

(** The scheduler of [ScanFacts.move], with the same restriction on
    probes. *)
Definition moveB (sem : LoopVar) (m : Move) (s : State) : option State :=
  match m with
  | DoProbe i =>
      match splitAt i (workers s) with
      | Some (w1, Probing ip ans, w2) =>
          if probeReturns ip ans
          then Some (withWorkers s (w1 ++ Sending (hostItems ip ans) :: w2)%list)
          else None
      | _ => None
      end
  | _ => move unicodeTrim unicodeTrimRight unicodeToLower sem m s
  end.

Fixpoint runB (sem : LoopVar) (ms : list Move) (s : State) : option State :=
  match ms with
  | [] => Some s
  | m :: ms' =>
      match moveB sem m s with
      | Some s' => runB sem ms' s'
      | None => None
      end
  end.

End Blocking.

End Stall.

Module StallFacts.
Import GoStrings Scan ScanFacts ScanMore Stall.

Lemma In_not_allReturned (ws : list Worker) (w : Worker) :
  In w ws -> w <> Returned -> allReturned ws = false.
Proof.
  intros Hin Hne. destruct (in_split _ _ Hin) as (w1 & w2 & ->).
  apply allReturned_busy. exact Hne.
Qed.

Section Facts.

Variable unicodeTrim : string -> string.
Variable unicodeTrimRight : string -> string.
Variable unicodeToLower : string -> string.
Variable hangs : string -> bool.

Local Abbreviation hostItems :=
  (Scan.hostItems unicodeTrim unicodeTrimRight unicodeToLower).
Local Abbreviation itemsOf :=
  (ScanFacts.itemsOf unicodeTrim unicodeTrimRight unicodeToLower).
Local Abbreviation step := (Scan.step unicodeTrim unicodeTrimRight unicodeToLower).
Local Abbreviation steps := (Scan.steps unicodeTrim unicodeTrimRight unicodeToLower).
Local Abbreviation stepsN := (ScanMore.stepsN unicodeTrim unicodeTrimRight unicodeToLower).
Local Abbreviation measure :=
  (ScanFacts.measure unicodeTrim unicodeTrimRight unicodeToLower).
Local Abbreviation probeReturns := (Stall.probeReturns hangs).
Local Abbreviation stepB :=
  (Stall.stepB unicodeTrim unicodeTrimRight unicodeToLower hangs).
Local Abbreviation runsB :=
  (Stall.runsB unicodeTrim unicodeTrimRight unicodeToLower hangs).
Local Abbreviation moveB :=
  (Stall.moveB unicodeTrim unicodeTrimRight unicodeToLower hangs).
Local Abbreviation runB :=
  (Stall.runB unicodeTrim unicodeTrimRight unicodeToLower hangs).
Local Abbreviation allReturn := (Stall.allReturn hangs).
Local Abbreviation waitsForEver := (Stall.waitsForEver hangs).
Local Abbreviation onlyWaiting := (Stall.onlyWaiting hangs).

Lemma stepB_step (sem : LoopVar) (s s' : State) :
  stepB sem s s' -> step sem s s'.
Proof.
  destruct 1.
  - apply step_probe; assumption.
  - apply step_send; assumption.
  - apply step_return; assumption.
  - apply step_close; assumption.
  - eapply step_receive; eassumption.
  - apply step_leave; assumption.
Qed.

Lemma runsB_stepsN (sem : LoopVar) (n : nat) (s s' : State) :
  runsB sem n s s' -> stepsN sem n s s'.
Proof.
  induction 1 as [s | n s1 s2 s3 _ IH H23].
  - apply stepsN_zero.
  - eapply stepsN_more; [exact IH | apply stepB_step; exact H23].
Qed.

Lemma runsB_steps (sem : LoopVar) (n : nat) (s s' : State) :
  runsB sem n s s' -> steps sem s s'.
Proof.
  intros H. eapply stepsN_steps. apply runsB_stepsN. exact H.
Qed.

(** When the probes of all hosts return, every step of [Scan.step] from
    a reachable state is a step here. *)
Lemma step_stepB (sem : LoopVar) (hosts : list (string * HostAnswer))
    (s s' : State) :
  allReturn hosts = true ->
  steps sem (Scan.initState hosts) s ->
  step sem s s' -> stepB sem s s'.
Proof.
  intros Hall Hs Hst.
  destruct (allFromHosts_steps _ _ _ _ _ _ Hs) as (_ & _ & Hw).
  destruct Hst.
  - apply stepB_probe; [assumption |].
    rewrite H in Hw. apply Forall_app in Hw. destruct Hw as [_ Hw].
    inversion Hw as [| ? ? Hp _]; subst. simpl in Hp.
    unfold Stall.allReturn in Hall. rewrite forallb_forall in Hall.
    apply (Hall _ Hp).
  - apply stepB_send; assumption.
  - apply stepB_return; assumption.
  - apply stepB_close; assumption.
  - eapply stepB_receive; eassumption.
  - apply stepB_leave; assumption.
Qed.

Lemma completesB (sem : LoopVar) (hosts : list (string * HostAnswer))
    (k : nat) :
  allReturn hosts = true ->
  forall n s,
    runsB sem n (Scan.initState hosts) s -> (measure s <= k)%nat ->
    exists n' s', runsB sem n' (Scan.initState hosts) s' /\ drained s' = true.
Proof.
  intros Hall. induction k as [|k IH]; intros n s Hr Hm.
  - destruct (drained s) eqn:Ed; [exists n, s; split; assumption |].
    unfold ScanFacts.measure in Hm. rewrite Ed in Hm. lia.
  - destruct (drained s) eqn:Ed; [exists n, s; split; assumption |].
    pose proof (runsB_steps _ _ _ _ Hr) as Hs.
    destruct (progress unicodeTrim unicodeTrimRight unicodeToLower sem s
                (wellFormed_steps _ _ _ _ _ _ Hs (wellFormed_init hosts)) Ed)
      as [s' Hst].
    pose proof (measure_step _ _ _ _ _ _ Hst) as Hlt.
    apply (IH (S n) s').
    + eapply runsB_more; [exact Hr |].
      apply (step_stepB sem hosts); assumption.
    + lia.
Qed.

(** A goroutine that waits for ever stays where it is. *)
Lemma waiting_stays (sem : LoopVar) (s s' : State) (w : Worker) :
  waitsForEver w = true -> stepB sem s s' ->
  In w (workers s) -> In w (workers s').
Proof.
  intros Hw Hst Hin.
  assert (forall w1 w2 old new,
            workers s = (w1 ++ old :: w2)%list -> w <> old ->
            In w (w1 ++ new :: w2)%list) as Hkeep.
  { intros w1 w2 old new Heq Hne. rewrite Heq in Hin.
    apply in_app_or in Hin. apply in_or_app.
    destruct Hin as [Hin | [Hin | Hin]]; [left; exact Hin | congruence |].
    right. right. exact Hin. }
  destruct Hst; cbn [workers withWorkers withSend withClosed receive withDrained];
    try exact Hin.
  - apply (Hkeep _ _ _ _ H). intros ->.
    unfold Stall.waitsForEver in Hw. rewrite H0 in Hw. discriminate.
  - apply (Hkeep _ _ _ _ H). intros ->. discriminate.
  - apply (Hkeep _ _ _ _ H). intros ->. discriminate.
Qed.

Lemma waiting_reachable (sem : LoopVar) (hosts : list (string * HostAnswer))
    (n : nat) (s : State) (ip : string) (ans : HostAnswer) :
  In (ip, ans) hosts -> probeReturns ip ans = false ->
  runsB sem n (Scan.initState hosts) s ->
  In (Probing ip ans) (workers s).
Proof.
  intros Hin Hp Hr.
  remember (Scan.initState hosts) as s0 eqn:E0.
  induction Hr as [s | n s1 s2 s3 _ IH H23].
  - subst s. cbn [workers Scan.initState].
    apply in_map_iff. exists (ip, ans). split; [reflexivity | exact Hin].
  - apply (waiting_stays sem s2 s3); [| exact H23 | apply IH; exact E0].
    unfold Stall.waitsForEver. rewrite Hp. reflexivity.
Qed.

Lemma allReturn_false (hosts : list (string * HostAnswer)) :
  allReturn hosts = false ->
  exists ip ans, In (ip, ans) hosts /\ probeReturns ip ans = false.
Proof.
  unfold Stall.allReturn. induction hosts as [|[ip ans] hosts IH]; simpl;
    [discriminate |].
  destruct (probeReturns ip ans) eqn:Ep; simpl.
  - intros H. destruct (IH H) as (ip' & ans' & Hin & Hp).
    exists ip', ans'. split; [right; exact Hin | exact Hp].
  - intros _. exists ip, ans. split; [left; reflexivity | exact Ep].
Qed.

(** X2.  With [hangs] telling for which hosts [net view] never returns:
    every execution of the scan has at most
    2 * (number of values) + 2 * (number of hosts) + 2 steps.  When the
    probes of all hosts return, [main] is never stuck in the loop and the
    scan can be completed.  When the [net view] of one host that
    accepted the connection never returns, the channel is never closed
    and [main] never leaves the loop; and once the other goroutines have
    returned and the buffer is empty, no step is possible any more. *)
Theorem scan_ends_iff_every_probe_returns (sem : LoopVar)
    (hosts : list (string * HostAnswer)) :
  (forall n s, runsB sem n (Scan.initState hosts) s ->
     (n <= 2 * List.length (List.concat (map itemsOf hosts))
           + 2 * List.length hosts + 2)%nat)
  /\ (allReturn hosts = true ->
      (forall n s, runsB sem n (Scan.initState hosts) s ->
         drained s = false -> exists s', stepB sem s s')
      /\ exists n s, runsB sem n (Scan.initState hosts) s /\ drained s = true)
  /\ (allReturn hosts = false ->
      forall n s, runsB sem n (Scan.initState hosts) s ->
        chanClosed s = false /\ drained s = false
        /\ (onlyWaiting (workers s) = true -> chanBuf s = [] ->
            forall s', ~ stepB sem s s')).
Proof.
  split; [| split].
  - intros n s Hr. pose proof (stepsN_measure _ _ _ _ _ _ _ (runsB_stepsN _ _ _ _ Hr))
      as Hm.
    rewrite measure_init in Hm. lia.
  - intros Hall. split.
    + intros n s Hr Hd. pose proof (runsB_steps _ _ _ _ Hr) as Hs.
      destruct (progress unicodeTrim unicodeTrimRight unicodeToLower sem s
                  (wellFormed_steps _ _ _ _ _ _ Hs (wellFormed_init hosts)) Hd)
        as [s' Hst].
      exists s'. apply (step_stepB sem hosts); assumption.
    + apply (completesB sem hosts (measure (Scan.initState hosts)) Hall 0
               (Scan.initState hosts));
        [apply runsB_zero | apply Nat.le_refl].
  - intros Hall n s Hr.
    destruct (allReturn_false _ Hall) as (ip & ans & Hin & Hp).
    pose proof (waiting_reachable sem hosts n s ip ans Hin Hp Hr) as Hw.
    pose proof (runsB_steps _ _ _ _ Hr) as Hs.
    pose proof (wellFormed_steps _ _ _ _ _ _ Hs (wellFormed_init hosts))
      as (_ & Hcl & Hdr).
    assert (allReturned (workers s) = false) as Hbusy
      by (apply (In_not_allReturned _ _ Hw); discriminate).
    assert (chanClosed s = false) as Hc.
    { destruct (chanClosed s); [| reflexivity].
      rewrite (Hcl eq_refl) in Hbusy. discriminate. }
    assert (drained s = false) as Hd.
    { destruct (drained s); [| reflexivity].
      destruct (Hdr eq_refl) as [Hx _]. congruence. }
    split; [exact Hc |]. split; [exact Hd |].
    intros Hwait Hbuf s' Hst.
    unfold Stall.onlyWaiting in Hwait. rewrite forallb_forall in Hwait.
    destruct Hst as [s w1 ip' ans' w2 Hws Hret | s w1 p items w2 Hws _
                    | s w1 w2 Hws | s Hall' _ | s p rest Hb _ | s _ Hcl' _].
    + specialize (Hwait (Probing ip' ans')). rewrite Hws in Hwait.
      specialize (Hwait (in_elt _ _ _)). simpl in Hwait.
      rewrite Hret in Hwait. discriminate.
    + specialize (Hwait (Sending (p :: items))). rewrite Hws in Hwait.
      specialize (Hwait (in_elt _ _ _)). discriminate.
    + specialize (Hwait (Sending [])). rewrite Hws in Hwait.
      specialize (Hwait (in_elt _ _ _)). discriminate.
    + congruence.
    + congruence.
    + congruence.
Qed.

Lemma moveB_stepB (sem : LoopVar) (m : Move) (s s' : State) :
  moveB sem m s = Some s' -> stepB sem s s'.
Proof.
  destruct m as [i | i | i | | |]; simpl; intros H.
  - destruct (splitAt i (workers s)) as [[[w1 w] w2]|] eqn:E; [| discriminate].
    destruct w as [ip ans | items |]; try discriminate.
    destruct (probeReturns ip ans) eqn:Ep; [| discriminate].
    inversion H; subst. apply stepB_probe; [| exact Ep].
    apply (splitAt_app _ _ _ _ _ E).
  - destruct (splitAt i (workers s)) as [[[w1 w] w2]|] eqn:E; [| discriminate].
    destruct w as [ip ans | [|p items] |]; try discriminate.
    destruct (List.length (chanBuf s) <? chanCap s)%nat eqn:El; [| discriminate].
    inversion H; subst. apply stepB_send.
    + apply (splitAt_app _ _ _ _ _ E).
    + apply Nat.ltb_lt in El. exact El.
  - destruct (splitAt i (workers s)) as [[[w1 w] w2]|] eqn:E; [| discriminate].
    destruct w as [ip ans | [|p items] |]; try discriminate.
    inversion H; subst. apply stepB_return. apply (splitAt_app _ _ _ _ _ E).
  - destruct (allReturned (workers s)) eqn:Ea; [| discriminate].
    destruct (chanClosed s) eqn:Ec; [discriminate |].
    inversion H; subst. apply stepB_close; assumption.
  - destruct (chanBuf s) as [|p rest] eqn:Eb; [discriminate |].
    destruct (drained s) eqn:Ed; [discriminate |].
    inversion H; subst. apply (stepB_receive _ _ _ _ _ _ _ rest); assumption.
  - destruct (chanBuf s) as [|p rest] eqn:Eb; [| discriminate].
    destruct (chanClosed s) eqn:Ec; [| discriminate].
    destruct (drained s) eqn:Ed; [discriminate |].
    inversion H; subst. apply stepB_leave; assumption.
Qed.

Lemma runsB_first (sem : LoopVar) (n : nat) (s1 s2 s3 : State) :
  stepB sem s1 s2 -> runsB sem n s2 s3 -> runsB sem (S n) s1 s3.
Proof.
  intros H12 H23. induction H23 as [s | n s2 s3 s4 _ IH H34].
  - eapply runsB_more; [apply runsB_zero | exact H12].
  - eapply runsB_more; [apply IH; exact H12 | exact H34].
Qed.

Lemma runB_runsB (sem : LoopVar) (ms : list Move) (s s' : State) :
  runB sem ms s = Some s' -> runsB sem (List.length ms) s s'.
Proof.
  revert s. induction ms as [|m ms IH]; simpl; intros s H.
  - inversion H; subst. apply runsB_zero.
  - destruct (moveB sem m s) as [s1|] eqn:E; [| discriminate].
    eapply runsB_first; [exact (moveB_stepB _ _ _ _ E) | apply IH; exact H].
Qed.

End Facts.

(** The [net view] of host C never returns. *)
Definition hangsC : string -> bool := String.eqb "192.168.0.102".

(** Host B has sent LaserJet and [main] has received it; hosts A and B
    have returned; the goroutine of host C waits. *)
Definition stalled : State :=
  Eval vm_compute in
    (match Stall.runB identity identity identity hangsC PerIteration
             [DoProbe 0; DoProbe 1; DoSend 1; DoReceive; DoReturn 0; DoReturn 1]
             (Scan.initState threeHosts) with
     | Some s => s
     | None => Scan.initState []
     end).

Lemma stall_witness :
  Stall.allReturn (fun _ => false) threeHosts = true
  /\ (exists n s,
        Stall.runsB identity identity identity (fun _ => false) PerIteration n
          (Scan.initState threeHosts) s
        /\ drained s = true)
  /\ Stall.allReturn hangsC threeHosts = false
  /\ Stall.runsB identity identity identity hangsC PerIteration 6
       (Scan.initState threeHosts) stalled
  /\ arrived stalled = [laserJet]
  /\ Stall.onlyWaiting hangsC (workers stalled) = true
  /\ chanClosed stalled = false /\ drained stalled = false
  /\ forall s',
       ~ Stall.stepB identity identity identity hangsC PerIteration stalled s'.
Proof.
  split; [reflexivity |].
  split.
  { apply (proj2 (proj1 (proj2 (scan_ends_iff_every_probe_returns
                                   identity identity identity (fun _ => false)
                                   PerIteration threeHosts)) eq_refl)). }
  split; [reflexivity |].
  assert (Stall.runsB identity identity identity hangsC PerIteration 6
            (Scan.initState threeHosts) stalled) as Hr.
  { apply (runB_runsB identity identity identity hangsC PerIteration
             [DoProbe 0; DoProbe 1; DoSend 1; DoReceive; DoReturn 0; DoReturn 1]).
    vm_compute. reflexivity. }
  split; [exact Hr |]. split; [vm_compute; reflexivity |].
  split; [vm_compute; reflexivity |].
  destruct (proj2 (proj2 (scan_ends_iff_every_probe_returns
                            identity identity identity hangsC
                            PerIteration threeHosts)) eq_refl 6%nat stalled Hr)
    as (Hc & Hd & Hstuck).
  split; [exact Hc |]. split; [exact Hd |].
  apply Hstuck; vm_compute; reflexivity.
Defined.

End StallFacts.
